(** * The Bugzilla plugin of Prow: a shallow embedding and its properties

    The development follows [prow/plugins/bugzilla/bugzilla.go].

    Part I embeds the code: the title pattern [titleMatch] as a
    backtracking matcher, [strconv.Atoi], the event digester [digestPR],
    the pure validator [validateBug], and the handlers [handle],
    [handleMerge] and [getBug], written in a small monad that threads the
    state of the two external services, records every call made to them
    with what it returned, and supports Go's early [return]. The blocks
    of a long function are named and carry the lines that they embed.
    Part I ends with the vocabulary of the statements and with an
    in-memory implementation of the clients on which they are run.

    Part II proves the properties: what [titleMatch] recognises and what
    [digestPR] makes of it; the verdicts of [validateBug]; the calls of
    the label reconciler and of the merge tracker; what happens when the
    tracker fails; the QA contact.
    It goes on with the rest of the file: the two command patterns and
    [digestComment], the entry points [handlePullRequest] and
    [handleGenericComment], the text of [helpProvider]; and with what
    [handle] does on each of its paths: the calls that it makes, how often,
    and the comment that it ends with.

    Go strings are byte strings, modelled by [string]; Go's [int] is the
    64-bit integer, modelled by [Z] (the only place where its range matters
    is [Atoi]). Pointers that may be nil are options. The logger is left
    out everywhere. *)

From Stdlib Require Import ZArith String Ascii List Bool Lia DecimalString DecimalPos
  Permutation.
Import ListNotations.
Open Scope string_scope.
Open Scope Z_scope.

Set Implicit Arguments.

(* ================================================================= *)
(** * Part I: definitions *)

(* ----------------------------------------------------------------- *)
(** ** Errors *)

(** Modelled from the spec: Go's [error] values as they are observable by
    this file: the text printed by [%v], and whether the tracker client's
    [IsNotFound] recognises the value ("fetch bug by id (signals a
    distinguished not-found condition)"). A nil error is [None]. *)
Record error : Type := mkError {
  Error : string;
  isNotFound : bool
}.

Definition IsNotFound (err : option error) : bool :=
  match err with
  | Some e => isNotFound e
  | None => false
  end.

(** [%v] applied to an error value. *)
Definition fmt_v (err : option error) : string :=
  match err with
  | Some e => Error e
  | None => "<nil>"
  end.

(** [%d] applied to an int. *)
Definition fmt_d (n : Z) : string := NilZero.string_of_int (Z.to_int n).

Definition isSome {A} (o : option A) : bool :=
  match o with Some _ => true | None => false end.

Definition isNone {A} (o : option A) : bool := negb (isSome o).

(* ----------------------------------------------------------------- *)
(** ** Regular expressions, as backtracking matchers

    A pattern is the composition of the matchers of its pieces, each taking
    the matcher of what follows as a continuation; the first success in
    the order of preference is the leftmost-first match that Go's [regexp]
    reports. *)

Section Regexp.
Variable A : Type.

(** One character of the class [p]. *)
Definition reChar (p : ascii -> bool) (k : string -> option A) (s : string) : option A :=
  match s with
  | String c s' => if p c then k s' else None
  | EmptyString => None
  end.

(** [x*?]: as few characters of the class [p] as possible. *)
Fixpoint reLazyStar (p : ascii -> bool) (k : string -> option A) (s : string) : option A :=
  match k s with
  | Some r => Some r
  | None =>
      match s with
      | String c s' => if p c then reLazyStar p k s' else None
      | EmptyString => None
      end
  end.

(** A captured greedy star: as many characters of the class [p] as possible, captured;
    [cap] is what the group has consumed so far. *)
Fixpoint reGreedyStarCap (p : ascii -> bool) (k : string -> string -> option A)
         (cap : string) (s : string) : option A :=
  match s with
  | String c s' =>
      if p c then
        match reGreedyStarCap p k (cap ++ String c EmptyString) s' with
        | Some r => Some r
        | None => k cap s
        end
      else k cap s
  | EmptyString => k cap s
  end.

(** A captured greedy plus, [(x+)]. *)
Definition reGreedyPlusCap (p : ascii -> bool) (k : string -> string -> option A)
           (s : string) : option A :=
  match s with
  | String c s' => if p c then reGreedyStarCap p k (String c EmptyString) s' else None
  | EmptyString => None
  end.
End Regexp.

(** [.] without the [s] flag: any character but the line feed. *)
Definition anyButNewline (c : ascii) : bool := negb (Ascii.eqb c "010"%char).

(** A letter under [(?i)]. *)
Definition ci (lower upper : ascii) (c : ascii) : bool :=
  Ascii.eqb c lower || Ascii.eqb c upper.

Definition lit (x : ascii) (c : ascii) : bool := Ascii.eqb c x.

(** [[0-9]] *)
Definition isDigit (c : ascii) : bool :=
  let n := N_of_ascii c in ((48 <=? n) && (n <=? 57))%N.

(** [titleMatch = regexp.MustCompile(`(?i)^.*?Bug ([0-9]+):`)], and
    [titleMatch.FindStringSubmatch(title)]: [None] is Go's nil result, and
    [Some ds] a match whose group 1 ([mat[1]], the only part of the result
    that the callers read) is [ds]. The pattern starts with [^] and has no
    [m] flag, so only a match at offset 0 is tried. *)
Definition titleMatch_FindStringSubmatch (title : string) : option string :=
  reLazyStar anyButNewline
    (reChar (ci "b" "B")
    (reChar (ci "u" "U")
    (reChar (ci "g" "G")
    (reChar (lit " ")
    (reGreedyPlusCap isDigit (fun cap =>
     reChar (lit ":") (fun _ => Some cap)))))))
    title.

(* ----------------------------------------------------------------- *)
(** ** The command patterns *)

Section RegexpCommands.
Variable A : Type.

(** An uncaptured greedy star, [x*]. *)
Fixpoint reGreedyStar (p : ascii -> bool) (k : string -> option A) (s : string) : option A :=
  match s with
  | String c s' =>
      if p c then
        match reGreedyStar p k s' with
        | Some r => Some r
        | None => k s
        end
      else k s
  | EmptyString => k s
  end.

(** [$] under the [m] flag: at the end of the text or before a line
    feed. *)
Definition reEndLine (k : string -> option A) (s : string) : option A :=
  match s with
  | EmptyString => k s
  | String c _ => if Ascii.eqb c "010"%char then k s else None
  end.

(** [s] without its prefix [v], if it has it. *)
Fixpoint trimPrefix (v s : string) : option string :=
  match v with
  | EmptyString => Some s
  | String c v' =>
      match s with
      | String d s' => if Ascii.eqb c d then trimPrefix v' s' else None
      | EmptyString => None
      end
  end.

(** An alternation of literal strings, tried in their order. *)
Fixpoint reOneOf (vs : list string) (k : string -> option A) (s : string) : option A :=
  match vs with
  | [] => None
  | v :: vs' =>
      match trimPrefix v s with
      | Some s' =>
          match k s' with
          | Some r => Some r
          | None => reOneOf vs' k s
          end
      | None => reOneOf vs' k s
      end
  end.

(** A pattern that starts with [^] under the [m] flag, searched for in
    the text: the rest of the pattern, [body], is tried at the start of
    the text and after every line feed, from left to right. *)
Fixpoint reSearchLines (body : string -> option A) (atStart : bool) (s : string) : option A :=
  match (if atStart then body s else None) with
  | Some r => Some r
  | None =>
      match s with
      | String c s' => reSearchLines body (Ascii.eqb c "010"%char) s'
      | EmptyString => None
      end
  end.

End RegexpCommands.

(** [\s]: the class [[\t\n\f\r ]]. *)
Definition isSpace (c : ascii) : bool :=
  Ascii.eqb c "009"%char || Ascii.eqb c "010"%char || Ascii.eqb c "012"%char ||
  Ascii.eqb c "013"%char || Ascii.eqb c " "%char.

(** What a literal character matches under [(?i)]: the characters of its
    orbit under simple case folding, which Go's [regexp] walks with
    [unicode.SimpleFold]. For an ASCII letter these are the letter in both
    cases and, for s and k, a third character: the long s (U+017F, the
    bytes 197 191 in UTF-8) and the Kelvin sign (U+212A, the bytes
    226 132 170). *)
Definition foldOrbit (c : ascii) : list string :=
  let n := N_of_ascii c in
  let one (x : ascii) := String x EmptyString in
  let third (lower : ascii) : list string :=
    if Ascii.eqb lower "s" then [String "197"%char (String "191"%char EmptyString)]
    else if Ascii.eqb lower "k"
         then [String "226"%char (String "132"%char (String "170"%char EmptyString))]
         else [] in
  if ((97 <=? n) && (n <=? 122))%N then
    (one c :: one (ascii_of_N (n - 32)) :: third c)%list
  else if ((65 <=? n) && (n <=? 90))%N then
    (one c :: one (ascii_of_N (n + 32)) :: third (ascii_of_N (n + 32)))%list
  else [one c].

(** A literal string under [(?i)]. *)
Fixpoint reLiteralFold (A : Type) (literal : string) (k : string -> option A) : string -> option A :=
  match literal with
  | EmptyString => k
  | String c literal' => reOneOf (foldOrbit c) (reLiteralFold literal' k)
  end.

(** The two command patterns, [(?mi)^/bugzilla refresh\s*$] and
    [(?mi)^/bugzilla assign-qa\s*$], differ by the name of the command
    only; [MatchString] says whether the pattern matches somewhere. *)
Definition commandMatch (command : string) (body : string) : bool :=
  isSome (reSearchLines
            (reLiteralFold command (reGreedyStar isSpace (reEndLine (fun _ => Some tt))))
            true body).

(** [refreshCommandMatch.MatchString] *)
Definition refreshCommandMatch_MatchString : string -> bool :=
  commandMatch "/bugzilla refresh".

(** [qaCommandMatch.MatchString] *)
Definition qaCommandMatch_MatchString : string -> bool :=
  commandMatch "/bugzilla assign-qa".

(* ----------------------------------------------------------------- *)
(** ** [strconv.Atoi] *)

Definition maxInt : Z := 2 ^ 63 - 1.
Definition minInt : Z := - 2 ^ 63.

Definition digitVal (c : ascii) : Z := Z.of_N (N_of_ascii c) - 48.

(** The value of a string of decimal digits; [None] at another character. *)
Fixpoint parseDigits (acc : Z) (s : string) : option Z :=
  match s with
  | EmptyString => Some acc
  | String c s' => if isDigit c then parseDigits (10 * acc + digitVal c) s' else None
  end.

Inductive NumErr : Type := ErrSyntax | ErrRange.

(** [strconv.Atoi] on a 64-bit platform: an optional sign, then at least
    one decimal digit and nothing else; a value outside of the range of
    [int] is an error (Go returns the nearest bound with it). *)
Definition Atoi (s : string) : Z * option NumErr :=
  let '(neg, body) :=
    match s with
    | String c s' =>
        if Ascii.eqb c "+" then (false, s')
        else if Ascii.eqb c "-" then (true, s')
        else (false, s)
    | EmptyString => (false, s)
    end in
  match body with
  | EmptyString => (0, Some ErrSyntax)
  | _ =>
      match parseDigits 0 body with
      | None => (0, Some ErrSyntax)
      | Some n =>
          let v := if neg then - n else n in
          if v <? minInt then (minInt, Some ErrRange)
          else if maxInt <? v then (maxInt, Some ErrRange)
          else (v, None)
      end
  end.

(* ----------------------------------------------------------------- *)
(** ** The data of the tracker, of the review host and of the plugin
       configuration

    The structs are declared in the packages [bugzilla], [github] and
    [plugins], which this file imports; the records below have the fields
    that this file reads, with their Go names and types. Each lives in a
    module named after the Go type, so that the fields keep their names. *)

Module BugzillaBugState.
(** Modelled from the spec: [plugins.BugzillaBugState], a state that a
    Policy names: "status + resolution". *)
Record t : Type := mk { Status : string; Resolution : string }.
End BugzillaBugState.

Module BugUpdate.
(** Modelled from the spec: [bugzilla.BugUpdate], the argument of "update
    a bug's state": a status and a resolution. *)
Record t : Type := mk { Status : string; Resolution : string }.
End BugUpdate.

Module BugUser.
(** Modelled from the spec: the detail of the QA contact of a bug, of
    which the file reads the "optional QA-contact email". *)
Record t : Type := mk { Email : string }.
End BugUser.

Module Bug.
(** Modelled from the spec: [bugzilla.Bug], the "tracker-side record --
    numeric id, open/closed flag, status + resolution, target release(s)
    (list; only the first entry is authoritative), list of dependency bug
    ids, optional QA-contact email". *)
Record t : Type := mk {
  ID : Z;
  IsOpen : bool;
  Status : string;
  Resolution : string;
  TargetRelease : list string;
  DependsOn : list Z;
  QAContactDetail : option BugUser.t
}.
End Bug.

Module ExternalBug.
(** Modelled from the spec: [bugzilla.ExternalBug], the link "{org, repo,
    pull-request number} recorded against a bug id in the tracker". *)
Record t : Type := mk { Org : string; Repo : string; Num : Z }.

(** [==] on the struct, as the keys of a Go map are compared. *)
Definition eqb (a b : t) : bool :=
  String.eqb (Org a) (Org b) && String.eqb (Repo a) (Repo b) && (Num a =? Num b).
End ExternalBug.

Module BugzillaBranchOptions.
(** Modelled from the spec: [plugins.BugzillaBranchOptions], the Policy:
    "optional constraints -- required open/closed state, required target
    release, set of acceptable bug states, dependent-bug state/release
    constraints, the state to move a bug to after validation, the state to
    move a bug to after merge, whether to link the pull request into the
    tracker as an external reference", and the validate-by-default flag.
    Every field is a pointer in Go: nil is [None]. *)
Record t : Type := mk {
  ValidateByDefault : option bool;
  IsOpen : option bool;
  TargetRelease : option string;
  ValidStates : option (list BugzillaBugState.t);
  DependentBugStates : option (list BugzillaBugState.t);
  DependentBugTargetRelease : option string;
  StateAfterValidation : option BugzillaBugState.t;
  AddExternalLink : option bool;
  StateAfterMerge : option BugzillaBugState.t
}.
End BugzillaBranchOptions.

Module Label.
(** Modelled from the spec: [github.Label], of which the file reads the
    name. *)
Record t : Type := mk { Name : string }.
End Label.

Module PullRequest.
(** Modelled from the spec: [github.PullRequest], with the fields that
    make an Event: number, URL, author login, title, state, merged flag,
    and the branch, owner and name of the base repository (the paths
    [Base.Ref], [Base.Repo.Owner.Login], [Base.Repo.Name] and
    [User.Login] are flattened). *)
Record t : Type := mk {
  Number : Z;
  HTMLURL : string;
  User_Login : string;
  Title : string;
  State : string;
  Merged : bool;
  Base_Ref : string;
  Base_Repo_Owner_Login : string;
  Base_Repo_Name : string
}.
End PullRequest.

(** Modelled from the spec: the actions of a pull-request event, a closed
    set of variants ("model each as a tagged enumeration"); the last one
    stands for every action that [digestPR] does not name. *)
Inductive PullRequestEventAction : Type :=
| PullRequestActionOpened
| PullRequestActionReopened
| PullRequestActionEdited
| PullRequestActionClosed
| PullRequestActionOther (name : string).

Module PullRequestEvent.
(** Modelled from the spec: [github.PullRequestEvent]: the action, the
    pull request and the raw JSON of the changes, which carries the
    previous title of an edit. *)
Record t : Type := mk {
  Action : PullRequestEventAction;
  PullRequest : PullRequest.t;
  Changes : string
}.
End PullRequestEvent.

(** Modelled from the spec: the actions of a comment event, of which the
    plugin "acts only on newly created comments"; the second one stands
    for every action that [digestComment] does not name. *)
Inductive GenericCommentEventAction : Type :=
| GenericCommentActionCreated
| GenericCommentActionOther (name : string).

Module GenericCommentEvent.
(** Modelled from the spec: [github.GenericCommentEvent], with the fields
    that make an Event "from a comment": the action, the body of the
    comment, its URL and its author, the repository, the number of the
    issue or pull request, and whether it is a pull request (the paths
    [Repo.Owner.Login], [Repo.Name] and [User.Login] are flattened). *)
Record t : Type := mk {
  Action : GenericCommentEventAction;
  Body : string;
  HTMLURL : string;
  User_Login : string;
  Repo_Owner_Login : string;
  Repo_Name : string;
  Number : Z;
  IsPR : bool
}.
End GenericCommentEvent.

(** [type event struct] *)
Module event.
Record t : Type := mk {
  org : string; repo : string; baseRef : string;
  number : Z; bugId : Z;
  missing : bool; merged : bool;
  state : string;
  body : string; htmlUrl : string; login : string;
  assign : bool
}.

Definition set_missing (b : bool) (e : t) : t :=
  mk (org e) (repo e) (baseRef e) (number e) (bugId e) b (merged e)
     (state e) (body e) (htmlUrl e) (login e) (assign e).

Definition set_bugId (id : Z) (e : t) : t :=
  mk (org e) (repo e) (baseRef e) (number e) id (missing e) (merged e)
     (state e) (body e) (htmlUrl e) (login e) (assign e).

Definition set_assign (b : bool) (e : t) : t :=
  mk (org e) (repo e) (baseRef e) (number e) (bugId e) (missing e) (merged e)
     (state e) (body e) (htmlUrl e) (login e) b.
End event.

(* ----------------------------------------------------------------- *)
(** ** What the file imports

    The functions and constants of the packages [plugins], [bugzilla],
    [labels], [strconv], [fmt] and [encoding/json] that the file uses but
    does not define. The development is parametric in them. *)

Class Externals : Type := {
  (** the method [Matches] of [*BugzillaBugState] *)
  Matches : BugzillaBugState.t -> Bug.t -> bool;
  (** the method [AsBugUpdate] of [*BugzillaBugState]; both pointers may be nil *)
  AsBugUpdate : option BugzillaBugState.t -> option Bug.t -> option BugUpdate.t;
  (** [%s] applied to a [*BugzillaBugState] *)
  fmt_s_state : option BugzillaBugState.t -> string;
  (** [bugzilla.PrettyStatus] *)
  PrettyStatus : string -> string -> string;
  (** [plugins.FormatResponseRaw] *)
  FormatResponseRaw : string -> string -> string -> string -> string;
  (** [labels.ValidBug], [labels.InvalidBug] *)
  ValidBug : string;
  InvalidBug : string;
  (** [%q] applied to a string *)
  fmt_q : string -> string;
  (** [json.Unmarshal(pre.Changes, &changes)] followed by
      [changes.Title.From]; [None] when [Unmarshal] returns an error *)
  unmarshalTitleFrom : string -> option string
}.

Section Pure.
Context {ext : Externals}.

(** The error of [strconv.Atoi]. *)
Definition numError (s : string) (e : NumErr) : error :=
  mkError ("strconv.Atoi: parsing " ++ fmt_q s ++ ": " ++
           match e with
           | ErrSyntax => "invalid syntax"
           | ErrRange => "value out of range"
           end) false.

(* ----------------------------------------------------------------- *)
(** ** The event digester *)

(** [digestPR], lines 202-205: the actions that it handles. *)
Definition actsOn (pre : PullRequestEvent.t) : bool :=
  match PullRequestEvent.Action pre with
  | PullRequestActionOpened => true
  | PullRequestActionReopened => true
  | PullRequestActionEdited => true
  | PullRequestActionClosed => PullRequest.Merged (PullRequestEvent.PullRequest pre)
  | PullRequestActionOther _ => false
  end.

(** [digestPR]; the logger is left out. *)
Definition digestPR (pre : PullRequestEvent.t) (validateByDefault : option bool)
  : option event.t * option error :=
  if negb (actsOn pre) then (None, None) else
  let pr := PullRequestEvent.PullRequest pre in
  let org := PullRequest.Base_Repo_Owner_Login pr in
  let repo := PullRequest.Base_Repo_Name pr in
  let baseRef := PullRequest.Base_Ref pr in
  let number := PullRequest.Number pr in
  let title := PullRequest.Title pr in
  let e := event.mk org repo baseRef number 0 false (PullRequest.Merged pr)
             (PullRequest.State pr) title (PullRequest.HTMLURL pr)
             (PullRequest.User_Login pr) false in
  let parsed : event.t + error :=
    match titleMatch_FindStringSubmatch title with
    | None => inl (event.set_missing true e)
    | Some mat1 =>
        match Atoi mat1 with
        | (_, Some err) => inr (numError mat1 err)
        | (id, None) => inl (event.set_bugId id e)
        end
    end in
  match parsed with
  | inr err => (None, Some err)
  | inl e =>
      let intermediate :=
        if negb (event.missing e) ||
           match validateByDefault with Some b => b | None => false end
        then Some e else None in
      match unmarshalTitleFrom (PullRequestEvent.Changes pre) with
      | None => (intermediate, None)
      | Some from =>
          match titleMatch_FindStringSubmatch from with
          | None => (intermediate, None)
          | Some prevMat1 =>
              match Atoi prevMat1 with
              | (_, Some _) => (intermediate, None)
              | (prevId, None) =>
                  if prevId =? event.bugId e then (None, None)
                  else (Some e, None)
              end
          end
      end
  end.

(* ----------------------------------------------------------------- *)
(** ** The bug validator *)

(** [const bugLink = `[Bugzilla bug %d](%s/show_bug.cgi?id=%d)`], with its
    arguments in the order of every use: the id, the endpoint, the id. *)
Definition bugLink (id : Z) (endpoint : string) : string :=
  "[Bugzilla bug " ++ fmt_d id ++ "](" ++ endpoint ++ "/show_bug.cgi?id=" ++ fmt_d id ++ ")".

Definition bugMatchesStates (bug : Bug.t) (states : list BugzillaBugState.t) : bool :=
  existsb (fun state => Matches state bug) states.

Definition prettyStates (statuses : list BugzillaBugState.t) : list string :=
  map (fun status => PrettyStatus (BugzillaBugState.Status status)
                                  (BugzillaBugState.Resolution status)) statuses.

(** [strings.Join] *)
Definition Join (elems : list string) (sep : string) : string := String.concat sep elems.

(** The three results of [validateBug], in the order in which it returns
    them: [valid], [validations], [errors]. *)
Definition verdict : Type := (bool * list string * list string)%type.

(** [valid = false; errors = append(errors, msg)] *)
Definition addError (msg : string) (v : verdict) : verdict :=
  let '(_, validations, errors) := v in (false, validations, (errors ++ [msg])%list).

(** [validations = append(validations, msg)] *)
Definition addValidation (msg : string) (v : verdict) : verdict :=
  let '(valid, validations, errors) := v in (valid, (validations ++ [msg])%list, errors).

(** The body of the loop over the dependents for [DependentBugStates]. *)
Definition checkDependentState (states : list BugzillaBugState.t) (endpoint : string)
           (v : verdict) (bug : Bug.t) : verdict :=
  if negb (bugMatchesStates bug states) then
    let expected := Join (prettyStates states) ", " in
    let actual := PrettyStatus (Bug.Status bug) (Bug.Resolution bug) in
    addError ("expected dependent " ++ bugLink (Bug.ID bug) endpoint ++
              " to be in one of the following states: " ++ expected ++
              ", but it is " ++ actual ++ " instead") v
  else
    addValidation ("dependent bug " ++ bugLink (Bug.ID bug) endpoint ++
                   " is in the state " ++ PrettyStatus (Bug.Status bug) (Bug.Resolution bug) ++
                   ", which is one of the valid states (" ++
                   Join (prettyStates states) ", " ++ ")") v.

(** The body of the loop over the dependents for
    [DependentBugTargetRelease]. *)
Definition checkDependentTargetRelease (release : string) (endpoint : string)
           (v : verdict) (bug : Bug.t) : verdict :=
  match Bug.TargetRelease bug with
  | [] =>
      addError ("expected dependent " ++ bugLink (Bug.ID bug) endpoint ++
                " to target the " ++ fmt_q release ++
                " release, but no target release was set") v
  | first :: _ =>
      if negb (String.eqb release first) then
        addError ("expected dependent " ++ bugLink (Bug.ID bug) endpoint ++
                  " to target the " ++ fmt_q release ++
                  " release, but it targets " ++ fmt_q first ++ " instead") v
      else
        addValidation ("dependent " ++ bugLink (Bug.ID bug) endpoint ++
                       " targets the " ++ fmt_q first ++
                       " release, matching the expected (" ++ release ++ ") release") v
  end.

(** [validateBug] *)
Definition validateBug (bug : Bug.t) (dependents : list Bug.t)
           (options : BugzillaBranchOptions.t) (endpoint : string) : verdict :=
  let v : verdict := (true, [], []) in
  let v :=
    match BugzillaBranchOptions.IsOpen options with
    | Some isOpen =>
        if negb (Bool.eqb isOpen (Bug.IsOpen bug)) then
          let not := if negb isOpen then "not " else EmptyString in
          let was := if negb isOpen then "is" else "isn't" in
          addError ("expected the bug to " ++ not ++ "be open, but it " ++ was) v
        else
          let expected := if negb isOpen then "not open" else "open" in
          let was := if Bug.IsOpen bug then "is" else "isn't" in
          addValidation ("bug " ++ was ++ " open, matching expected state (" ++ expected ++ ")") v
    | None => v
    end in
  let v :=
    match BugzillaBranchOptions.TargetRelease options with
    | Some release =>
        match Bug.TargetRelease bug with
        | [] =>
            addError ("expected the bug to target the " ++ fmt_q release ++
                      " release, but no target release was set") v
        | first :: _ =>
            if negb (String.eqb release first) then
              addError ("expected the bug to target the " ++ fmt_q release ++
                        " release, but it targets " ++ fmt_q first ++ " instead") v
            else
              addValidation ("bug target release (" ++ first ++
                             ") matches configured target release for branch (" ++
                             release ++ ")") v
        end
    | None => v
    end in
  let v :=
    match BugzillaBranchOptions.ValidStates options with
    | Some validStates =>
        let allowed :=
          (validStates ++
           match BugzillaBranchOptions.StateAfterValidation options with
           | Some s => [s]
           | None => []
           end)%list in
        if negb (bugMatchesStates bug allowed) then
          addError ("expected the bug to be in one of the following states: " ++
                    Join (prettyStates allowed) ", " ++ ", but it is " ++
                    PrettyStatus (Bug.Status bug) (Bug.Resolution bug) ++ " instead") v
        else
          addValidation ("bug is in the state " ++
                         PrettyStatus (Bug.Status bug) (Bug.Resolution bug) ++
                         ", which is one of the valid states (" ++
                         Join (prettyStates allowed) ", " ++ ")") v
    | None => v
    end in
  let v :=
    match BugzillaBranchOptions.DependentBugStates options with
    | Some states => fold_left (checkDependentState states endpoint) dependents v
    | None => v
    end in
  let v :=
    match BugzillaBranchOptions.DependentBugTargetRelease options with
    | Some release => fold_left (checkDependentTargetRelease release endpoint) dependents v
    | None => v
    end in
  match dependents with
  | [] =>
      match BugzillaBranchOptions.DependentBugStates options,
            BugzillaBranchOptions.DependentBugTargetRelease options with
      | Some states, Some release =>
          let expected := Join (prettyStates states) ", " in
          addError ("expected " ++ bugLink (Bug.ID bug) endpoint ++
                    " to depend on a bug targeting the " ++ fmt_q release ++
                    " release and in one of the following states: " ++ expected ++
                    ", but no dependents were found") v
      | Some states, None =>
          let expected := Join (prettyStates states) ", " in
          addError ("expected " ++ bugLink (Bug.ID bug) endpoint ++
                    " to depend on a bug in one of the following states: " ++ expected ++
                    ", but no dependents were found") v
      | None, Some release =>
          addError ("expected " ++ bugLink (Bug.ID bug) endpoint ++
                    " to depend on a bug targeting the " ++ fmt_q release ++
                    " release, but no dependents were found") v
      | None, None => v
      end
  | _ :: _ => addValidation "bug has dependents" v
  end.

End Pure.

(* ----------------------------------------------------------------- *)
(** ** The two clients and the calls made to them *)

(** A call to one of the clients, with what it returned. *)
Inductive Call : Type :=
| GetPullRequestCall (org repo : string) (number : Z)
                     (ret : option PullRequest.t * option error)
| CreateCommentCall (owner repo : string) (number : Z) (comment : string)
                    (ret : option error)
| GetIssueLabelsCall (org repo : string) (number : Z)
                     (ret : list Label.t * option error)
| AddLabelCall (owner repo : string) (number : Z) (label : string) (ret : option error)
| RemoveLabelCall (owner repo : string) (number : Z) (label : string) (ret : option error)
| QueryCall (email : string) (ret : list string * option error)
| GetBugCall (id : Z) (ret : option Bug.t * option error)
| GetExternalBugPRsOnBugCall (id : Z) (ret : list ExternalBug.t * option error)
| UpdateBugCall (id : Z) (update : BugUpdate.t) (ret : option error)
| AddPullRequestAsExternalBugCall (id : Z) (org repo : string) (num : Z)
                                  (ret : bool * option error).

(** [type githubClient interface]. The state [W] is the state of the world
    outside of the plugin; a method takes it and returns the new one with
    its Go results. [Query] is used with the one query of this file, which
    is determined by the email; its first result stands for the logins of
    [query.Search.Edges] after the call. *)
Class githubClient (W : Type) : Type := {
  GetPullRequest : string -> string -> Z -> W -> W * (option PullRequest.t * option error);
  CreateComment : string -> string -> Z -> string -> W -> W * option error;
  GetIssueLabels : string -> string -> Z -> W -> W * (list Label.t * option error);
  AddLabel : string -> string -> Z -> string -> W -> W * option error;
  RemoveLabel : string -> string -> Z -> string -> W -> W * option error;
  Query : string -> W -> W * (list string * option error)
}.

(** Modelled from the spec: [bugzilla.Client], by the methods that the
    file calls: "fetch bug by id (signals a distinguished not-found
    condition); fetch external-link records for a bug id; update a bug's
    state; create an external-link record for a pull request; report the
    tracker's base endpoint URL". The URL does not depend on the world. *)
Class bugzillaClient (W : Type) : Type := {
  Endpoint : string;
  GetBug : Z -> W -> W * (option Bug.t * option error);
  GetExternalBugPRsOnBug : Z -> W -> W * (list ExternalBug.t * option error);
  UpdateBug : Z -> BugUpdate.t -> W -> W * option error;
  AddPullRequestAsExternalBug : Z -> string -> string -> Z -> W -> W * (bool * option error)
}.

(* ----------------------------------------------------------------- *)
(** ** The monad of the handlers

    A statement of a Go function whose result type is [R] either goes on
    with a value, or returns from the function, or panics (a nil pointer
    is dereferenced); on the way it changes the world and makes calls. *)

Inductive res (R A : Type) : Type :=
| Val (a : A)
| Ret (r : R)
| Panic.
Arguments Val {R A} a.
Arguments Ret {R A} r.
Arguments Panic {R A}.

Definition M (W R A : Type) : Type := W -> W * list Call * res R A.

Definition ret {W R A} (a : A) : M W R A := fun w => (w, [], Val a).

Definition return_ {W R A} (r : R) : M W R A := fun w => (w, [], Ret r).

Definition panic {W R A} : M W R A := fun w => (w, [], Panic).

Definition bind {W R A B} (m : M W R A) (f : A -> M W R B) : M W R B :=
  fun w =>
    let '(w1, t1, r) := m w in
    match r with
    | Val a => let '(w2, t2, r2) := f a w1 in (w2, (t1 ++ t2)%list, r2)
    | Ret x => (w1, t1, Ret x)
    | Panic => (w1, t1, Panic)
    end.

(** The body of a function, seen from its caller. *)
Definition func {W R R'} (body : M W R R) : M W R' R :=
  fun w =>
    let '(w1, t1, r) := body w in
    (w1, t1, match r with
             | Val a => Val a
             | Ret a => Val a
             | Panic => Panic
             end).

Declare Scope go_scope.
Delimit Scope go_scope with go.
Notation "x <- c ;; k" := (bind c (fun x => k))
  (at level 100, c at next level, right associativity) : go_scope.
Notation "' p <- c ;; k" := (bind c (fun x => let 'p := x in k))
  (at level 100, p pattern, c at next level, right associativity) : go_scope.
Notation "c ;;; k" := (bind c (fun _ => k))
  (at level 100, right associativity) : go_scope.
Open Scope go_scope.

(** What came out of a run: the final world, the calls in the order in
    which they were made, and the result. *)
Definition worldOf {W R A} (x : W * list Call * res R A) : W := fst (fst x).
Definition callsOf {W R A} (x : W * list Call * res R A) : list Call := snd (fst x).
Definition resultOf {W R A} (x : W * list Call * res R A) : res R A := snd x.

Definition nl : string := String "010"%char EmptyString.
Definition tab : string := String "009"%char EmptyString.

Section Handlers.
Context {ext : Externals} {W : Type} {gc : githubClient W} {bc : bugzillaClient W}.

(** The methods, as statements that record the call. *)
Definition gc_GetPullRequest {R} (org repo : string) (number : Z)
  : M W R (option PullRequest.t * option error) :=
  fun w => let '(w', r) := GetPullRequest org repo number w in
           (w', [GetPullRequestCall org repo number r], Val r).

Definition gc_CreateComment {R} (owner repo : string) (number : Z) (comment : string)
  : M W R (option error) :=
  fun w => let '(w', r) := CreateComment owner repo number comment w in
           (w', [CreateCommentCall owner repo number comment r], Val r).

Definition gc_GetIssueLabels {R} (org repo : string) (number : Z)
  : M W R (list Label.t * option error) :=
  fun w => let '(w', r) := GetIssueLabels org repo number w in
           (w', [GetIssueLabelsCall org repo number r], Val r).

Definition gc_AddLabel {R} (owner repo : string) (number : Z) (label : string)
  : M W R (option error) :=
  fun w => let '(w', r) := AddLabel owner repo number label w in
           (w', [AddLabelCall owner repo number label r], Val r).

Definition gc_RemoveLabel {R} (owner repo : string) (number : Z) (label : string)
  : M W R (option error) :=
  fun w => let '(w', r) := RemoveLabel owner repo number label w in
           (w', [RemoveLabelCall owner repo number label r], Val r).

Definition gc_Query {R} (email : string) : M W R (list string * option error) :=
  fun w => let '(w', r) := Query email w in (w', [QueryCall email r], Val r).

Definition bc_GetBug {R} (id : Z) : M W R (option Bug.t * option error) :=
  fun w => let '(w', r) := GetBug id w in (w', [GetBugCall id r], Val r).

Definition bc_GetExternalBugPRsOnBug {R} (id : Z)
  : M W R (list ExternalBug.t * option error) :=
  fun w => let '(w', r) := GetExternalBugPRsOnBug id w in
           (w', [GetExternalBugPRsOnBugCall id r], Val r).

Definition bc_UpdateBug {R} (id : Z) (update : BugUpdate.t) : M W R (option error) :=
  fun w => let '(w', r) := UpdateBug id update w in (w', [UpdateBugCall id update r], Val r).

Definition bc_AddPullRequestAsExternalBug {R} (id : Z) (org repo : string) (num : Z)
  : M W R (bool * option error) :=
  fun w => let '(w', r) := AddPullRequestAsExternalBug id org repo num w in
           (w', [AddPullRequestAsExternalBugCall id org repo num r], Val r).

(** [func (e *event) comment(gc githubClient) func(body string) error] *)
Definition comment {R} (e : event.t) (body : string) : M W R (option error) :=
  gc_CreateComment (event.org e) (event.repo e) (event.number e)
    (FormatResponseRaw (event.body e) (event.htmlUrl e) (event.login e) body).

(** [formatError] *)
Definition formatError (action endpoint : string) (bugId : Z) (err : option error) : string :=
  "An error was encountered " ++ action ++ " for bug " ++ fmt_d bugId ++
  " on the Bugzilla server at " ++ endpoint ++ ":" ++ nl ++
  "> " ++ fmt_v err ++ nl ++
  "Please contact an administrator to resolve this issue, then request a bug refresh with <code>/bugzilla refresh</code>.".

(** The comment of [getBug] when the tracker has no such bug. *)
Definition noBugMessage (bugId : Z) : string :=
  "No Bugzilla bug with ID " ++ fmt_d bugId ++ " exists in the tracker at " ++ Endpoint ++ "." ++ nl ++
  "Once a valid bug is referenced in the title of this pull request, request a bug refresh with <code>/bugzilla refresh</code>.".

(** [getBug]; the logger is left out. *)
Definition getBug {R} (bugId : Z) (comment : string -> M W R (option error))
  : M W R (option Bug.t * option error) :=
  '(bug, err) <- bc_GetBug bugId ;;
  if isSome err && negb (IsNotFound err) then
    r <- comment (formatError "searching" Endpoint bugId err) ;;
    ret (None, r)
  else if IsNotFound err || isNone bug then
    r <- comment (noBugMessage bugId) ;;
    ret (None, r)
  else ret (bug, None).

(** [processQuery], on the logins of [query.Search.Edges]. *)
Definition processQuery (edges : list string) (email : string) : string :=
  match edges with
  | [] =>
      "No GitHub users were found matching the public email listed for the QA contact in Bugzilla (" ++
      email ++ "), skipping assignment."
  | [login] =>
      "Assigning the QA contact for review:" ++ nl ++ "/assign @" ++ login
  | _ =>
      fold_left (fun response login => response ++ nl ++ tab ++ "- " ++ login) edges
        ("Multiple GitHub users were found matching the public email listed for the QA contact in Bugzilla (" ++
         email ++ "), skipping assignment. List of users with matching email:")
  end.

(** [handle], lines 414-423: the loop that fetches the dependents. *)
Fixpoint fetchDependents (e : event.t) (ids : list Z) (dependents : list Bug.t)
  : M W (option error) (list Bug.t) :=
  match ids with
  | [] => ret dependents
  | id :: ids' =>
      '(dependent, err) <- bc_GetBug id ;;
      if isSome err then
        r <- comment e (formatError ("searching for dependent bug " ++ fmt_d id)
                                    Endpoint (event.bugId e) err) ;;
        return_ r
      else
        match dependent with
        | None => panic
        | Some d => fetchDependents e ids' (dependents ++ [d])%list
        end
  end.

(** The two notes of [handle] that replace the directory query. *)
Definition noQAContactNote (e : event.t) : string :=
  bugLink (event.bugId e) Endpoint ++ " does not have a QA contact, skipping assignment".

Definition noQAEmailNote (e : event.t) : string :=
  "QA contact for " ++ bugLink (event.bugId e) Endpoint ++
  " does not have a listed email, skipping assignment".

(** [handle], lines 460-479: the QA contact. *)
Definition assignQA (e : event.t) (bug : Bug.t) (response : string)
  : M W (option error) string :=
  if event.assign e then
    match Bug.QAContactDetail bug with
    | None => ret (response ++ noQAContactNote e)
    | Some detail =>
        if String.eqb (BugUser.Email detail) EmptyString then
          ret (response ++ noQAEmailNote e)
        else
          let email := BugUser.Email detail in
          '(edges, err) <- gc_Query email ;;
          if isSome err then
            r <- comment e (formatError ("querying GitHub for users with public email (" ++
                                         email ++ ")") Endpoint (event.bugId e) err) ;;
            return_ r
          else ret (response ++ nl ++ nl ++ processQuery edges email)
    end
  else ret response.

(** [handle], lines 449-458: the list of the validations that were run. *)
Definition validationDetails (validationsRun : list string) : string :=
  nl ++ nl ++ "<details>" ++
  match validationsRun with
  | [] => "<summary>No validations were run on this bug</summary>"
  | _ => "<summary>" ++ fmt_d (Z.of_nat (List.length validationsRun)) ++
         " validation(s) were run on this bug</summary>" ++ nl
  end ++
  fold_left (fun response validation => response ++ nl ++ "* " ++ validation)
            validationsRun EmptyString ++
  "</details>".

(** [handle], lines 428-479: the branch of a valid bug, up to its response. *)
Definition validBranch (e : event.t) (options : BugzillaBranchOptions.t) (bug : Bug.t)
           (validationsRun : list string) : M W (option error) string :=
  let response :=
    "This pull request references " ++ bugLink (event.bugId e) Endpoint ++ ", which is valid." in
  response <-
    match AsBugUpdate (BugzillaBranchOptions.StateAfterValidation options) (Some bug) with
    | Some update =>
        err <- bc_UpdateBug (event.bugId e) update ;;
        if isSome err then
          r <- comment e (formatError
                 ("updating to the " ++
                  fmt_s_state (BugzillaBranchOptions.StateAfterValidation options) ++ " state")
                 Endpoint (event.bugId e) err) ;;
          return_ r
        else
          ret (response ++ " The bug has been moved to the " ++
               fmt_s_state (BugzillaBranchOptions.StateAfterValidation options) ++ " state.")
    | None => ret response
    end ;;
  response <-
    match BugzillaBranchOptions.AddExternalLink options with
    | Some true =>
        '(changed, err) <- bc_AddPullRequestAsExternalBug (event.bugId e) (event.org e)
                             (event.repo e) (event.number e) ;;
        if isSome err then
          r <- comment e (formatError "adding this pull request to the external tracker bugs"
                                      Endpoint (event.bugId e) err) ;;
          return_ r
        else if (changed : bool) then
          ret (response ++
               " The bug has been updated to refer to the pull request using the external bug tracker.")
        else ret response
    | _ => ret response
    end ;;
  assignQA e bug (response ++ validationDetails validationsRun).

(** [handle], lines 481-488: the response for an invalid bug. *)
Definition invalidResponse (e : event.t) (why : list string) : string :=
  let formattedReasons :=
    fold_left (fun acc reason => acc ++ " - " ++ reason ++ nl) why EmptyString in
  "This pull request references " ++ bugLink (event.bugId e) Endpoint ++
  ", which is invalid:" ++ nl ++ formattedReasons ++ nl ++
  "Comment <code>/bugzilla refresh</code> to re-evaluate validity if changes to the Bugzilla bug are made, or edit the title of this pull request to link to a different bug.".

Definition missingResponse : string :=
  "No Bugzilla bug is referenced in the title of this pull request." ++ nl ++
  "To reference a bug, add 'Bug XXX:' to the title of this pull request and request another bug refresh with <code>/bugzilla refresh</code>.".

(** [handle], lines 499-507: is a label of this name among the current
    ones? *)
Definition hasLabel (name : string) (currentLabels : list Label.t) : bool :=
  existsb (fun l => String.eqb (Label.Name l) name) currentLabels.

(** [handle], lines 509-517 and 519-527: one label kind. The errors of the
    two calls are logged and dropped. *)
Definition syncLabel {R} (e : event.t) (label : string) (needs has : bool) : M W R unit :=
  if needs && negb has then
    gc_AddLabel (event.org e) (event.repo e) (event.number e) label ;;; ret tt
  else if negb needs && has then
    gc_RemoveLabel (event.org e) (event.repo e) (event.number e) label ;;; ret tt
  else ret tt.

(** [handle], lines 492-527: the labels. The error of [GetIssueLabels] is
    logged and the labels it returned are used as they are. *)
Definition reconcileLabels {R} (e : event.t) (needsValidLabel needsInvalidLabel : bool)
  : M W R unit :=
  '(currentLabels, _) <- gc_GetIssueLabels (event.org e) (event.repo e) (event.number e) ;;
  let hasValidLabel := hasLabel ValidBug currentLabels in
  let hasInvalidLabel := hasLabel InvalidBug currentLabels in
  syncLabel e ValidBug needsValidLabel hasValidLabel ;;;
  syncLabel e InvalidBug needsInvalidLabel hasInvalidLabel.

(* ----------------------------------------------------------------- *)
(** ** The merge tracker *)

(** [unmergedPrStates[item] = state] on a Go map, kept as the list of its
    entries. The loop of [handleMerge] leaves at its first unmerged pull
    request, so that the map never holds more than one entry and the
    order in which Go ranges over it does not show. *)
Fixpoint mapAssign (item : ExternalBug.t) (state : string)
         (m : list (ExternalBug.t * string)) : list (ExternalBug.t * string) :=
  match m with
  | [] => [(item, state)]
  | (k, v) :: m' =>
      if ExternalBug.eqb k item then (k, state) :: m'
      else (k, v) :: mapAssign item state m'
  end.

(** [handleMerge], lines 696-724: the loop over the linked pull requests;
    [ret] after the last one or at [break]. *)
Fixpoint checkPRs (e : event.t) (prs : list ExternalBug.t) (shouldMigrate : bool)
         (mergedPRs : list ExternalBug.t) (unmergedPrStates : list (ExternalBug.t * string))
  : M W (option error) (bool * list ExternalBug.t * list (ExternalBug.t * string)) :=
  match prs with
  | [] => ret (shouldMigrate, mergedPRs, unmergedPrStates)
  | item :: prs' =>
      '(merged, state) <-
        (if String.eqb (event.org e) (ExternalBug.Org item) &&
            String.eqb (event.repo e) (ExternalBug.Repo item) &&
            (event.number e =? ExternalBug.Num item)
         then ret (event.merged e, event.state e)
         else
           '(pr, err) <- gc_GetPullRequest (ExternalBug.Org item) (ExternalBug.Repo item)
                                           (ExternalBug.Num item) ;;
           if isSome err then
             r <- comment e (formatError
                    ("checking the state of a related pull request at https://github.com/" ++
                     ExternalBug.Org item ++ "/" ++ ExternalBug.Repo item ++ "/pull/" ++
                     fmt_d (ExternalBug.Num item))
                    Endpoint (event.bugId e) err) ;;
             return_ r
           else
             match pr with
             | None => panic
             | Some pr => ret (PullRequest.Merged pr, PullRequest.State pr)
             end) ;;
      let mergedPRs := if (merged : bool) then (mergedPRs ++ [item])%list else mergedPRs in
      let unmergedPrStates :=
        if merged then unmergedPrStates else mapAssign item state unmergedPrStates in
      let shouldMigrate := shouldMigrate && merged in
      if negb shouldMigrate then ret (shouldMigrate, mergedPRs, unmergedPrStates)
      else checkPRs e prs' shouldMigrate mergedPRs unmergedPrStates
  end.

(** [link] of [handleMerge] *)
Definition link (bug : ExternalBug.t) : string :=
  "[" ++ ExternalBug.Org bug ++ "/" ++ ExternalBug.Repo bug ++ "#" ++ fmt_d (ExternalBug.Num bug) ++
  "](https://github.com/" ++ ExternalBug.Org bug ++ "/" ++ ExternalBug.Repo bug ++ "/pull/" ++
  fmt_d (ExternalBug.Num bug) ++ ")".

(** [mergedMessage] of [handleMerge] *)
Definition mergedMessage (mergedPRs : list ExternalBug.t) (statement : string) : string :=
  statement ++ " pull requests linked via external trackers have merged: " ++
  Join (map link mergedPRs) ", " ++ ".".

(** [unmergedMessage] of [handleMerge] *)
Definition unmergedMessage (unmergedPrStates : list (ExternalBug.t * string)) : string :=
  let statements :=
    map (fun entry => nl ++ " * " ++ link (fst entry) ++ " is " ++ snd entry) unmergedPrStates in
  "The following pull requests linked via external trackers have not merged:" ++
  Join statements nl.

(** [outcomeMessage] of [handleMerge] *)
Definition outcomeMessage (e : event.t) (options : BugzillaBranchOptions.t) (action : string)
  : string :=
  bugLink (event.bugId e) Endpoint ++ " has " ++ action ++ "been moved to the " ++
  fmt_s_state (BugzillaBranchOptions.StateAfterMerge options) ++ " state.".

(** [handleMerge], lines 675-682: the states a bug may be in before it is
    moved. *)
Definition allowedStates (options : BugzillaBranchOptions.t) : list BugzillaBugState.t :=
  (match BugzillaBranchOptions.ValidStates options with
   | Some validStates => validStates
   | None => []
   end ++
   match BugzillaBranchOptions.StateAfterValidation options with
   | Some s => [s]
   | None => []
   end)%list.

(** [handleMerge]; the logger is left out. *)
Definition handleMerge {R} (e : event.t) (options : BugzillaBranchOptions.t)
  : M W R (option error) :=
  func (
    (if isNone (BugzillaBranchOptions.StateAfterMerge options) then return_ None else ret tt) ;;;
    (if event.missing e then return_ None else ret tt) ;;;
    (if isSome (BugzillaBranchOptions.ValidStates options) ||
        isSome (BugzillaBranchOptions.StateAfterValidation options)
     then
       '(bug, err) <- getBug (event.bugId e) (comment e) ;;
       match err, bug with
       | None, Some bug =>
           if negb (bugMatchesStates bug (allowedStates options)) then
             r <- comment e (bugLink (event.bugId e) Endpoint ++
                             " is in an unrecognized state (" ++
                             PrettyStatus (Bug.Status bug) (Bug.Resolution bug) ++
                             ") and will not be moved to the " ++
                             fmt_s_state (BugzillaBranchOptions.StateAfterMerge options) ++
                             " state.") ;;
             return_ r
           else ret tt
       | _, _ => return_ err
       end
     else ret tt) ;;;
    '(prs, err) <- bc_GetExternalBugPRsOnBug (event.bugId e) ;;
    (if isSome err then
       r <- comment e (formatError "searching for external tracker bugs"
                                   Endpoint (event.bugId e) err) ;;
       return_ r
     else ret tt) ;;;
    '(shouldMigrate, mergedPRs, unmergedPrStates) <- checkPRs e prs true [] [] ;;
    match AsBugUpdate (BugzillaBranchOptions.StateAfterMerge options) None with
    | None => return_ None
    | Some update =>
        if (shouldMigrate : bool) then
          err <- bc_UpdateBug (event.bugId e) update ;;
          if isSome err then
            r <- comment e (formatError
                   ("updating to the " ++
                    fmt_s_state (BugzillaBranchOptions.StateAfterMerge options) ++ " state")
                   Endpoint (event.bugId e) err) ;;
            return_ r
          else
            r <- comment e (mergedMessage mergedPRs "All" ++ " " ++
                            outcomeMessage e options EmptyString) ;;
            return_ r
        else
          r <- comment e (mergedMessage mergedPRs "Some" ++ " " ++
                          unmergedMessage unmergedPrStates ++ nl ++
                          outcomeMessage e options EmptyString) ;;
          return_ r
    end).

(* ----------------------------------------------------------------- *)
(** ** The handler *)

(** [handle], lines 400-490: the validation, up to the labels that the
    pull request needs and the response. *)
Definition validate (e : event.t) (options : BugzillaBranchOptions.t)
  : M W (option error) (bool * bool * string) :=
  if event.missing e then ret (false, false, missingResponse)
  else
    '(bug, err) <- getBug (event.bugId e) (comment e) ;;
    match err, bug with
    | None, Some bug =>
        dependents <-
          (if isSome (BugzillaBranchOptions.DependentBugStates options) ||
              isSome (BugzillaBranchOptions.DependentBugTargetRelease options)
           then fetchDependents e (Bug.DependsOn bug) []
           else ret []) ;;
        let '(valid, validationsRun, why) := validateBug bug dependents options Endpoint in
        if (valid : bool) then
          response <- validBranch e options bug validationsRun ;;
          ret (valid, negb valid, response)
        else ret (valid, negb valid, invalidResponse e why)
    | _, _ => return_ err
    end.

(** [handle]; the logger is left out. *)
Definition handle {R} (e : event.t) (options : BugzillaBranchOptions.t)
  : M W R (option error) :=
  func (
    (if event.merged e then r <- handleMerge e options ;; return_ r else ret tt) ;;;
    '(needsValidLabel, needsInvalidLabel, response) <- validate e options ;;
    reconcileLabels e needsValidLabel needsInvalidLabel ;;;
    r <- comment e response ;;
    return_ r).

End Handlers.

(* ----------------------------------------------------------------- *)
(** ** The entry points *)

Section EntryPoints.
Context {ext : Externals} {W : Type} {gc : githubClient W} {bc : bugzillaClient W}.

(** The reply of [digestComment] to a command on an issue. *)
Definition onlyPullRequests : string :=
  "Bugzilla bug referencing is only supported for Pull Requests, not issues.".

(** [digestComment]; the logger is left out. *)
Definition digestComment {R} (gce : GenericCommentEvent.t)
  : M W R (option event.t * option error) :=
  func (
    (match GenericCommentEvent.Action gce with
     | GenericCommentActionCreated => ret tt
     | GenericCommentActionOther _ => return_ (None, None)
     end) ;;;
    assign <-
      (if refreshCommandMatch_MatchString (GenericCommentEvent.Body gce) then ret false
       else if qaCommandMatch_MatchString (GenericCommentEvent.Body gce) then ret true
       else return_ (None, None)) ;;
    let org := GenericCommentEvent.Repo_Owner_Login gce in
    let repo := GenericCommentEvent.Repo_Name gce in
    let number := GenericCommentEvent.Number gce in
    (if negb (GenericCommentEvent.IsPR gce) then
       r <- gc_CreateComment org repo number
              (FormatResponseRaw (GenericCommentEvent.Body gce) (GenericCommentEvent.HTMLURL gce)
                                 (GenericCommentEvent.User_Login gce) onlyPullRequests) ;;
       return_ (None, r)
     else ret tt) ;;;
    '(pr, err) <- gc_GetPullRequest org repo number ;;
    (if isSome err then return_ (None, err) else ret tt) ;;;
    match pr with
    | None => panic
    | Some pr =>
        let e := event.mk org repo (PullRequest.Base_Ref pr) number 0 false
                   (PullRequest.Merged pr) (PullRequest.State pr)
                   (GenericCommentEvent.Body gce) (GenericCommentEvent.HTMLURL gce)
                   (GenericCommentEvent.User_Login gce) assign in
        match titleMatch_FindStringSubmatch (PullRequest.Title pr) with
        | None => return_ (Some (event.set_missing true e), None)
        | Some mat1 =>
            match Atoi mat1 with
            | (_, Some err) => return_ (None, Some (numError mat1 err))
            | (id, None) => return_ (Some (event.set_bugId id e), None)
            end
        end
    end).

(** [handleGenericComment]. Of the agent [pc] it uses the two clients and
    [pc.PluginConfig.Bugzilla.OptionsForBranch], a method of the package
    [plugins], which is the argument [OptionsForBranch]. *)
Definition handleGenericComment {R}
           (OptionsForBranch : string -> string -> string -> BugzillaBranchOptions.t)
           (e : GenericCommentEvent.t) : M W R (option error) :=
  func (
    '(event, err) <- digestComment e ;;
    (if isSome err then return_ err else ret tt) ;;;
    match event with
    | Some event =>
        let options := OptionsForBranch (event.org event) (event.repo event)
                                        (event.baseRef event) in
        r <- handle event options ;;
        return_ r
    | None => return_ None
    end).

(** [handlePullRequest] *)
Definition handlePullRequest {R}
           (OptionsForBranch : string -> string -> string -> BugzillaBranchOptions.t)
           (pre : PullRequestEvent.t) : M W R (option error) :=
  func (
    let pr := PullRequestEvent.PullRequest pre in
    let options := OptionsForBranch (PullRequest.Base_Repo_Owner_Login pr)
                                    (PullRequest.Base_Repo_Name pr)
                                    (PullRequest.Base_Ref pr) in
    let '(event, err) := digestPR pre (BugzillaBranchOptions.ValidateByDefault options) in
    (if isSome err then return_ err else ret tt) ;;;
    match event with
    | Some event =>
        r <- handle event options ;;
        return_ r
    | None => return_ None
    end).

End EntryPoints.

(* ----------------------------------------------------------------- *)
(** ** The help *)

Section Help.
Context {ext : Externals}.

(** [plugins.BugzillaOptionsWildcard], the name under which the
    configuration keeps the options of the branches that it does not
    name. *)
Variable BugzillaOptionsWildcard : string.

(** [helpProvider], lines 79-103: the conditions on a valid bug. *)
Definition conditionsOf (o : BugzillaBranchOptions.t) : list string :=
  (match BugzillaBranchOptions.IsOpen o with
   | Some true => ["be open"]
   | Some false => ["be closed"]
   | None => []
   end ++
   match BugzillaBranchOptions.TargetRelease o with
   | Some release => [("target the " ++ fmt_q release ++ " release")%string]
   | None => []
   end ++
   match BugzillaBranchOptions.ValidStates o with
   | Some ((_ :: _) as states) =>
       [("be in one of the following states: " ++ Join (prettyStates states) ", ")%string]
   | _ => []
   end ++
   (if isSome (BugzillaBranchOptions.DependentBugStates o) ||
       isSome (BugzillaBranchOptions.DependentBugTargetRelease o)
    then ["depend on at least one other bug"] else []) ++
   match BugzillaBranchOptions.DependentBugStates o with
   | Some states =>
       [("have all dependent bugs in one of the following states: " ++
         Join (prettyStates states) ", ")%string]
   | None => []
   end ++
   match BugzillaBranchOptions.DependentBugTargetRelease o with
   | Some release => [("have all dependent bugs target the " ++ fmt_q release ++ " release")%string]
   | None => []
   end)%list.

(** [helpProvider], lines 115-124: what happens to a bug that is linked. *)
Definition updatesOf (o : BugzillaBranchOptions.t) : list string :=
  (match BugzillaBranchOptions.StateAfterValidation o with
   | Some _ =>
       [("moved to the " ++ fmt_s_state (BugzillaBranchOptions.StateAfterValidation o) ++
         " state")%string]
   | None => []
   end ++
   match BugzillaBranchOptions.AddExternalLink o with
   | Some true => ["updated to refer to the pull request using the external bug tracker"]
   | _ => []
   end ++
   match BugzillaBranchOptions.StateAfterMerge o with
   | Some _ =>
       [("moved to the " ++ fmt_s_state (BugzillaBranchOptions.StateAfterMerge o) ++
         " state when all linked pull requests are merged")%string]
   | None => []
   end)%list.

(** [helpProvider], the two switches of lines 104-114 and 129-138 on a
    list that is not empty: one item, two items joined by "and", or all of
    them joined by commas with "and" before the last. *)
Definition phrase (items : list string) : string :=
  match items with
  | [] => EmptyString
  | [item] => item
  | [first; second] => first ++ " and " ++ second
  | _ => Join (removelast items ++ [("and " ++ last items EmptyString)%string])%list ", "
  end.

(** [helpProvider], lines 72-139: the item of a branch. *)
Definition branchMessage (branch : string) (o : BugzillaBranchOptions.t) : string :=
  (if String.eqb branch BugzillaOptionsWildcard then "by default, "
   else "on the " ++ fmt_q branch ++ " branch, ") ++
  "valid bugs must " ++
  match conditionsOf o with
  | [] => "exist"
  | conditions => phrase conditions
  end ++
  match updatesOf o with
  | [] => EmptyString
  | updates => ". After being linked to a pull request, bugs will be " ++ phrase updates
  end.

(** The zero value of [plugins.BugzillaBranchOptions]. *)
Definition zeroOptions : BugzillaBranchOptions.t :=
  BugzillaBranchOptions.mk None None None None None None None None None.

(** [opts[branch]], on a Go map kept as the list of its entries: the
    options of the entry with this key, the zero value without one. *)
Definition optionsAt (opts : list (string * BugzillaBranchOptions.t)) (branch : string)
  : BugzillaBranchOptions.t :=
  match find (fun entry => String.eqb (fst entry) branch) opts with
  | Some entry => snd entry
  | None => zeroOptions
  end.

(** [sort.Strings]: the strings in increasing order, which for Go's [<]
    on strings is the order of their bytes. Strings that compare equal
    are the same string, so that the result does not depend on the
    algorithm; it is written here as an insertion sort. *)
Fixpoint insertString (x : string) (l : list string) : list string :=
  match l with
  | [] => [x]
  | y :: l' => if String.leb x y then x :: l else y :: insertString x l'
  end.

Definition sortStrings (l : list string) : list string := fold_right insertString [] l.

(** [helpProvider], lines 63-143: the help of a repository whose map of
    options is not empty. [opts] is the list of the entries of the map,
    in the order in which [range] yields them. *)
Definition repoConfigInfo (opts : list (string * BugzillaBranchOptions.t)) : string :=
  let branches := sortStrings (map fst opts) in
  Join (["The plugin has the following configuration:<ul>"] ++
        map (fun branch =>
               ("<li>" ++ branchMessage branch (optionsAt opts branch) ++ ".</li>")%string)
            branches ++
        ["</ul>"])%list nl.

End Help.

(* ----------------------------------------------------------------- *)
(** ** Vocabulary of the statements *)

(** Every character of [s] is in the class [p]. *)
Fixpoint allChars (p : ascii -> bool) (s : string) : bool :=
  match s with
  | EmptyString => true
  | String c s' => p c && allChars p s'
  end.

(** [s] starts with a bug reference whose digits are [ds]: the letters of
    "Bug" in either case, a space, the digits [ds] (at least one) and a
    colon. *)
Definition BugRef (ds : string) (s : string) : Prop :=
  exists b u g rest,
    s = String b (String u (String g (String " " (ds ++ String ":" rest)))) /\
    (b = "b" \/ b = "B")%char /\ (u = "u" \/ u = "U")%char /\ (g = "g" \/ g = "G")%char /\
    allChars isDigit ds = true /\ ds <> EmptyString.

(** The first bug reference on the first line of [title] has the digits
    [ds]: it comes after a prefix [p] without a line feed, and no bug
    reference starts before it. *)
Definition FirstBugRef (ds : string) (title : string) : Prop :=
  exists p suf,
    title = p ++ suf /\ allChars anyButNewline p = true /\ BugRef ds suf /\
    forall p' suf' ds',
      title = p' ++ suf' -> (String.length p' < String.length p)%nat -> ~ BugRef ds' suf'.

(** There is no bug reference on the first line of [title]. *)
Definition NoBugRef (title : string) : Prop :=
  forall p suf ds,
    title = p ++ suf -> allChars anyButNewline p = true -> ~ BugRef ds suf.

(** The pattern of the specification, "anchored at the title start":
    [titleMatch] without its [.*?]. *)
Definition anchoredTitleMatch (title : string) : option string :=
  reChar (ci "b" "B")
    (reChar (ci "u" "U")
    (reChar (ci "g" "G")
    (reChar (lit " ")
    (reGreedyPlusCap isDigit (fun cap =>
     reChar (lit ":") (fun _ => Some cap))))))
    title.

(** The bug id that a title references, as lines 219-232 and 252-262 of
    [digestPR] find it: the match and its conversion. *)
Definition titleBugId (title : string) : option Z :=
  match titleMatch_FindStringSubmatch title with
  | Some mat1 =>
      match Atoi mat1 with
      | (id, None) => Some id
      | (_, Some _) => None
      end
  | None => None
  end.

(** [sub] occurs in [s]. *)
Definition occursIn (sub s : string) : Prop := exists before after, s = before ++ sub ++ after.

(* ----------------------------------------------------------------- *)
(** ** Vocabulary of the statements about the handlers *)

Section Vocabulary.
Context {ext : Externals} {W : Type} {gc : githubClient W} {bc : bugzillaClient W}.

(** The end of [titleMatch]: the colon after the digits [cap]. *)
Definition afterColon (cap : string) : string -> option string :=
  reChar (lit ":") (fun _ => Some cap).

(** What follows the [.*?] of [titleMatch]. *)
Definition bugHere : string -> option string :=
  reChar (ci "b" "B")
    (reChar (ci "u" "U")
    (reChar (ci "g" "G")
    (reChar (lit " ")
    (reGreedyPlusCap isDigit afterColon)))).

(** A Policy without constraints: none of the five requirements that
    [validateBug] reads is configured. *)
Definition noConstraints (options : BugzillaBranchOptions.t) : Prop :=
  BugzillaBranchOptions.IsOpen options = None /\
  BugzillaBranchOptions.TargetRelease options = None /\
  BugzillaBranchOptions.ValidStates options = None /\
  BugzillaBranchOptions.DependentBugStates options = None /\
  BugzillaBranchOptions.DependentBugTargetRelease options = None.

(** The flag is up exactly when no error was recorded. *)
Definition consistent (v : verdict) : Prop :=
  fst (fst v) = true <-> snd v = [].

(** The error of [validateBug] for a bug without dependents, by the
    requirements on dependents that are configured. *)
Definition noDependentsError (bug : Bug.t) (endpoint : string)
           (states : option (list BugzillaBugState.t)) (release : option string) : string :=
  "expected " ++ bugLink (Bug.ID bug) endpoint ++ " to depend on a bug " ++
  match states, release with
  | Some states, Some release =>
      "targeting the " ++ fmt_q release ++ " release and in one of the following states: " ++
      Join (prettyStates states) ", "
  | Some states, None =>
      "in one of the following states: " ++ Join (prettyStates states) ", "
  | None, Some release => "targeting the " ++ fmt_q release ++ " release"
  | None, None => EmptyString
  end ++ ", but no dependents were found".

(** The kinds of calls that the statements count. *)
Definition isAddOf (label : string) (c : Call) : bool :=
  match c with
  | AddLabelCall _ _ _ l _ => String.eqb l label
  | _ => false
  end.

Definition isRemoveOf (label : string) (c : Call) : bool :=
  match c with
  | RemoveLabelCall _ _ _ l _ => String.eqb l label
  | _ => false
  end.

Definition isLabelWrite (c : Call) : bool :=
  match c with
  | AddLabelCall _ _ _ _ _ | RemoveLabelCall _ _ _ _ _ => true
  | _ => false
  end.

(** The number of the calls of [calls] that satisfy [p]. *)
Definition count (p : Call -> bool) (calls : list Call) : nat := List.length (filter p calls).

(** Is the label on the pull request, as [handle] finds out: by a call to
    [GetIssueLabels] and a search for the name. *)
Definition present (org repo : string) (number : Z) (label : string) (w : W) : bool :=
  hasLabel label (fst (snd (GetIssueLabels org repo number w))).

(** Modelled from the spec: the review host keeps the labels of a pull
    request as a set behind "idempotent create/delete operations": reading
    the labels changes none, adding a label makes it present, removing it
    makes it absent, and neither touches another label. What the calls
    return is not constrained. *)
Definition labelStore (org repo : string) (number : Z) : Prop :=
  (forall w l,
      present org repo number l (fst (GetIssueLabels org repo number w)) =
      present org repo number l w) /\
  (forall w l l',
      present org repo number l' (fst (AddLabel org repo number l w)) =
      if String.eqb l' l then true else present org repo number l' w) /\
  (forall w l l',
      present org repo number l' (fst (RemoveLabel org repo number l w)) =
      if String.eqb l' l then false else present org repo number l' w).

Definition isUpdateBug (c : Call) : bool :=
  match c with UpdateBugCall _ _ _ => true | _ => false end.

Definition isCreateComment (c : Call) : bool :=
  match c with CreateCommentCall _ _ _ _ _ => true | _ => false end.

Definition isQuery (c : Call) : bool :=
  match c with QueryCall _ _ => true | _ => false end.

(** The calls that only read: a bug, the links of a bug, a pull request. *)
Definition isRead (c : Call) : bool :=
  match c with
  | GetBugCall _ _ | GetExternalBugPRsOnBugCall _ _ | GetPullRequestCall _ _ _ _ => true
  | _ => false
  end.

(** [m], started in [w], ends in [w'] after the calls [t] with the result
    [r]. *)
Definition runs {R A} (m : M W R A) (w w' : W) (t : list Call) (r : res R A) : Prop :=
  m w = (w', t, r).

(** The test of [handleMerge] for the pull request of the event. *)
Definition isSelf (e : event.t) (item : ExternalBug.t) : bool :=
  String.eqb (event.org e) (ExternalBug.Org item) &&
  String.eqb (event.repo e) (ExternalBug.Repo item) &&
  (event.number e =? ExternalBug.Num item).

(** A linked pull request has merged, as [handleMerge] learns it: the pull
    request of the event by the flag of the event, another one by
    fetching it, whenever that is done. *)
Definition hasMerged (e : event.t) (item : ExternalBug.t) : Prop :=
  if isSelf e item then event.merged e = true
  else forall w, exists pr,
      snd (GetPullRequest (ExternalBug.Org item) (ExternalBug.Repo item)
                          (ExternalBug.Num item) w) = (Some pr, None) /\
      PullRequest.Merged pr = true.

(** A linked pull request has not merged, as [handleMerge] learns it. *)
Definition hasNotMerged (e : event.t) (item : ExternalBug.t) : Prop :=
  if isSelf e item then event.merged e = false
  else forall w, exists pr,
      snd (GetPullRequest (ExternalBug.Org item) (ExternalBug.Repo item)
                          (ExternalBug.Num item) w) = (Some pr, None) /\
      PullRequest.Merged pr = false.

(** The bug passes the guard of [handleMerge] on its state, when the
    Policy configures one. *)
Definition passesGuard (e : event.t) (options : BugzillaBranchOptions.t) (w : W) : Prop :=
  (BugzillaBranchOptions.ValidStates options = None /\
   BugzillaBranchOptions.StateAfterValidation options = None) \/
  exists bug, snd (GetBug (event.bugId e) w) = (Some bug, None) /\
              bugMatchesStates bug (allowedStates options) = true.


(** The statements of [handleMerge], named: lines 665-686, the guard on
    the state of the bug. *)
Definition mergeGuard (e : event.t) (options : BugzillaBranchOptions.t)
  : M W (option error) unit :=
  if isSome (BugzillaBranchOptions.ValidStates options) ||
     isSome (BugzillaBranchOptions.StateAfterValidation options)
  then
    '(bug, err) <- getBug (event.bugId e) (comment e) ;;
    match err, bug with
    | None, Some bug =>
        if negb (bugMatchesStates bug (allowedStates options)) then
          r <- comment e (bugLink (event.bugId e) Endpoint ++
                          " is in an unrecognized state (" ++
                          PrettyStatus (Bug.Status bug) (Bug.Resolution bug) ++
                          ") and will not be moved to the " ++
                          fmt_s_state (BugzillaBranchOptions.StateAfterMerge options) ++
                          " state.") ;;
          return_ r
        else ret tt
    | _, _ => return_ err
    end
  else ret tt.

(** [handleMerge], lines 748-761: the update and the comment. *)
Definition mergeOutcome (e : event.t) (options : BugzillaBranchOptions.t)
           (checked : bool * list ExternalBug.t * list (ExternalBug.t * string))
  : M W (option error) (option error) :=
  let '(shouldMigrate, mergedPRs, unmergedPrStates) := checked in
  match AsBugUpdate (BugzillaBranchOptions.StateAfterMerge options) None with
  | None => return_ None
  | Some update =>
      if (shouldMigrate : bool) then
        err <- bc_UpdateBug (event.bugId e) update ;;
        if isSome err then
          r <- comment e (formatError
                 ("updating to the " ++
                  fmt_s_state (BugzillaBranchOptions.StateAfterMerge options) ++ " state")
                 Endpoint (event.bugId e) err) ;;
          return_ r
        else
          r <- comment e (mergedMessage mergedPRs "All" ++ " " ++
                          outcomeMessage e options EmptyString) ;;
          return_ r
      else
        r <- comment e (mergedMessage mergedPRs "Some" ++ " " ++
                        unmergedMessage unmergedPrStates ++ nl ++
                        outcomeMessage e options EmptyString) ;;
        return_ r
  end.

(** [handleMerge], lines 688-761: from the list of the links on. *)
Definition mergeLinks (e : event.t) (options : BugzillaBranchOptions.t)
  : M W (option error) (option error) :=
  '(prs, err) <- bc_GetExternalBugPRsOnBug (event.bugId e) ;;
  (if isSome err then
     r <- comment e (formatError "searching for external tracker bugs"
                                 Endpoint (event.bugId e) err) ;;
     return_ r
   else ret tt) ;;;
  checked <- checkPRs e prs true [] [] ;;
  mergeOutcome e options checked.

(** The error of a call that fetches a bug or updates one, if it
    failed. *)
Definition trackerFailure (c : Call) : option error :=
  match c with
  | GetBugCall _ (_, Some err) => Some err
  | UpdateBugCall _ _ (Some err) => Some err
  | _ => None
  end.

(** No call of [t] is a failed fetch or update of a bug. *)
Definition clean (t : list Call) : Prop := Forall (fun c => trackerFailure c = None) t.

(** The comment of a handler on the failure [err] of an action on the bug
    of the event: the action, the bug, the tracker and the error, then the
    request to retry. *)
Definition errorComment (e : event.t) (action : string) (err : error) : string :=
  "An error was encountered " ++ action ++ " for bug " ++ fmt_d (event.bugId e) ++
  " on the Bugzilla server at " ++ Endpoint ++ ":" ++ nl ++
  "> " ++ Error err ++ nl ++
  "Please contact an administrator to resolve this issue, then request a bug refresh with <code>/bugzilla refresh</code>.".

(** The comment [response] reports the failure [err] of the call [c],
    which was made after the calls [before], in the run of a handler that
    moves the bug of the event to the state [after].  The first fetch is
    the one of the bug of the event: its comment says that no such bug
    exists when the error is a not-found error, and is the error comment
    of the search otherwise.  A later fetch is the one of a dependent: its
    comment is the error comment of the search for this dependent.  The
    comment on an update of the bug of the event is the error comment of
    the move to [after]. *)
Definition describes (e : event.t) (after : option BugzillaBugState.t) (before : list Call)
           (c : Call) (err : error) (response : string) : Prop :=
  match c with
  | GetBugCall id _ =>
      match before with
      | [] =>
          id = event.bugId e /\
          response =
          if isNotFound err then
            "No Bugzilla bug with ID " ++ fmt_d id ++ " exists in the tracker at " ++
            Endpoint ++ "." ++ nl ++
            "Once a valid bug is referenced in the title of this pull request, request a bug refresh with <code>/bugzilla refresh</code>."
          else errorComment e "searching" err
      | _ :: _ =>
          response = errorComment e ("searching for dependent bug " ++ fmt_d id) err
      end
  | UpdateBugCall id _ _ =>
      id = event.bugId e /\
      response = errorComment e ("updating to the " ++ fmt_s_state after ++ " state") err
  | _ => False
  end.

(** The calls [t], made after the calls [p], end with a failed call to
    the tracker and the comment that reports it, which returned [posted];
    nothing failed before. *)
Definition Reported (e : event.t) (after : option BugzillaBugState.t) (p t : list Call)
           (posted : option error) : Prop :=
  exists pre c err response,
    t = (pre ++
         [c; CreateCommentCall (event.org e) (event.repo e) (event.number e)
               (FormatResponseRaw (event.body e) (event.htmlUrl e) (event.login e) response)
               posted])%list /\
    clean pre /\ trackerFailure c = Some err /\ describes e after (p ++ pre) c err response.

(** A run of statements of a handler, after the calls [p]: the tracker
    did not fail, or the handler reported the failure and returned what
    posting the comment returned. *)
Definition okStmt {A} (e : event.t) (after : option BugzillaBugState.t) (p : list Call)
           (x : W * list Call * res (option error) A) : Prop :=
  clean (callsOf x) \/
  exists posted, Reported e after p (callsOf x) posted /\ resultOf x = Ret posted.

(** The same for a call of a handler. *)
Definition okFn {R} (e : event.t) (after : option BugzillaBugState.t) (p : list Call)
           (x : W * list Call * res R (option error)) : Prop :=
  clean (callsOf x) \/
  exists posted, Reported e after p (callsOf x) posted /\ resultOf x = Val posted.

(** The run [x] with its value, if it has one, changed by [g]. *)
Definition mapVal {R A B} (g : A -> B) (x : W * list Call * res R A)
  : W * list Call * res R B :=
  let '(w, t, r) := x in
  (w, t, match r with
         | Val a => Val (g a)
         | Ret y => Ret y
         | Panic => Panic
         end).

(** No directory query among the calls. *)
Definition quiet (t : list Call) : Prop := forallb (fun c => negb (isQuery c)) t = true.

(** The bug has no QA contact, or a QA contact without an email. *)
Definition noQAEmail (bug : Bug.t) : Prop :=
  match Bug.QAContactDetail bug with
  | None => True
  | Some detail => BugUser.Email detail = EmptyString
  end.

(** The note on a bug without a QA email, in the words of the comment:
    the bug has no QA contact, or its QA contact has no listed email, and
    the assignment is skipped. *)
Definition skipNote (e : event.t) (bug : Bug.t) : string :=
  match Bug.QAContactDetail bug with
  | None =>
      bugLink (event.bugId e) Endpoint ++ " does not have a QA contact, skipping assignment"
  | Some _ =>
      "QA contact for " ++ bugLink (event.bugId e) Endpoint ++
      " does not have a listed email, skipping assignment"
  end.

(** What a note is appended to: the response of a valid verdict. *)
Definition withNote (note : string) (v : bool * bool * string) : bool * bool * string :=
  let '(needsValidLabel, needsInvalidLabel, response) := v in
  (needsValidLabel, needsInvalidLabel,
   if needsValidLabel then response ++ note else response).

End Vocabulary.

(* ----------------------------------------------------------------- *)
(** ** Vocabulary of the further statements *)

(** A character that is not a letter B, in either case. *)
Definition notB (c : ascii) : bool := negb (ci "b" "B" c).

(** [text] is the command, letter for letter, each in one of the forms
    that [(?i)] accepts. *)
Fixpoint Variant (command text : string) : Prop :=
  match command with
  | EmptyString => text = EmptyString
  | String c command' =>
      exists v rest, In v (foldOrbit c) /\ text = v ++ rest /\ Variant command' rest
  end.

(** A line of [body] is the command followed by white space only: the
    command starts the text or follows a line feed, and after the white
    space comes the end of the text or a line feed. (The white space may
    itself contain line feeds.) *)
Definition CommandLine (command body : string) : Prop :=
  exists before text spaces after,
    body = before ++ text ++ spaces ++ after /\
    (before = EmptyString \/ exists b, before = b ++ nl) /\
    Variant command text /\
    allChars isSpace spaces = true /\
    (after = EmptyString \/ exists a, after = nl ++ a).

Section VocabularyValidator.
Context {ext : Externals}.

(** The first target release of the bug is [release]. *)
Definition targets (release : string) (bug : Bug.t) : bool :=
  match Bug.TargetRelease bug with
  | [] => false
  | first :: _ => String.eqb release first
  end.

(** A requirement of a Policy holds when it is configured. *)
Definition whenSet {A} (o : option A) (check : A -> bool) : bool :=
  match o with
  | Some x => check x
  | None => true
  end.

(** The requirements of a Policy on a bug and its dependents, as
    [validateBug] tests them. *)
Definition passes (bug : Bug.t) (dependents : list Bug.t)
           (options : BugzillaBranchOptions.t) : bool :=
  whenSet (BugzillaBranchOptions.IsOpen options)
          (fun isOpen => Bool.eqb isOpen (Bug.IsOpen bug)) &&
  whenSet (BugzillaBranchOptions.TargetRelease options) (fun release => targets release bug) &&
  whenSet (BugzillaBranchOptions.ValidStates options)
          (fun _ => bugMatchesStates bug (allowedStates options)) &&
  whenSet (BugzillaBranchOptions.DependentBugStates options)
          (fun states => forallb (fun d => bugMatchesStates d states) dependents) &&
  whenSet (BugzillaBranchOptions.DependentBugTargetRelease options)
          (fun release => forallb (targets release) dependents) &&
  match dependents with
  | [] => isNone (BugzillaBranchOptions.DependentBugStates options) &&
          isNone (BugzillaBranchOptions.DependentBugTargetRelease options)
  | _ :: _ => true
  end.

(** The number of the checks that a Policy configures for a bug with
    these dependents. *)
Definition checksOf (dependents : list Bug.t) (options : BugzillaBranchOptions.t) : nat :=
  ((if isSome (BugzillaBranchOptions.IsOpen options) then 1 else 0) +
   (if isSome (BugzillaBranchOptions.TargetRelease options) then 1 else 0) +
   (if isSome (BugzillaBranchOptions.ValidStates options) then 1 else 0) +
   (if isSome (BugzillaBranchOptions.DependentBugStates options)
    then List.length dependents else 0) +
   (if isSome (BugzillaBranchOptions.DependentBugTargetRelease options)
    then List.length dependents else 0) +
   match dependents with
   | [] => if isSome (BugzillaBranchOptions.DependentBugStates options) ||
              isSome (BugzillaBranchOptions.DependentBugTargetRelease options)
           then 1 else 0
   | _ :: _ => 1
   end)%nat.

(** The flag of a verdict and the number of its messages. *)
Definition flag (v : verdict) : bool := fst (fst v).

Definition messages (v : verdict) : nat :=
  (List.length (snd (fst v)) + List.length (snd v))%nat.

(** A verdict whose flag is the conjunction [b] of the checks made so
    far, after [n] messages. *)
Definition tally (b : bool) (n : nat) (v : verdict) : Prop := flag v = b /\ messages v = n.

End VocabularyValidator.

Section VocabularyCalls.
Context {ext : Externals} {W : Type} {gc : githubClient W} {bc : bugzillaClient W}.

(** A method of a client as a statement: the call [f], recorded by [mk]
    with what it returned. Every statement [gc_...] and [bc_...] is one. *)
Definition prim {R A} (f : W -> W * A) (mk : A -> Call) : M W R A :=
  fun w => let '(w', r) := f w in (w', [mk r], Val r).

Definition isLinkCreation (c : Call) : bool :=
  match c with AddPullRequestAsExternalBugCall _ _ _ _ _ => true | _ => false end.

Definition isLabelCall (c : Call) : bool :=
  match c with
  | GetIssueLabelsCall _ _ _ _ | AddLabelCall _ _ _ _ _ | RemoveLabelCall _ _ _ _ _ => true
  | _ => false
  end.

(** What only the validation of an open pull request does: the labels,
    the link of the pull request into the tracker, the directory query. *)
Definition isValidationOnly (c : Call) : bool :=
  isLabelCall c || isLinkCreation c || isQuery c.

(** At most [n] calls of the run satisfy [p]. *)
Definition atMost {R A} (p : Call -> bool) (n : nat) (x : W * list Call * res R A) : Prop :=
  (count p (callsOf x) <= n)%nat.

(** The comment [response] on the pull request of the event, which
    returned [posted]. *)
Definition commentCall (e : event.t) (response : string) (posted : option error) : Call :=
  CreateCommentCall (event.org e) (event.repo e) (event.number e)
    (FormatResponseRaw (event.body e) (event.htmlUrl e) (event.login e) response) posted.

(** The calls end with a comment on the pull request of the event, which
    returned [posted], and it is their only comment. *)
Definition endsWithComment (e : event.t) (t : list Call) (posted : option error) : Prop :=
  exists pre response,
    t = (pre ++ [commentCall e response posted])%list /\ count isCreateComment pre = 0%nat.

(** A run of statements of a handler comments only to return what
    posting the comment returned. When [strict] is off, it may also
    return nil without a comment. *)
Definition answered {A} (strict : bool) (e : event.t)
           (x : W * list Call * res (option error) A) : Prop :=
  match resultOf x with
  | Ret r =>
      endsWithComment e (callsOf x) r \/
      (strict = false /\ r = None /\ count isCreateComment (callsOf x) = 0%nat)
  | _ => count isCreateComment (callsOf x) = 0%nat
  end.

(** The run does not fall off the end of the function: it returns or
    panics. *)
Definition leaves {R A} (x : W * list Call * res R A) : Prop :=
  match resultOf x with Val _ => False | _ => True end.

End VocabularyCalls.

Section VocabularyVerdicts.
Context {ext : Externals} {W : Type} {gc : githubClient W} {bc : bugzillaClient W}.

(** The tracker returns the bugs [bugs] for the ids [ids], whenever it is
    asked. *)
Definition fetchable (ids : list Z) (bugs : list Bug.t) : Prop :=
  Forall2 (fun id bug => forall w, snd (GetBug id w) = (Some bug, None)) ids bugs.

(** The dependents that [handle] passes to [validateBug]: the bugs that
    the bug depends on when the Policy has a requirement on them, and
    none otherwise. *)
Definition dependentsOf (options : BugzillaBranchOptions.t) (bug : Bug.t)
           (dependents : list Bug.t) : Prop :=
  if isSome (BugzillaBranchOptions.DependentBugStates options) ||
     isSome (BugzillaBranchOptions.DependentBugTargetRelease options)
  then fetchable (Bug.DependsOn bug) dependents
  else dependents = [].

(** The first sentence of the comment on a valid bug. *)
Definition validSentence (e : event.t) : string :=
  "This pull request references " ++ bugLink (event.bugId e) Endpoint ++ ", which is valid.".

(** [handleMerge] has seen in the calls [t] that the linked pull request
    has merged: it is the pull request of the event, which has, or it was
    fetched and has. *)
Definition seenMerged (e : event.t) (t : list Call) (item : ExternalBug.t) : Prop :=
  (isSelf e item = true /\ event.merged e = true) \/
  (exists pr,
      In (GetPullRequestCall (ExternalBug.Org item) (ExternalBug.Repo item)
                             (ExternalBug.Num item) (Some pr, None)) t /\
      PullRequest.Merged pr = true).

End VocabularyVerdicts.

Section VocabularyEntryPoints.
Context {ext : Externals} {W : Type} {gc : githubClient W} {bc : bugzillaClient W}.

(** The event that [digestComment] makes of a command on the pull request
    [pr], before the title is looked at. *)
Definition commentEvent (gce : GenericCommentEvent.t) (pr : PullRequest.t) : event.t :=
  event.mk (GenericCommentEvent.Repo_Owner_Login gce) (GenericCommentEvent.Repo_Name gce)
           (PullRequest.Base_Ref pr) (GenericCommentEvent.Number gce) 0 false
           (PullRequest.Merged pr) (PullRequest.State pr)
           (GenericCommentEvent.Body gce) (GenericCommentEvent.HTMLURL gce)
           (GenericCommentEvent.User_Login gce)
           (negb (refreshCommandMatch_MatchString (GenericCommentEvent.Body gce))).

(** The comment carries one of the two commands. *)
Definition isCommand (body : string) : Prop :=
  CommandLine "/bugzilla refresh" body \/ CommandLine "/bugzilla assign-qa" body.

(** The run [x] after the call [c]. *)
Definition afterCall {R A} (c : Call) (x : W * list Call * res R A) : W * list Call * res R A :=
  (worldOf x, c :: callsOf x, resultOf x).

(** The bug id that the previous title of an edit references. *)
Definition previousReference (pre : PullRequestEvent.t) : option Z :=
  match unmarshalTitleFrom (PullRequestEvent.Changes pre) with
  | Some from => titleBugId from
  | None => None
  end.

End VocabularyEntryPoints.

(* ----------------------------------------------------------------- *)
(** ** Instances for the examples

    An implementation of the imported functions and in-memory clients,
    on which the theorems are run. The world is the list of the labels of
    the pull request; the tracker and the pull requests are tables. *)

Module Example.

Definition matchesState (s : BugzillaBugState.t) (bug : Bug.t) : bool :=
  (String.eqb (BugzillaBugState.Status s) EmptyString ||
   String.eqb (BugzillaBugState.Status s) (Bug.Status bug)) &&
  (String.eqb (BugzillaBugState.Resolution s) EmptyString ||
   String.eqb (BugzillaBugState.Resolution s) (Bug.Resolution bug)).

Definition asBugUpdate (s : option BugzillaBugState.t) (bug : option Bug.t)
  : option BugUpdate.t :=
  match s with
  | None => None
  | Some s =>
      let differs (want : string) (have : Bug.t -> string) :=
        negb (String.eqb want EmptyString) &&
        match bug with
        | None => true
        | Some b => negb (String.eqb want (have b))
        end in
      let st := differs (BugzillaBugState.Status s) Bug.Status in
      let rs := differs (BugzillaBugState.Resolution s) Bug.Resolution in
      if st || rs then
        Some (BugUpdate.mk (if st then BugzillaBugState.Status s else EmptyString)
                           (if rs then BugzillaBugState.Resolution s else EmptyString))
      else None
  end.

Definition prettyStatus (status resolution : string) : string :=
  if String.eqb resolution EmptyString then status else status ++ " (" ++ resolution ++ ")".

Definition stateString (s : option BugzillaBugState.t) : string :=
  match s with
  | Some s => prettyStatus (BugzillaBugState.Status s) (BugzillaBugState.Resolution s)
  | None => "<nil>"
  end.

Definition formatResponse (body url login response : string) : string :=
  "@" ++ login ++ ": " ++ response.

Definition quote (s : string) : string := String "034"%char (s ++ String "034"%char EmptyString).

Definition ext : Externals := {|
  Matches := matchesState;
  AsBugUpdate := asBugUpdate;
  fmt_s_state := stateString;
  PrettyStatus := prettyStatus;
  FormatResponseRaw := formatResponse;
  ValidBug := "bugzilla/valid-bug";
  InvalidBug := "bugzilla/invalid-bug";
  fmt_q := quote;
  unmarshalTitleFrom := fun raw => if String.eqb raw EmptyString then None else Some raw
|}.

Definition World : Type := list Label.t.

Definition addLabel (label : string) (w : World) : World :=
  if existsb (fun l => String.eqb (Label.Name l) label) w then w
  else (w ++ [Label.mk label])%list.

Definition removeLabel (label : string) (w : World) : World :=
  filter (fun l => negb (String.eqb (Label.Name l) label)) w.

Definition github (prs : string -> string -> Z -> option PullRequest.t * option error)
           (users : string -> list string * option error) : githubClient World := {|
  GetPullRequest := fun org repo number w => (w, prs org repo number);
  CreateComment := fun _ _ _ _ w => (w, None);
  GetIssueLabels := fun _ _ _ w => (w, (w, None));
  AddLabel := fun _ _ _ label w => (addLabel label w, None);
  RemoveLabel := fun _ _ _ label w => (removeLabel label w, None);
  Query := fun email w => (w, users email)
|}.

Definition tracker (bugs : Z -> option Bug.t * option error)
           (links : Z -> list ExternalBug.t * option error)
           (updateResult : option error) : bugzillaClient World := {|
  Endpoint := "https://bugzilla.example.com";
  GetBug := fun id w => (w, bugs id);
  GetExternalBugPRsOnBug := fun id w => (w, links id);
  UpdateBug := fun _ _ w => (w, updateResult);
  AddPullRequestAsExternalBug := fun _ _ _ _ w => (w, (true, None))
|}.

Definition pullRequest (title : string) (merged : bool) : PullRequest.t :=
  PullRequest.mk 7 "https://github.com/org/repo/pull/7" "author" title
                 (if merged then "closed" else "open") merged "master" "org" "repo".

Definition openedWithTitle (title : string) : PullRequestEvent.t :=
  PullRequestEvent.mk PullRequestActionOpened (pullRequest title false) EmptyString.

Definition editedTitle (from title : string) : PullRequestEvent.t :=
  PullRequestEvent.mk PullRequestActionEdited (pullRequest title false) from.

Definition noOptions : BugzillaBranchOptions.t :=
  BugzillaBranchOptions.mk None None None None None None None None None.

Definition bug1234 : Bug.t := Bug.mk 1234 true "NEW" EmptyString ["4.3.0"] [] None.

Definition ev (merged assign : bool) : event.t :=
  event.mk "org" "repo" "master" 7 1234 false merged (if merged then "closed" else "open")
           "Bug 1234: fix flake" "https://github.com/org/repo/pull/7" "author" assign.

(** The pull requests and the bugs of the examples. *)
Definition allMerged : string -> string -> Z -> option PullRequest.t * option error :=
  fun _ _ _ => (Some (pullRequest "Bug 1234: the other half" true), None).

Definition noneMerged : string -> string -> Z -> option PullRequest.t * option error :=
  fun _ _ _ => (Some (pullRequest "Bug 1234: the other half" false), None).

Definition noUsers : string -> list string * option error := fun _ => ([], None).

Definition found : Z -> option Bug.t * option error := fun _ => (Some bug1234, None).

Definition unavailable : error := mkError "503 Service Unavailable" false.

Definition notFound : error := mkError "404 Not Found" true.

Definition this : ExternalBug.t := ExternalBug.mk "org" "repo" 7.

Definition other : ExternalBug.t := ExternalBug.mk "org" "other" 3.

Definition links : Z -> list ExternalBug.t * option error := fun _ => ([this; other], None).

Definition modified : BugzillaBugState.t := BugzillaBugState.mk "MODIFIED" EmptyString.

Definition afterMerge : BugzillaBranchOptions.t :=
  BugzillaBranchOptions.mk None None None None None None None None (Some modified).

Definition needsDependents : BugzillaBranchOptions.t :=
  BugzillaBranchOptions.mk None None None None (Some [modified]) None None None None.

Definition openOnly : BugzillaBranchOptions.t :=
  BugzillaBranchOptions.mk None (Some true) None None None None None None None.

Definition closed1234 : Bug.t := Bug.mk 1234 false "CLOSED" "ERRATA" ["4.3.0"] [] None.

(** The events, the bugs and the policies of the further examples. *)
Definition evMissing : event.t := event.set_missing true (ev false false).

Definition foundClosed : Z -> option Bug.t * option error := fun _ => (Some closed1234, None).

Definition stateGuard : BugzillaBranchOptions.t :=
  BugzillaBranchOptions.mk None None None (Some [modified]) None None None None (Some modified).

Definition commented (action : GenericCommentEventAction) (body : string) (isPR : bool)
  : GenericCommentEvent.t :=
  GenericCommentEvent.mk action body "https://github.com/org/repo/pull/7#issuecomment-1"
                         "reviewer" "org" "repo" 7 isPR.

Definition policy : string -> string -> string -> BugzillaBranchOptions.t :=
  fun _ _ _ => noOptions.

Definition labeled : PullRequestEvent.t :=
  PullRequestEvent.mk (PullRequestActionOther "labeled")
                      (pullRequest "Bug 1234: fix flake" false) EmptyString.

Definition newOrPost : BugzillaBranchOptions.t :=
  BugzillaBranchOptions.mk None None None
    (Some [BugzillaBugState.mk "NEW" EmptyString; BugzillaBugState.mk "POST" EmptyString])
    None None None None None.

Definition byBranch : list (string * BugzillaBranchOptions.t) :=
  [("release-4.3", newOrPost); ("*", afterMerge)].

Definition linkOnly : BugzillaBranchOptions.t :=
  BugzillaBranchOptions.mk None None None None None None None (Some true) None.

Definition bugWithQA : Bug.t :=
  Bug.mk 1234 true "NEW" EmptyString ["4.3.0"] [] (Some (BugUser.mk "alice@example.com")).

Definition foundWithQA : Z -> option Bug.t * option error := fun _ => (Some bugWithQA, None).

Definition aliceOnly : string -> list string * option error := fun _ => (["alice"], None).

Definition dependsOn77 : Bug.t := Bug.mk 1234 true "NEW" EmptyString ["4.3.0"] [77] None.

Definition bug77 : Bug.t := Bug.mk 77 true "NEW" EmptyString ["4.3.0"] [] None.

Definition withDependent : Z -> option Bug.t * option error :=
  fun id => if id =? 1234 then (Some dependsOn77, None) else (Some bug77, None).

Definition openThenModified : BugzillaBranchOptions.t :=
  BugzillaBranchOptions.mk None (Some true) None None None None (Some modified) None None.

Definition fetchFails : string -> string -> Z -> option PullRequest.t * option error :=
  fun _ _ _ => (None, Some unavailable).

End Example.

(* ================================================================= *)
(** * Part II: properties *)

Unset Implicit Arguments.

(* ----------------------------------------------------------------- *)
(** ** Strings *)

Lemma append_nil_r (s : string) : s ++ EmptyString = s.
Proof. induction s; simpl; congruence. Qed.

Lemma append_assoc (a b c : string) : (a ++ b) ++ c = a ++ (b ++ c).
Proof. induction a; simpl; congruence. Qed.

Lemma append_eq_length (p p' s s' : string) :
  p ++ s = p' ++ s' -> String.length p = String.length p' -> p = p' /\ s = s'.
Proof.
  revert p'. induction p as [|c p IH]; intros [|c' p']; simpl; intros H L;
    try discriminate; auto.
  injection H as -> H. injection L as L. destruct (IH _ H L) as [-> ->]. auto.
Qed.

(* ----------------------------------------------------------------- *)
(** ** The title pattern *)

Lemma titleMatch_unfold (title : string) :
  titleMatch_FindStringSubmatch title = reLazyStar anyButNewline bugHere title.
Proof. reflexivity. Qed.

Lemma digit_not_colon (c : ascii) : isDigit c = true -> lit ":" c = false.
Proof.
  intros H. unfold lit.
  destruct (Ascii.eqb_spec c ":"%char) as [->|]; [discriminate H|reflexivity].
Qed.

Lemma ci_spec (lower upper c : ascii) :
  ci lower upper c = true <-> c = lower \/ c = upper.
Proof.
  unfold ci. rewrite orb_true_iff, !Ascii.eqb_eq. tauto.
Qed.

Lemma lit_spec (x c : ascii) : lit x c = true <-> c = x.
Proof. unfold lit. apply Ascii.eqb_eq. Qed.

Lemma greedy_digits_complete (ds rest cap : string) :
  allChars isDigit ds = true ->
  reGreedyStarCap isDigit afterColon cap (ds ++ String ":" rest) = Some (cap ++ ds).
Proof.
  revert cap. induction ds as [|c ds IH]; simpl; intros cap H.
  - now rewrite append_nil_r.
  - apply andb_true_iff in H as [Hc Hds]. rewrite Hc, IH by assumption.
    now rewrite append_assoc.
Qed.

Lemma greedy_digits_sound (s cap r : string) :
  reGreedyStarCap isDigit afterColon cap s = Some r ->
  exists ds rest, s = ds ++ String ":" rest /\ allChars isDigit ds = true /\ r = cap ++ ds.
Proof.
  revert cap. induction s as [|c s IH]; simpl; intros cap H.
  - discriminate.
  - assert (Hk : afterColon cap (String c s) = Some r ->
                 exists ds rest, String c s = ds ++ String ":" rest /\
                                 allChars isDigit ds = true /\ r = cap ++ ds).
    { unfold afterColon, reChar. destruct (lit ":" c) eqn:E; [|discriminate].
      apply lit_spec in E as ->. intros [= <-].
      exists EmptyString, s. now rewrite append_nil_r. }
    destruct (isDigit c) eqn:Hc; [|auto].
    destruct (reGreedyStarCap isDigit afterColon (cap ++ String c EmptyString) s) as [r'|] eqn:E.
    + injection H as ->. destruct (IH _ E) as (ds & rest & -> & Hds & ->).
      exists (String c ds), rest. simpl. rewrite Hc, Hds, append_assoc. auto.
    + unfold afterColon, reChar in H. now rewrite (digit_not_colon _ Hc) in H.
Qed.

Lemma bugHere_spec (s ds : string) : bugHere s = Some ds <-> BugRef ds s.
Proof.
  split.
  - unfold bugHere, reChar, reGreedyPlusCap.
    destruct s as [|b [|u [|g [|sp [|d s]]]]];
      repeat match goal with
             | |- (if ?c then _ else _) = _ -> _ => destruct c eqn:?; [|discriminate]
             | |- None = _ -> _ => discriminate
             end.
    intros H. apply greedy_digits_sound in H as (ds' & rest & -> & Hds & ->).
    repeat match goal with
           | H : ci _ _ _ = true |- _ => apply ci_spec in H
           | H : lit _ _ = true |- _ => apply lit_spec in H; subst
           end.
    exists b, u, g, rest. simpl.
    match goal with H : isDigit d = true |- _ => rewrite H end.
    repeat split; auto. discriminate.
  - intros (b & u & g & rest & -> & Hb & Hu & Hg & Hds & Hne).
    unfold bugHere, reChar, reGreedyPlusCap.
    rewrite (proj2 (ci_spec _ _ _) Hb), (proj2 (ci_spec _ _ _) Hu), (proj2 (ci_spec _ _ _) Hg).
    simpl. destruct ds as [|d ds]; [congruence|]. simpl in *.
    apply andb_true_iff in Hds as [Hd Hds]. rewrite Hd.
    now rewrite greedy_digits_complete.
Qed.

Lemma lazyStar_some (A : Type) (p : ascii -> bool) (k : string -> option A) (s : string) (r : A) :
  reLazyStar p k s = Some r ->
  exists pre suf,
    s = pre ++ suf /\ allChars p pre = true /\ k suf = Some r /\
    forall pre' suf', s = pre' ++ suf' ->
                      (String.length pre' < String.length pre)%nat -> k suf' = None.
Proof.
  induction s as [|c s IH]; simpl.
  - destruct (k EmptyString) eqn:E; [|discriminate]. intros [= ->].
    exists EmptyString, EmptyString. simpl. repeat split; auto. intros ? ? _ L. inversion L.
  - destruct (k (String c s)) eqn:E.
    + intros [= ->]. exists EmptyString, (String c s). simpl. repeat split; auto.
      intros ? ? _ L. inversion L.
    + destruct (p c) eqn:Hc; [|discriminate]. intros H.
      destruct (IH H) as (pre & suf & -> & Hp & Hk & Hmin).
      exists (String c pre), suf. simpl. rewrite Hc, Hp. repeat split; auto.
      intros [|c' pre'] suf'; simpl.
      * intros <- _. exact E.
      * intros [= <- Hs] L. apply (Hmin pre' suf' Hs). lia.
Qed.

Lemma lazyStar_none (A : Type) (p : ascii -> bool) (k : string -> option A) (s : string) :
  reLazyStar p k s = None ->
  forall pre suf, s = pre ++ suf -> allChars p pre = true -> k suf = None.
Proof.
  induction s as [|c s IH]; simpl.
  - destruct (k EmptyString) eqn:E; [discriminate|]. intros _ [|? ?] suf; simpl; [|discriminate].
    now intros <-.
  - destruct (k (String c s)) eqn:E; [discriminate|].
    intros H [|c' pre] suf; simpl.
    + now intros <-.
    + intros [= <- Hs] Hp. apply andb_true_iff in Hp as [Hc Hp]. rewrite Hc in H.
      eapply IH; eauto.
Qed.

Lemma titleMatch_first (title ds : string) :
  FirstBugRef ds title -> titleMatch_FindStringSubmatch title = Some ds.
Proof.
  intros (p & suf & Ht & Hp & Href & Hmin). rewrite titleMatch_unfold.
  destruct (reLazyStar anyButNewline bugHere title) as [r|] eqn:E.
  - destruct (lazyStar_some _ _ _ _ _ E) as (p0 & suf0 & Ht0 & Hp0 & Hk0 & Hmin0).
    destruct (Nat.lt_trichotomy (String.length p0) (String.length p)) as [L|[L|L]].
    + exfalso. apply (Hmin p0 suf0 r Ht0 L). now apply bugHere_spec.
    + rewrite Ht in Ht0. destruct (append_eq_length _ _ _ _ Ht0 (eq_sym L)) as [_ <-].
      apply bugHere_spec in Href. congruence.
    + apply bugHere_spec in Href. rewrite (Hmin0 p suf Ht L) in Href. discriminate.
  - apply bugHere_spec in Href.
    rewrite (lazyStar_none _ _ _ _ E p suf Ht Hp) in Href. discriminate.
Qed.

Lemma titleMatch_some (title ds : string) :
  titleMatch_FindStringSubmatch title = Some ds -> FirstBugRef ds title.
Proof.
  rewrite titleMatch_unfold. intros E.
  destruct (lazyStar_some _ _ _ _ _ E) as (p0 & suf0 & Ht0 & Hp0 & Hk0 & Hmin0).
  exists p0, suf0. repeat split; auto.
  - now apply bugHere_spec.
  - intros p' suf' ds' Ht L Href. apply bugHere_spec in Href.
    rewrite (Hmin0 p' suf' Ht L) in Href. discriminate.
Qed.

Lemma titleMatch_none (title : string) :
  titleMatch_FindStringSubmatch title = None <-> NoBugRef title.
Proof.
  rewrite titleMatch_unfold. split.
  - intros E p suf ds Ht Hp Href. apply bugHere_spec in Href.
    rewrite (lazyStar_none _ _ _ _ E p suf Ht Hp) in Href. discriminate.
  - intros H. destruct (reLazyStar anyButNewline bugHere title) as [r|] eqn:E; auto.
    destruct (lazyStar_some _ _ _ _ _ E) as (p0 & suf0 & Ht0 & Hp0 & Hk0 & _).
    exfalso. apply (H p0 suf0 r Ht0 Hp0). now apply bugHere_spec.
Qed.

(* ----------------------------------------------------------------- *)
(** ** [Atoi] on what the pattern captures *)

Lemma digitVal_nonneg (c : ascii) : isDigit c = true -> 0 <= digitVal c <= 9.
Proof.
  unfold isDigit, digitVal. cbv zeta. intros H. apply andb_true_iff in H as [H1 H2].
  apply N.leb_le in H1. apply N.leb_le in H2. lia.
Qed.

Lemma parseDigits_nonneg (s : string) (acc n : Z) :
  0 <= acc -> parseDigits acc s = Some n -> 0 <= n.
Proof.
  revert acc. induction s as [|c s IH]; cbn [parseDigits]; intros acc Hacc.
  - intros [= <-]. assumption.
  - destruct (isDigit c) eqn:Hc; [|discriminate].
    apply IH. pose proof (digitVal_nonneg _ Hc). lia.
Qed.

Lemma parseDigits_total (s : string) (acc : Z) :
  allChars isDigit s = true -> exists n, parseDigits acc s = Some n.
Proof.
  revert acc. induction s as [|c s IH]; simpl; intros acc H; eauto.
  apply andb_true_iff in H as [-> H]. auto.
Qed.

Lemma Atoi_digits (ds : string) (n : Z) :
  ds <> EmptyString -> parseDigits 0 ds = Some n -> n <= maxInt -> Atoi ds = (n, None).
Proof.
  intros Hne Hn Hmax. unfold Atoi. destruct ds as [|c ds]; [congruence|].
  assert (Hc : isDigit c = true).
  { simpl in Hn. destruct (isDigit c); [reflexivity|discriminate]. }
  assert (Ascii.eqb c "+" = false) as ->.
  { destruct (Ascii.eqb_spec c "+"%char) as [->|]; [discriminate Hc|reflexivity]. }
  assert (Ascii.eqb c "-" = false) as ->.
  { destruct (Ascii.eqb_spec c "-"%char) as [->|]; [discriminate Hc|reflexivity]. }
  rewrite Hn. pose proof (parseDigits_nonneg _ _ _ (Z.le_refl 0) Hn) as H0.
  assert ((n <? minInt) = false) as -> by (apply Z.ltb_ge; unfold minInt; lia).
  assert ((maxInt <? n) = false) as -> by (apply Z.ltb_ge; lia).
  reflexivity.
Qed.

Lemma Atoi_digits_inv (ds : string) (n : Z) :
  allChars isDigit ds = true -> Atoi ds = (n, None) -> parseDigits 0 ds = Some n.
Proof.
  intros Hds. unfold Atoi. destruct ds as [|c ds]; [discriminate|].
  simpl in Hds. apply andb_true_iff in Hds as [Hc Hds].
  assert (Ascii.eqb c "+" = false) as ->.
  { destruct (Ascii.eqb_spec c "+"%char) as [->|]; [discriminate Hc|reflexivity]. }
  assert (Ascii.eqb c "-" = false) as ->.
  { destruct (Ascii.eqb_spec c "-"%char) as [->|]; [discriminate Hc|reflexivity]. }
  destruct (parseDigits 0 (String c ds)) as [m|]; [|discriminate].
  destruct (m <? minInt); [discriminate|]. destruct (maxInt <? m); [discriminate|].
  now intros [= ->].
Qed.

Lemma BugRef_first (ds title : string) : BugRef ds title -> FirstBugRef ds title.
Proof.
  intros H. exists EmptyString, title. repeat split; auto.
  intros ? ? ? _ L. inversion L.
Qed.

Lemma FirstBugRef_digits (ds title : string) :
  FirstBugRef ds title -> allChars isDigit ds = true /\ ds <> EmptyString.
Proof. intros (? & ? & _ & _ & (? & ? & ? & ? & ?) & _). tauto. Qed.

Section Digest.
Context {ext : Externals}.

(** C1 (as amended).  For every pull-request event that [digestPR] acts on
    and that carries no previous title: when the first bug reference on
    the first line of the title (after any prefix without a line feed, not
    only at the start) has digits of value [n] within the range of an int,
    the event is produced with [bugId = n] and is not [missing]; when there
    is no bug reference on the first line, the event is marked [missing]
    (and produced only when validating by default); and an event that is
    not [missing] carries the id of that first bug reference. *)
Theorem digestPR_bug_reference (pre : PullRequestEvent.t) (validateByDefault : option bool) :
  actsOn pre = true ->
  unmarshalTitleFrom (PullRequestEvent.Changes pre) = None ->
  let title := PullRequest.Title (PullRequestEvent.PullRequest pre) in
  (forall ds n,
      FirstBugRef ds title -> parseDigits 0 ds = Some n -> n <= maxInt ->
      exists e, digestPR pre validateByDefault = (Some e, None) /\
                event.missing e = false /\ event.bugId e = n) /\
  (NoBugRef title ->
   exists e, event.missing e = true /\
             digestPR pre validateByDefault =
             (if match validateByDefault with Some b => b | None => false end
              then Some e else None, None)) /\
  (forall e,
      digestPR pre validateByDefault = (Some e, None) -> event.missing e = false ->
      exists ds, FirstBugRef ds title /\ parseDigits 0 ds = Some (event.bugId e)).
Proof.
  intros Hact Hch title. unfold digestPR. rewrite Hact, Hch. fold title. simpl.
  repeat split.
  - intros ds n Hfirst Hn Hmax.
    rewrite (titleMatch_first _ _ Hfirst).
    destruct (FirstBugRef_digits _ _ Hfirst) as [_ Hne].
    rewrite (Atoi_digits _ _ Hne Hn Hmax). simpl. eauto.
  - intros Hnone. apply titleMatch_none in Hnone. rewrite Hnone. simpl.
    eexists. split; [|reflexivity]. reflexivity.
  - intros e. destruct (titleMatch_FindStringSubmatch title) as [ds|] eqn:E.
    + apply titleMatch_some in E. destruct (FirstBugRef_digits _ _ E) as [Hds _].
      destruct (Atoi ds) as [id [err|]] eqn:EA; [discriminate|]. simpl.
      intros [= <-] _. simpl. eauto using Atoi_digits_inv.
    + simpl. destruct (match validateByDefault with Some b => b | None => false end);
        [|discriminate].
      intros [= <-]. discriminate.
Qed.

(** C7.  An edit event whose previous title and current title reference
    the same bug id yields no event (and no error). *)
Theorem digestPR_same_bug_suppressed (pre : PullRequestEvent.t) (validateByDefault : option bool)
        (from : string) (id : Z) :
  PullRequestEvent.Action pre = PullRequestActionEdited ->
  unmarshalTitleFrom (PullRequestEvent.Changes pre) = Some from ->
  titleBugId (PullRequest.Title (PullRequestEvent.PullRequest pre)) = Some id ->
  titleBugId from = Some id ->
  digestPR pre validateByDefault = (None, None).
Proof.
  intros Hact Hch Hcur Hprev. unfold digestPR, actsOn. rewrite Hact, Hch. simpl.
  unfold titleBugId in Hcur, Hprev.
  destruct (titleMatch_FindStringSubmatch (PullRequest.Title _)) as [ds|]; [|discriminate].
  destruct (Atoi ds) as [i [err|]]; [discriminate|]. injection Hcur as ->.
  destruct (titleMatch_FindStringSubmatch from) as [pds|]; [|discriminate].
  destruct (Atoi pds) as [j [err|]]; [discriminate|]. injection Hprev as ->.
  simpl. now rewrite Z.eqb_refl.
Qed.

End Digest.

(* ----------------------------------------------------------------- *)
(** ** The bug validator *)

Section Validator.
Context {ext : Externals}.

Lemma consistent_addError (msg : string) (v : verdict) : consistent (addError msg v).
Proof.
  destruct v as [[valid validations] errors]. unfold consistent. simpl. split.
  - discriminate.
  - intros H. now apply app_eq_nil in H as [_ H].
Qed.

Lemma consistent_addValidation (msg : string) (v : verdict) :
  consistent v -> consistent (addValidation msg v).
Proof. destruct v as [[valid validations] errors]. exact (fun H => H). Qed.

Create HintDb verdict.
#[local] Hint Resolve consistent_addError consistent_addValidation : verdict.

Lemma consistent_fold (step : verdict -> Bug.t -> verdict) (dependents : list Bug.t) :
  (forall v bug, consistent v -> consistent (step v bug)) ->
  forall v, consistent v -> consistent (fold_left step dependents v).
Proof. intros Hstep. induction dependents; simpl; auto. Qed.

Lemma consistent_checkDependentState states endpoint v bug :
  consistent v -> consistent (checkDependentState states endpoint v bug).
Proof. unfold checkDependentState. destruct (negb _); auto with verdict. Qed.

Lemma consistent_checkDependentTargetRelease release endpoint v bug :
  consistent v -> consistent (checkDependentTargetRelease release endpoint v bug).
Proof.
  unfold checkDependentTargetRelease. destruct (Bug.TargetRelease bug); auto with verdict.
  destruct (negb _); auto with verdict.
Qed.

Lemma consistent_init : consistent (true, [], []).
Proof. unfold consistent. simpl. tauto. Qed.

Ltac consistency :=
  repeat first
    [ exact consistent_init
    | apply consistent_addError
    | apply consistent_addValidation
    | apply consistent_fold;
      [ intros;
        first [ apply consistent_checkDependentState
              | apply consistent_checkDependentTargetRelease ]; assumption | ]
    | match goal with
      | |- consistent (match ?x with _ => _ end) => destruct x
      end ].

Lemma validateBug_consistent bug dependents options endpoint :
  consistent (validateBug bug dependents options endpoint).
Proof. unfold validateBug. cbv zeta. consistency. Qed.

(** C5.  A verdict of [validateBug] is never both valid and carrying
    errors: its flag is true exactly when its list of errors is empty. *)
Theorem validateBug_valid_iff_no_errors (bug : Bug.t) (dependents : list Bug.t)
        (options : BugzillaBranchOptions.t) (endpoint : string)
        (valid : bool) (validations errors : list string) :
  validateBug bug dependents options endpoint = (valid, validations, errors) ->
  (valid = true <-> errors = []).
Proof.
  intros H. pose proof (validateBug_consistent bug dependents options endpoint) as C.
  rewrite H in C. exact C.
Qed.

(** C3.  When a requirement on the states or on the target release of the
    dependents is configured, [validateBug] on an empty list of dependents
    returns valid=false, and the last of its errors says which of the two
    requirements (or both) found no dependent. *)
Theorem validateBug_no_dependents (bug : Bug.t) (options : BugzillaBranchOptions.t)
        (endpoint : string) :
  BugzillaBranchOptions.DependentBugStates options <> None \/
  BugzillaBranchOptions.DependentBugTargetRelease options <> None ->
  exists validations errors,
    validateBug bug [] options endpoint =
    (false, validations,
     (errors ++ [noDependentsError bug endpoint
                   (BugzillaBranchOptions.DependentBugStates options)
                   (BugzillaBranchOptions.DependentBugTargetRelease options)])%list).
Proof.
  intros H. unfold validateBug, noDependentsError.
  match goal with
  | |- context [match BugzillaBranchOptions.DependentBugTargetRelease options with
                | Some r => fold_left _ _ ?v | None => _ end] => set (v3 := v)
  end.
  destruct (BugzillaBranchOptions.DependentBugStates options) as [states|],
           (BugzillaBranchOptions.DependentBugTargetRelease options) as [release|];
    simpl; destruct v3 as [[valid validations] errors]; simpl.
  - exists validations, errors. now rewrite !append_assoc.
  - exists validations, errors. now rewrite !append_assoc.
  - exists validations, errors. now rewrite !append_assoc.
  - exfalso. destruct H; congruence.
Qed.

(** C4 (as amended).  For a Policy without constraints, and for every bug
    and every list of dependents, [validateBug] returns valid=true with no
    error; it returns no validation when the list of dependents is empty,
    and the one validation "bug has dependents" when it is not. *)
Theorem validateBug_no_constraints (bug : Bug.t) (dependents : list Bug.t)
        (options : BugzillaBranchOptions.t) (endpoint : string) :
  noConstraints options ->
  validateBug bug dependents options endpoint =
  (true, match dependents with [] => [] | _ :: _ => ["bug has dependents"] end, []).
Proof.
  intros (H1 & H2 & H3 & H4 & H5). unfold validateBug. rewrite H1, H2, H3, H4, H5.
  destruct dependents; reflexivity.
Qed.

End Validator.

(* ----------------------------------------------------------------- *)
(** ** The label reconciler *)

Section Reconciler.
Context {ext : Externals} {W : Type} {gc : githubClient W}.

Lemma syncLabel_calls (R : Type) (e : event.t) (label : string) (needs has : bool) (w : W)
      (label' : string) :
  let calls := callsOf (syncLabel (R:=R) e label needs has w) in
  count isLabelWrite calls = (if Bool.eqb needs has then 0 else 1)%nat /\
  count (isAddOf label') calls =
    (if needs && negb has && String.eqb label label' then 1 else 0)%nat /\
  count (isRemoveOf label') calls =
    (if negb needs && has && String.eqb label label' then 1 else 0)%nat.
Proof.
  unfold syncLabel, bind, gc_AddLabel, gc_RemoveLabel, ret, callsOf, count.
  destruct needs, has; simpl;
    try destruct (AddLabel _ _ _ label w); try destruct (RemoveLabel _ _ _ label w);
    simpl; destruct (String.eqb label label'); auto.
Qed.

Lemma syncLabel_present (R : Type) (e : event.t) (label : string) (needs has : bool) (w : W)
      (label' : string) :
  labelStore (event.org e) (event.repo e) (event.number e) ->
  present (event.org e) (event.repo e) (event.number e) label'
          (worldOf (syncLabel (R:=R) e label needs has w)) =
  if String.eqb label' label && negb (Bool.eqb needs has) then needs
  else present (event.org e) (event.repo e) (event.number e) label' w.
Proof.
  intros (_ & Hadd & Hrem).
  unfold syncLabel, bind, gc_AddLabel, gc_RemoveLabel, ret, worldOf.
  destruct needs, has; simpl; rewrite ?andb_false_r; auto.
  - specialize (Hadd w label label').
    destruct (AddLabel _ _ _ label w). simpl in *. rewrite Hadd.
    destruct (String.eqb label' label); reflexivity.
  - specialize (Hrem w label label').
    destruct (RemoveLabel _ _ _ label w). simpl in *. rewrite Hrem.
    destruct (String.eqb label' label); reflexivity.
Qed.

(** One pass, step by step. *)
Lemma reconcileLabels_run (R : Type) (e : event.t) (needsValid needsInvalid : bool) (w : W) :
  let org := event.org e in
  let repo := event.repo e in
  let number := event.number e in
  let read := GetIssueLabels org repo number w in
  let s1 := syncLabel (R:=R) e ValidBug needsValid (present org repo number ValidBug w)
                      (fst read) in
  let s2 := syncLabel (R:=R) e InvalidBug needsInvalid (present org repo number InvalidBug w)
                      (worldOf s1) in
  reconcileLabels e needsValid needsInvalid w =
  (worldOf s2,
   (GetIssueLabelsCall org repo number (snd read) :: callsOf s1 ++ callsOf s2)%list,
   resultOf s2).
Proof.
  unfold reconcileLabels, bind, gc_GetIssueLabels, present, worldOf, callsOf, resultOf.
  simpl. destruct (GetIssueLabels _ _ _ w) as [w1 [labels err]]. simpl.
  destruct (syncLabel e ValidBug _ _ w1) as [[w2 t2] [[]| |]] eqn:E2; simpl.
  - destruct (syncLabel e InvalidBug _ _ w2) as [[w3 t3] r3]. reflexivity.
  - exfalso. revert E2. unfold syncLabel, bind, gc_AddLabel, gc_RemoveLabel, ret.
    destruct (_ && _); [destruct (AddLabel _ _ _ _ w1); discriminate|].
    destruct (_ && _); [destruct (RemoveLabel _ _ _ _ w1); discriminate|discriminate].
  - exfalso. revert E2. unfold syncLabel, bind, gc_AddLabel, gc_RemoveLabel, ret.
    destruct (_ && _); [destruct (AddLabel _ _ _ _ w1); discriminate|].
    destruct (_ && _); [destruct (RemoveLabel _ _ _ _ w1); discriminate|discriminate].
Qed.

Lemma callsOf_run (R A : Type) (w : W) (t : list Call) (r : res R A) : callsOf (w, t, r) = t.
Proof. reflexivity. Qed.

Lemma worldOf_run (R A : Type) (w : W) (t : list Call) (r : res R A) : worldOf (w, t, r) = w.
Proof. reflexivity. Qed.

Lemma count_app (p : Call -> bool) (a b : list Call) :
  count p (a ++ b) = (count p a + count p b)%nat.
Proof. unfold count. now rewrite filter_app, length_app. Qed.

Lemma count_cons (p : Call -> bool) (c : Call) (l : list Call) :
  count p (c :: l) = ((if p c then 1 else 0) + count p l)%nat.
Proof. unfold count. simpl. now destruct (p c). Qed.

(** C6.  For any labels on the pull request and any desired presence of
    the two labels (the verdict or the missing flag fixes it), a pass of
    the reconciler makes, for each of the two labels, one add call exactly
    when the label is needed and was not read, one remove call exactly when
    it is not needed and was read, and no other label call: at most one add
    and one remove per label, and none where the presence agrees with the
    verdict.  When the review host keeps the labels as a set, a second
    pass with the same desired presence, from the world that the first
    pass left, makes no add and no remove call. *)
Theorem reconcileLabels_idempotent (R : Type) (e : event.t)
        (needsValid needsInvalid : bool) (w : W) :
  ValidBug <> InvalidBug ->
  let org := event.org e in
  let repo := event.repo e in
  let number := event.number e in
  let first := reconcileLabels (R:=R) e needsValid needsInvalid w in
  let second := reconcileLabels (R:=R) e needsValid needsInvalid (worldOf first) in
  let hasValid := present org repo number ValidBug w in
  let hasInvalid := present org repo number InvalidBug w in
  (count (isAddOf ValidBug) (callsOf first) =
     (if needsValid && negb hasValid then 1 else 0)%nat /\
   count (isRemoveOf ValidBug) (callsOf first) =
     (if negb needsValid && hasValid then 1 else 0)%nat /\
   count (isAddOf InvalidBug) (callsOf first) =
     (if needsInvalid && negb hasInvalid then 1 else 0)%nat /\
   count (isRemoveOf InvalidBug) (callsOf first) =
     (if negb needsInvalid && hasInvalid then 1 else 0)%nat /\
   count isLabelWrite (callsOf first) =
     ((if Bool.eqb needsValid hasValid then 0 else 1) +
      (if Bool.eqb needsInvalid hasInvalid then 0 else 1))%nat) /\
  (labelStore org repo number -> count isLabelWrite (callsOf second) = 0%nat).
Proof.
  intros Hne org repo number first second hasValid hasInvalid.
  assert (Hvi : String.eqb ValidBug InvalidBug = false) by now apply String.eqb_neq.
  assert (Hiv : String.eqb InvalidBug ValidBug = false)
    by (apply String.eqb_neq; congruence).
  subst second first.
  pose proof (reconcileLabels_run R e needsValid needsInvalid w) as Run1.
  cbv zeta in Run1. fold org repo number hasValid hasInvalid in Run1.
  set (w1 := fst (GetIssueLabels org repo number w)) in *.
  set (s1 := syncLabel e ValidBug needsValid hasValid w1) in *.
  set (s2 := syncLabel e InvalidBug needsInvalid hasInvalid (worldOf s1)) in *.
  rewrite Run1, !callsOf_run, worldOf_run.
  split.
  - rewrite !count_cons, !count_app. cbn [isAddOf isRemoveOf isLabelWrite].
    destruct (syncLabel_calls R e ValidBug needsValid hasValid w1 ValidBug) as (_ & A1 & R1).
    destruct (syncLabel_calls R e ValidBug needsValid hasValid w1 InvalidBug) as (T1 & A2 & R2).
    destruct (syncLabel_calls R e InvalidBug needsInvalid hasInvalid (worldOf s1) ValidBug)
      as (_ & A3 & R3).
    destruct (syncLabel_calls R e InvalidBug needsInvalid hasInvalid (worldOf s1) InvalidBug)
      as (T2 & A4 & R4).
    cbv zeta in *. fold s1 in A1, R1, A2, R2, T1. fold s2 in A3, R3, A4, R4, T2.
    rewrite A1, R1, A2, R2, A3, R3, A4, R4, T1, T2.
    rewrite Hvi, Hiv, !String.eqb_refl, !andb_true_r, !andb_false_r.
    repeat split; lia.
  - intros Hstore.
    assert (HV : present org repo number ValidBug (worldOf s2) = needsValid).
    { subst s2. unfold org, repo, number. rewrite syncLabel_present by exact Hstore.
      rewrite Hvi. simpl. subst s1. rewrite syncLabel_present by exact Hstore.
      rewrite String.eqb_refl. simpl. fold org repo number.
      destruct Hstore as (Hread & _). subst w1. rewrite Hread. fold hasValid.
      destruct needsValid, hasValid; reflexivity. }
    assert (HI : present org repo number InvalidBug (worldOf s2) = needsInvalid).
    { subst s2. unfold org, repo, number. rewrite syncLabel_present by exact Hstore.
      rewrite String.eqb_refl. simpl.
      destruct (Bool.eqb needsInvalid hasInvalid) eqn:Eq; simpl; [|reflexivity].
      subst s1. rewrite syncLabel_present by exact Hstore.
      rewrite Hiv. simpl. fold org repo number.
      destruct Hstore as (Hread & _). subst w1. rewrite Hread. fold hasInvalid.
      symmetry. now apply Bool.eqb_prop. }
    pose proof (reconcileLabels_run R e needsValid needsInvalid (worldOf s2)) as Run2.
    cbv zeta in Run2. fold org repo number in Run2. rewrite HV, HI in Run2.
    rewrite Run2, callsOf_run.
    rewrite count_cons, count_app. cbn [isLabelWrite].
    match goal with
    | |- (_ + (count _ (callsOf (syncLabel e ValidBug _ _ ?a)) +
          count _ (callsOf (syncLabel e InvalidBug _ _ ?b))))%nat = _ =>
        destruct (syncLabel_calls R e ValidBug needsValid needsValid a ValidBug) as (-> & _);
        destruct (syncLabel_calls R e InvalidBug needsInvalid needsInvalid b ValidBug)
          as (-> & _)
    end.
    now rewrite !Bool.eqb_reflx.
Qed.

End Reconciler.

(* ----------------------------------------------------------------- *)
(** ** Runs of the monad *)

Section Runs.
Context {W : Type}.

Lemma runs_ret R A (a : A) (w : W) : runs (R:=R) (ret a) w w [] (Val a).
Proof. reflexivity. Qed.

Lemma runs_return R A (x : R) (w : W) : runs (A:=A) (return_ x) w w [] (Ret x).
Proof. reflexivity. Qed.

Lemma runs_bind R A B (m : M W R A) (f : A -> M W R B) w w1 w2 t1 t2 a r :
  runs m w w1 t1 (Val a) -> runs (f a) w1 w2 t2 r ->
  runs (bind m f) w w2 (t1 ++ t2) r.
Proof. unfold runs, bind. intros -> ->. reflexivity. Qed.

Lemma runs_func_Ret R R' (m : M W R R) w w1 t1 a :
  runs m w w1 t1 (Ret a) -> runs (R:=R') (func m) w w1 t1 (Val a).
Proof. unfold runs, func. intros ->. reflexivity. Qed.

End Runs.

Section MergeTracker.
Context {ext : Externals} {W : Type} {gc : githubClient W} {bc : bugzillaClient W}.

Lemma checkPRs_all_merged (e : event.t) (prs : list ExternalBug.t) :
  Forall (hasMerged e) prs ->
  forall mergedPRs unmergedPrStates w, exists w' t,
    runs (checkPRs e prs true mergedPRs unmergedPrStates) w w' t
         (Val (true, (mergedPRs ++ prs)%list, unmergedPrStates)) /\
    forallb isRead t = true.
Proof.
  induction 1 as [|item prs Hitem _ IH]; intros mergedPRs unmergedPrStates w.
  - exists w, []. rewrite app_nil_r. split; reflexivity.
  - cbn [checkPRs]. unfold hasMerged, isSelf in Hitem.
    destruct (_ && _ && _).
    + destruct (IH (mergedPRs ++ [item])%list unmergedPrStates w) as (w' & t & Hrun & Ht).
      exists w', t. split; [|assumption].
      unfold runs, bind, ret in *. simpl. rewrite Hitem. simpl.
      rewrite Hrun. now rewrite <- app_assoc.
    + destruct (Hitem w) as (pr & Hpr & Hm).
      destruct (GetPullRequest _ _ _ w) as [w1 r1] eqn:E. simpl in Hpr. subst r1.
      destruct (IH (mergedPRs ++ [item])%list unmergedPrStates w1) as (w' & t & Hrun & Ht).
      eexists w', (_ :: t). split.
      * unfold runs, bind, ret, gc_GetPullRequest in *. rewrite E. simpl. rewrite Hm. simpl.
        rewrite Hrun. now rewrite <- app_assoc.
      * simpl. assumption.
Qed.

Lemma checkPRs_first_unmerged (e : event.t) (l1 l2 : list ExternalBug.t) (u : ExternalBug.t) :
  Forall (hasMerged e) l1 -> hasNotMerged e u ->
  forall mergedPRs w, exists w' t st,
    runs (checkPRs e (l1 ++ u :: l2) true mergedPRs []) w w' t
         (Val (false, (mergedPRs ++ l1)%list, [(u, st)])) /\
    forallb isRead t = true.
Proof.
  intros H Hu. induction H as [|item l1 Hitem _ IH]; intros mergedPRs w.
  - cbn [app checkPRs]. unfold hasNotMerged, isSelf in Hu.
    destruct (_ && _ && _).
    + exists w, [], (event.state e). rewrite app_nil_r. split; [|reflexivity].
      unfold runs, bind, ret. simpl. rewrite Hu. reflexivity.
    + destruct (Hu w) as (pr & Hpr & Hm).
      destruct (GetPullRequest _ _ _ w) as [w1 r1] eqn:E. simpl in Hpr. subst r1.
      eexists w1, [_], (PullRequest.State pr). rewrite app_nil_r. split.
      * unfold runs, bind, ret, gc_GetPullRequest. rewrite E. simpl. rewrite Hm. reflexivity.
      * reflexivity.
  - cbn [app checkPRs]. unfold hasMerged, isSelf in Hitem.
    destruct (_ && _ && _).
    + destruct (IH (mergedPRs ++ [item])%list w) as (w' & t & st & Hrun & Ht).
      exists w', t, st. split; [|assumption].
      unfold runs, bind, ret in *. simpl. rewrite Hitem. simpl.
      rewrite Hrun. now rewrite <- app_assoc.
    + destruct (Hitem w) as (pr & Hpr & Hm).
      destruct (GetPullRequest _ _ _ w) as [w1 r1] eqn:E. simpl in Hpr. subst r1.
      destruct (IH (mergedPRs ++ [item])%list w1) as (w' & t & st & Hrun & Ht).
      eexists w', (_ :: t), st. split.
      * unfold runs, bind, ret, gc_GetPullRequest in *. rewrite E. simpl. rewrite Hm. simpl.
        rewrite Hrun. now rewrite <- app_assoc.
      * simpl. assumption.
Qed.

(** The map of the unmerged pull requests never holds more than one
    entry: the loop leaves at the first one. *)
Lemma checkPRs_one_unmerged (e : event.t) (prs : list ExternalBug.t) :
  forall shouldMigrate mergedPRs w,
    match resultOf (checkPRs e prs shouldMigrate mergedPRs [] w) with
    | Val (_, _, unmergedPrStates) => (List.length unmergedPrStates <= 1)%nat
    | _ => True
    end.
Proof.
  induction prs as [|item prs IH]; intros shouldMigrate mergedPRs w; cbn [checkPRs].
  - cbn. lia.
  - unfold bind at 1.
    match goal with
    | |- context [(if ?c then ?a else ?b) w] =>
        destruct ((if c then a else b) w) as [[w1 t1] [[merged state]| |]]; cbn; auto
    end.
    destruct merged; cbn [mapAssign].
    + destruct (negb (shouldMigrate && true)).
      * cbn. lia.
      * specialize (IH (shouldMigrate && true) (mergedPRs ++ [item])%list w1).
        destruct (checkPRs _ _ _ _ _ w1) as [[w2 t2] r2]. exact IH.
    + rewrite andb_false_r. cbn. lia.
Qed.
Lemma handleMerge_unfold R (e : event.t) (options : BugzillaBranchOptions.t) :
  handleMerge (R:=R) e options =
  func ((if isNone (BugzillaBranchOptions.StateAfterMerge options)
         then return_ None else ret tt) ;;;
        (if event.missing e then return_ None else ret tt) ;;;
        mergeGuard e options ;;;
        mergeLinks e options).
Proof. reflexivity. Qed.

Lemma func_call_return R R' A (m : M W R R) (k : A -> M W R R) (w : W) :
  func (R':=R') (bind (bind (func (R':=R) m) (fun r => return_ r)) k) w = func (R':=R') m w.
Proof.
  unfold func, bind, return_. destruct (m w) as [[w' t] [a|a|]]; simpl;
    now rewrite ?app_nil_r.
Qed.

Lemma handle_merged R (e : event.t) (options : BugzillaBranchOptions.t) (w : W) :
  event.merged e = true -> handle (R:=R) e options w = handleMerge (R:=R) e options w.
Proof.
  intros H. unfold handle. rewrite H. unfold handleMerge. apply func_call_return.
Qed.

Lemma runs_trace R A (m : M W R A) w w' t t' r :
  runs m w w' t r -> t = t' -> runs m w w' t' r.
Proof. now intros H <-. Qed.

Lemma runs_GetExternalBugPRsOnBug R id w w' r :
  GetExternalBugPRsOnBug id w = (w', r) ->
  runs (R:=R) (bc_GetExternalBugPRsOnBug id) w w' [GetExternalBugPRsOnBugCall id r] (Val r).
Proof. unfold runs, bc_GetExternalBugPRsOnBug. now intros ->. Qed.

Lemma runs_UpdateBug R id update w w' r :
  UpdateBug id update w = (w', r) ->
  runs (R:=R) (bc_UpdateBug id update) w w' [UpdateBugCall id update r] (Val r).
Proof. unfold runs, bc_UpdateBug. now intros ->. Qed.

Lemma runs_comment_eq R (e : event.t) (body : string) (w w' : W) r :
  CreateComment (event.org e) (event.repo e) (event.number e)
    (FormatResponseRaw (event.body e) (event.htmlUrl e) (event.login e) body) w = (w', r) ->
  runs (R:=R) (comment e body) w w'
       [CreateCommentCall (event.org e) (event.repo e) (event.number e)
          (FormatResponseRaw (event.body e) (event.htmlUrl e) (event.login e) body) r]
       (Val r).
Proof. unfold runs, comment, gc_CreateComment. now intros ->. Qed.

Lemma mergeGuard_passes (e : event.t) (options : BugzillaBranchOptions.t) (w : W) :
  passesGuard e options w ->
  exists w' t, runs (mergeGuard e options) w w' t (Val tt) /\ forallb isRead t = true.
Proof.
  unfold mergeGuard. intros [[-> ->]|(bug & Hbug & Hm)].
  - exists w, []. split; reflexivity.
  - destruct (_ || _); [|exists w, []; split; reflexivity].
    destruct (GetBug (event.bugId e) w) as [w1 r1] eqn:E. simpl in Hbug. subst r1.
    eexists w1, [_]. split.
    + unfold runs, getBug, bc_GetBug, bind, ret. rewrite E. simpl. rewrite Hm. reflexivity.
    + reflexivity.
Qed.

(** The run of [handleMerge] when every linked pull request has merged. *)
Lemma handleMerge_all_merged R (e : event.t) (options : BugzillaBranchOptions.t) (w : W)
      (s : BugzillaBugState.t) (update : BugUpdate.t) (prs : list ExternalBug.t) :
  event.missing e = false ->
  BugzillaBranchOptions.StateAfterMerge options = Some s ->
  AsBugUpdate (Some s) None = Some update ->
  passesGuard e options w ->
  (forall w', snd (GetExternalBugPRsOnBug (event.bugId e) w') = (prs, None)) ->
  Forall (hasMerged e) prs ->
  exists w' reads updated posted,
    runs (handleMerge (R:=R) e options) w w'
         (reads ++
          [UpdateBugCall (event.bugId e) update updated;
           CreateCommentCall (event.org e) (event.repo e) (event.number e)
             (FormatResponseRaw (event.body e) (event.htmlUrl e) (event.login e)
                (if isSome updated
                 then formatError ("updating to the " ++ fmt_s_state (Some s) ++ " state")
                                  Endpoint (event.bugId e) updated
                 else mergedMessage prs "All" ++ " " ++
                      outcomeMessage e options EmptyString)%string)
             posted])%list
         (Val posted) /\
    forallb isRead reads = true.
Proof.
  intros Hmiss Hsam Hupd Hguard Hprs Hall.
  destruct (mergeGuard_passes e options w Hguard) as (w1 & t1 & Hrun1 & Ht1).
  destruct (GetExternalBugPRsOnBug (event.bugId e) w1) as [w2 r2] eqn:E2.
  pose proof (Hprs w1) as Hr2. rewrite E2 in Hr2. simpl in Hr2. subst r2.
  destruct (checkPRs_all_merged e prs Hall [] [] w2) as (w3 & t3 & Hrun3 & Ht3).
  destruct (UpdateBug (event.bugId e) update w3) as [w4 updated] eqn:E4.
  destruct (CreateComment (event.org e) (event.repo e) (event.number e)
              (FormatResponseRaw (event.body e) (event.htmlUrl e) (event.login e)
                 (if isSome updated
                  then formatError ("updating to the " ++ fmt_s_state (Some s) ++ " state")
                                   Endpoint (event.bugId e) updated
                  else mergedMessage prs "All" ++ " " ++
                       outcomeMessage e options EmptyString)) w4)
    as [w5 posted] eqn:E5.
  exists w5, (t1 ++ GetExternalBugPRsOnBugCall (event.bugId e) (prs, None) :: t3)%list,
         updated, posted.
  split.
  - rewrite handleMerge_unfold. apply runs_func_Ret.
    rewrite Hsam, Hmiss. simpl isNone. cbv iota. simpl app in Hrun3.
    destruct (isSome updated) eqn:Eu.
    all: eapply runs_trace.
    1, 3: eapply runs_bind; [apply runs_ret|];
      eapply runs_bind; [apply runs_ret|];
      eapply runs_bind; [exact Hrun1|];
      unfold mergeLinks;
      (eapply runs_bind; [apply runs_GetExternalBugPRsOnBug; exact E2|]); cbv beta iota;
      (eapply runs_bind; [apply runs_ret|]);
      (eapply runs_bind; [exact Hrun3|]);
      unfold mergeOutcome; rewrite Hsam, Hupd;
      (eapply runs_bind; [apply runs_UpdateBug; exact E4|]);
      rewrite Eu; (eapply runs_bind; [apply runs_comment_eq; exact E5|]); apply runs_return.
    all: simpl; rewrite <- app_assoc; reflexivity.
  - rewrite forallb_app. simpl. now rewrite Ht1, Ht3.
Qed.

(** The run of [handleMerge] when the first linked pull request that has
    not merged is [u]. *)
Lemma handleMerge_first_unmerged R (e : event.t) (options : BugzillaBranchOptions.t) (w : W)
      (s : BugzillaBugState.t) (update : BugUpdate.t) (l1 l2 : list ExternalBug.t)
      (u : ExternalBug.t) :
  event.missing e = false ->
  BugzillaBranchOptions.StateAfterMerge options = Some s ->
  AsBugUpdate (Some s) None = Some update ->
  passesGuard e options w ->
  (forall w', snd (GetExternalBugPRsOnBug (event.bugId e) w') = ((l1 ++ u :: l2)%list, None)) ->
  Forall (hasMerged e) l1 -> hasNotMerged e u ->
  exists w' reads st posted,
    runs (handleMerge (R:=R) e options) w w'
         (reads ++
          [CreateCommentCall (event.org e) (event.repo e) (event.number e)
             (FormatResponseRaw (event.body e) (event.htmlUrl e) (event.login e)
                (mergedMessage l1 "Some" ++ " " ++ unmergedMessage [(u, st)] ++ nl ++
                 outcomeMessage e options EmptyString)%string)
             posted])%list
         (Val posted) /\
    forallb isRead reads = true.
Proof.
  intros Hmiss Hsam Hupd Hguard Hprs Hall Hu.
  destruct (mergeGuard_passes e options w Hguard) as (w1 & t1 & Hrun1 & Ht1).
  destruct (GetExternalBugPRsOnBug (event.bugId e) w1) as [w2 r2] eqn:E2.
  pose proof (Hprs w1) as Hr2. rewrite E2 in Hr2. simpl in Hr2. subst r2.
  destruct (checkPRs_first_unmerged e l1 l2 u Hall Hu [] w2) as (w3 & t3 & st & Hrun3 & Ht3).
  simpl app in Hrun3.
  destruct (CreateComment (event.org e) (event.repo e) (event.number e)
              (FormatResponseRaw (event.body e) (event.htmlUrl e) (event.login e)
                 (mergedMessage l1 "Some" ++ " " ++ unmergedMessage [(u, st)] ++ nl ++
                  outcomeMessage e options EmptyString)) w3)
    as [w4 posted] eqn:E4.
  exists w4, (t1 ++ GetExternalBugPRsOnBugCall (event.bugId e) ((l1 ++ u :: l2)%list, None) :: t3)%list,
         st, posted.
  split.
  - rewrite handleMerge_unfold. apply runs_func_Ret.
    rewrite Hsam, Hmiss. simpl isNone. cbv iota.
    eapply runs_trace.
    + eapply runs_bind; [apply runs_ret|].
      eapply runs_bind; [apply runs_ret|].
      eapply runs_bind; [exact Hrun1|].
      unfold mergeLinks.
      eapply runs_bind; [apply runs_GetExternalBugPRsOnBug; exact E2|]. cbv beta iota.
      eapply runs_bind; [apply runs_ret|].
      eapply runs_bind; [exact Hrun3|].
      unfold mergeOutcome. rewrite Hsam, Hupd.
      eapply runs_bind; [apply runs_comment_eq; exact E4|]. apply runs_return.
    + simpl. rewrite <- app_assoc. reflexivity.
  - rewrite forallb_app. simpl. now rewrite Ht1, Ht3.
Qed.

Lemma filter_reads (p : Call -> bool) (reads : list Call) :
  (forall c, isRead c = true -> p c = false) ->
  forallb isRead reads = true -> filter p reads = [].
Proof.
  intros Hp. induction reads as [|c reads IH]; simpl; auto.
  intros H. apply andb_true_iff in H as [Hc H]. rewrite (Hp c Hc). auto.
Qed.

Lemma reads_no_update c : isRead c = true -> isUpdateBug c = false.
Proof. now destruct c. Qed.

Lemma reads_no_comment c : isRead c = true -> isCreateComment c = false.
Proof. now destruct c. Qed.

(** C2.  On a merge event for a referenced bug, with a post-merge state
    configured (one that makes an update) and the bug passing the guard on
    its state when there is one: when every linked pull request has merged,
    the tracker is updated exactly once, with the update of the post-merge
    state; when the linked pull requests are merged ones, one that has not
    merged, and merged ones, the tracker is not updated and the one comment
    that is posted names that pull request by its link. *)
Theorem merge_advancement (R : Type) (e : event.t) (options : BugzillaBranchOptions.t) (w : W)
        (s : BugzillaBugState.t) (update : BugUpdate.t) (prs : list ExternalBug.t) :
  event.merged e = true ->
  event.missing e = false ->
  BugzillaBranchOptions.StateAfterMerge options = Some s ->
  AsBugUpdate (Some s) None = Some update ->
  passesGuard e options w ->
  (forall w', snd (GetExternalBugPRsOnBug (event.bugId e) w') = (prs, None)) ->
  let calls := callsOf (handle (R:=R) e options w) in
  (Forall (hasMerged e) prs ->
   exists updated,
     filter isUpdateBug calls = [UpdateBugCall (event.bugId e) update updated]) /\
  (forall l1 u l2,
      prs = (l1 ++ u :: l2)%list ->
      Forall (hasMerged e) l1 -> Forall (hasMerged e) l2 -> hasNotMerged e u ->
      filter isUpdateBug calls = [] /\
      exists response posted,
        filter isCreateComment calls =
        [CreateCommentCall (event.org e) (event.repo e) (event.number e)
           (FormatResponseRaw (event.body e) (event.htmlUrl e) (event.login e) response)
           posted] /\
        occursIn (link u) response).
Proof.
  intros Hm Hmiss Hsam Hupd Hguard Hprs calls. subst calls.
  rewrite (handle_merged R e options w Hm). split.
  - intros Hall.
    destruct (handleMerge_all_merged R e options w s update prs Hmiss Hsam Hupd Hguard Hprs Hall)
      as (w' & reads & updated & posted & Hrun & Hreads).
    exists updated. unfold runs in Hrun. rewrite Hrun. unfold callsOf. cbn [fst snd].
    rewrite filter_app, (filter_reads isUpdateBug reads reads_no_update Hreads).
    reflexivity.
  - intros l1 u l2 -> Hl1 _ Hu.
    destruct (handleMerge_first_unmerged R e options w s update l1 l2 u
                Hmiss Hsam Hupd Hguard Hprs Hl1 Hu)
      as (w' & reads & st & posted & Hrun & Hreads).
    unfold runs in Hrun. rewrite Hrun. unfold callsOf. cbn [fst snd].
    rewrite !filter_app, (filter_reads isUpdateBug reads reads_no_update Hreads),
      (filter_reads isCreateComment reads reads_no_comment Hreads).
    split; [reflexivity|]. eexists _, posted. split; [reflexivity|].
    exists (mergedMessage l1 "Some" ++ " " ++
            "The following pull requests linked via external trackers have not merged:" ++
            nl ++ " * "),
           (" is " ++ st ++ nl ++ outcomeMessage e options EmptyString).
    unfold unmergedMessage, Join. cbn [map String.concat fst snd].
    now rewrite !append_assoc.
Qed.

(** C9.  On the merge path, when a linked pull request has not merged, the
    tracker is not updated and the one comment lists the pull request
    found unmerged (the first one: the search stops there) with its state
    and ends with the outcome sentence built with the empty action, which
    reads "has been moved to" the post-merge state; the comment of the
    advance path, after a successful update, ends with the same sentence. *)
Theorem merge_outcome_sentence (R : Type) (e : event.t) (options : BugzillaBranchOptions.t)
        (w : W) (s : BugzillaBugState.t) (update : BugUpdate.t) (prs : list ExternalBug.t) :
  event.merged e = true ->
  event.missing e = false ->
  BugzillaBranchOptions.StateAfterMerge options = Some s ->
  AsBugUpdate (Some s) None = Some update ->
  passesGuard e options w ->
  (forall w', snd (GetExternalBugPRsOnBug (event.bugId e) w') = (prs, None)) ->
  let sentence :=
    bugLink (event.bugId e) Endpoint ++ " has been moved to the " ++
    fmt_s_state (Some s) ++ " state." in
  let posts (response : string) (posted : option error) :=
    CreateCommentCall (event.org e) (event.repo e) (event.number e)
      (FormatResponseRaw (event.body e) (event.htmlUrl e) (event.login e) response) posted in
  (forall l1 u l2,
      prs = (l1 ++ u :: l2)%list -> Forall (hasMerged e) l1 -> hasNotMerged e u ->
      exists w' reads st posted,
        handle (R:=R) e options w =
        (w',
         (reads ++
          [posts (mergedMessage l1 "Some" ++ " " ++
                  ("The following pull requests linked via external trackers have not merged:" ++
                   nl ++ " * " ++ link u ++ " is " ++ st) ++ nl ++ sentence)%string
                 posted])%list,
         Val posted) /\
        forallb isRead reads = true) /\
  (Forall (hasMerged e) prs ->
   exists w' reads updated posted,
     handle (R:=R) e options w =
     (w',
      (reads ++
       [UpdateBugCall (event.bugId e) update updated;
        posts (if isSome updated
               then formatError ("updating to the " ++ fmt_s_state (Some s) ++ " state")
                                Endpoint (event.bugId e) updated
               else mergedMessage prs "All" ++ " " ++ sentence)%string
              posted])%list,
      Val posted) /\
     forallb isRead reads = true).
Proof.
  intros Hm Hmiss Hsam Hupd Hguard Hprs sentence posts.
  assert (Hsentence : outcomeMessage e options EmptyString = sentence).
  { unfold outcomeMessage, sentence. now rewrite Hsam. }
  rewrite (handle_merged R e options w Hm). split.
  - intros l1 u l2 -> Hl1 Hu.
    destruct (handleMerge_first_unmerged R e options w s update l1 l2 u
                Hmiss Hsam Hupd Hguard Hprs Hl1 Hu)
      as (w' & reads & st & posted & Hrun & Hreads).
    exists w', reads, st, posted. split; [|assumption].
    rewrite Hsentence in Hrun. exact Hrun.
  - intros Hall.
    destruct (handleMerge_all_merged R e options w s update prs Hmiss Hsam Hupd Hguard Hprs Hall)
      as (w' & reads & updated & posted & Hrun & Hreads).
    exists w', reads, updated, posted. split; [|assumption].
    rewrite Hsentence in Hrun. exact Hrun.
Qed.

End MergeTracker.

(* ----------------------------------------------------------------- *)
(** ** Failures of the tracker *)

Section Failures.
Context {ext : Externals} {W : Type} {gc : githubClient W} {bc : bugzillaClient W}.

Lemma clean_app (a b : list Call) : clean a -> clean b -> clean (a ++ b).
Proof. unfold clean. intros. apply Forall_app. auto. Qed.

Lemma Reported_app (e : event.t) after (p a t : list Call) (posted : option error) :
  clean a -> Reported e after (p ++ a) t posted -> Reported e after p (a ++ t) posted.
Proof.
  intros Ha (pre & c & err & response & -> & Hpre & Hc & Hd).
  exists (a ++ pre)%list, c, err, response. rewrite !app_assoc.
  repeat split; auto using clean_app.
Qed.

Lemma ok_ret A (e : event.t) after p (a : A) (w : W) : okStmt e after p (ret a w).
Proof. left. constructor. Qed.

Lemma ok_return A (e : event.t) after p (x : option error) (w : W) :
  okStmt (A:=A) e after p (return_ x w).
Proof. left. constructor. Qed.

Lemma ok_panic A (e : event.t) after p (w : W) : okStmt (A:=A) e after p (panic w).
Proof. left. constructor. Qed.

Lemma ok_bind A B (e : event.t) after p (m : M W (option error) A)
      (f : A -> M W (option error) B) (w : W) :
  okStmt e after p (m w) ->
  (forall w1 t1 a, m w = (w1, t1, Val a) -> clean t1 -> okStmt e after (p ++ t1) (f a w1)) ->
  okStmt e after p (bind m f w).
Proof.
  unfold okStmt, bind. destruct (m w) as [[w1 t1] [a|x|]]; cbn [callsOf resultOf fst snd].
  - intros [Hc|(posted & _ & [=])] Hf.
    specialize (Hf w1 t1 a eq_refl Hc). destruct (f a w1) as [[w2 t2] r2].
    cbn [callsOf resultOf fst snd] in *.
    destruct Hf as [Hf|(posted & Hf & ->)]; [left|right]; eauto using clean_app, Reported_app.
  - intros [H|(posted & H & [= ->])] _; [left|right]; eauto.
  - intros [H|(posted & _ & [=])] _. now left.
Qed.

(** A test that returns from the handler or goes on: it makes no call. *)
Lemma ok_guard A (e : event.t) after p (leave : bool) (x : option error)
      (f : unit -> M W (option error) A) (w : W) :
  okStmt e after p (f tt w) ->
  okStmt e after p (bind (if leave then return_ x else ret tt) f w).
Proof.
  destruct leave; unfold bind, return_, ret; [intros _; left; constructor|].
  now destruct (f tt w) as [[w2 t2] r2].
Qed.

(** A statement whose calls are not calls that fetch or update a bug. *)
Lemma ok_clean_call A (e : event.t) after p (m : M W (option error) A) (w : W) :
  (forall w, clean (callsOf (m w))) -> okStmt e after p (m w).
Proof. intros H. left. apply H. Qed.

Lemma clean_comment R (e : event.t) (body : string) (w : W) :
  clean (callsOf (comment (R:=R) e body w)).
Proof.
  unfold comment, gc_CreateComment, callsOf. destruct (CreateComment _ _ _ _ w).
  repeat constructor.
Qed.

Lemma clean_GetPullRequest R org repo number (w : W) :
  clean (callsOf (gc_GetPullRequest (R:=R) org repo number w)).
Proof.
  unfold gc_GetPullRequest, callsOf. destruct (GetPullRequest _ _ _ w). repeat constructor.
Qed.

Lemma clean_Query R email (w : W) : clean (callsOf (gc_Query (R:=R) email w)).
Proof. unfold gc_Query, callsOf. destruct (Query _ w). repeat constructor. Qed.

Lemma clean_GetExternalBugPRsOnBug R id (w : W) :
  clean (callsOf (bc_GetExternalBugPRsOnBug (R:=R) id w)).
Proof.
  unfold bc_GetExternalBugPRsOnBug, callsOf. destruct (GetExternalBugPRsOnBug _ w).
  repeat constructor.
Qed.

Lemma clean_AddPullRequestAsExternalBug R id org repo num (w : W) :
  clean (callsOf (bc_AddPullRequestAsExternalBug (R:=R) id org repo num w)).
Proof.
  unfold bc_AddPullRequestAsExternalBug, callsOf.
  destruct (AddPullRequestAsExternalBug _ _ _ _ w). repeat constructor.
Qed.

Lemma clean_syncLabel R e label needs has (w : W) :
  clean (callsOf (syncLabel (R:=R) e label needs has w)).
Proof.
  unfold syncLabel, bind, gc_AddLabel, gc_RemoveLabel, ret, callsOf.
  destruct (_ && _); [destruct (AddLabel _ _ _ _ w); repeat constructor|].
  destruct (_ && _); [destruct (RemoveLabel _ _ _ _ w); repeat constructor|constructor].
Qed.

Lemma clean_reconcileLabels R e needsValid needsInvalid (w : W) :
  clean (callsOf (reconcileLabels (R:=R) e needsValid needsInvalid w)).
Proof.
  rewrite reconcileLabels_run. cbv zeta. rewrite callsOf_run.
  constructor; [reflexivity|]. apply clean_app; apply clean_syncLabel.
Qed.

(** The comment after a failure, then the return. *)
Lemma ok_report A (e : event.t) (response : string) (w : W) :
  exists posted w',
    bind (A:=option error) (B:=A) (comment e response) (fun r => return_ r) w =
    (w', [CreateCommentCall (event.org e) (event.repo e) (event.number e)
            (FormatResponseRaw (event.body e) (event.htmlUrl e) (event.login e) response)
            posted], Ret posted).
Proof.
  unfold bind, comment, gc_CreateComment, return_.
  destruct (CreateComment _ _ _ _ w) as [w' posted]. exists posted, w'. reflexivity.
Qed.

(** [UpdateBug] on the bug of the event and the check of its error. *)
Lemma ok_UpdateBug A (e : event.t) after p (update : BugUpdate.t)
      (f : option error -> M W (option error) A) (w : W) :
  (forall w1, okStmt e after (p ++ [UpdateBugCall (event.bugId e) update None]) (f None w1)) ->
  (forall err w1,
      f (Some err) w1 =
      bind (comment e (formatError ("updating to the " ++ fmt_s_state after ++ " state")
                                   Endpoint (event.bugId e) (Some err)))
           (fun r => return_ r) w1) ->
  okStmt e after p (bind (bc_UpdateBug (event.bugId e) update) f w).
Proof.
  intros Hok Hfail. unfold bind at 1. unfold bc_UpdateBug.
  destruct (UpdateBug (event.bugId e) update w) as [w1 [err|]].
  - rewrite Hfail.
    destruct (ok_report A e
                (formatError ("updating to the " ++ fmt_s_state after ++ " state")
                             Endpoint (event.bugId e) (Some err)) w1)
      as (posted & w' & ->).
    right. exists posted. split; [|reflexivity].
    exists [], (UpdateBugCall (event.bugId e) update (Some err)), err. eexists.
    split; [reflexivity|]. split; [constructor|]. split; [reflexivity|].
    split; reflexivity.
  - specialize (Hok w1). destruct (f None w1) as [[w2 t2] r2].
    destruct Hok as [Hc|(posted & Hr & Hres)]; [left|right].
    + constructor; [reflexivity|exact Hc].
    + exists posted. split; [|exact Hres].
      apply (Reported_app e after p [UpdateBugCall (event.bugId e) update None]); [|exact Hr].
      repeat constructor.
Qed.

(** [GetBug] on a dependent, after other calls, and the check of its
    error. *)
Lemma ok_GetBug A (e : event.t) after p (id : Z)
      (f : option Bug.t * option error -> M W (option error) A) (w : W) :
  p <> [] ->
  (forall dependent w1,
      okStmt e after (p ++ [GetBugCall id (dependent, None)]) (f (dependent, None) w1)) ->
  (forall dependent err w1,
      f (dependent, Some err) w1 =
      bind (comment e (formatError ("searching for dependent bug " ++ fmt_d id)
                                   Endpoint (event.bugId e) (Some err)))
           (fun r => return_ r) w1) ->
  okStmt e after p (bind (bc_GetBug id) f w).
Proof.
  intros Hp Hok Hfail. unfold bind at 1. unfold bc_GetBug.
  destruct (GetBug id w) as [w1 [dependent [err|]]].
  - rewrite Hfail.
    destruct (ok_report A e
                (formatError ("searching for dependent bug " ++ fmt_d id)
                             Endpoint (event.bugId e) (Some err)) w1)
      as (posted & w' & ->).
    right. exists posted. split; [|reflexivity].
    exists [], (GetBugCall id (dependent, Some err)), err. eexists.
    split; [reflexivity|]. split; [constructor|]. split; [reflexivity|].
    rewrite app_nil_r. destruct p as [|c0 p]; [contradiction|]. reflexivity.
  - specialize (Hok dependent w1). destruct (f (dependent, None) w1) as [[w2 t2] r2].
    destruct Hok as [Hc|(posted & Hr & Hres)]; [left|right].
    + constructor; [reflexivity|exact Hc].
    + exists posted. split; [|exact Hres].
      apply (Reported_app e after p [GetBugCall id (dependent, None)]); [|exact Hr].
      repeat constructor.
Qed.

(** [getBug] on the bug of the event, as the first call: it returns the
    bug, after the fetch, or no bug and what posting its comment
    returned. *)
Lemma getBug_run R (e : event.t) after (w : W) :
  exists w1 t r,
    getBug (R:=R) (event.bugId e) (comment e) w = (w1, t, Val r) /\
    ((exists bug, r = (Some bug, None) /\ t = [GetBugCall (event.bugId e) (Some bug, None)]) \/
     (exists posted, r = (None, posted) /\ (clean t \/ Reported e after [] t posted))).
Proof.
  unfold getBug, bind, bc_GetBug, ret, comment, gc_CreateComment.
  destruct (GetBug (event.bugId e) w) as [w1 [bug [err|]]];
    cbn [isSome IsNotFound andb orb negb].
  - destruct (isNotFound err) eqn:Enf; cbn [negb andb orb];
      destruct (CreateComment _ _ _ _ w1) as [w2 posted];
      do 3 eexists; (split; [reflexivity|]); right; exists posted;
      (split; [reflexivity|]); right;
      exists [], (GetBugCall (event.bugId e) (bug, Some err)), err; eexists;
      (split; [reflexivity|]); (split; [constructor|]); (split; [reflexivity|]);
      cbn [app describes]; rewrite Enf; split; reflexivity.
  - destruct bug as [bug|]; cbn [isNone isSome negb].
    + do 3 eexists. split; [reflexivity|]. left. exists bug. split; reflexivity.
    + destruct (CreateComment _ _ _ _ w1) as [w2 posted].
      do 3 eexists. split; [reflexivity|]. right. exists posted. split; [reflexivity|].
      left. repeat constructor.
Qed.

(** [getBug], as the first call, and the check of what it returned. *)
Lemma ok_getBug A (e : event.t) after
      (f : option Bug.t * option error -> M W (option error) A) (w : W) :
  (forall bug w1,
      okStmt e after [GetBugCall (event.bugId e) (Some bug, None)] (f (Some bug, None) w1)) ->
  (forall posted w1, f (None, posted) w1 = return_ posted w1) ->
  okStmt e after [] (bind (getBug (event.bugId e) (comment e)) f w).
Proof.
  intros Hok Hret. unfold bind.
  destruct (getBug_run (option error) e after w) as (w1 & t & r & -> & H).
  destruct H as [(bug & -> & ->)|(posted & -> & H)].
  - specialize (Hok bug w1). destruct (f (Some bug, None) w1) as [[w2 t2] r2].
    destruct Hok as [Hok|(posted & Hr & Hres)]; [left|right].
    + apply clean_app; [repeat constructor|assumption].
    + exists posted. split; [|exact Hres]. apply Reported_app; [repeat constructor|assumption].
  - rewrite Hret. unfold return_. rewrite app_nil_r.
    destruct H; [left|right]; eauto.
Qed.

Lemma ok_call A (e : event.t) after p (m : M W (option error) (option error)) (w : W) :
  okFn e after p (m w) -> okStmt (A:=A) e after p (bind m (fun r => return_ r) w).
Proof.
  unfold okFn, okStmt, bind, return_. destruct (m w) as [[w1 t1] [a|x|]];
    cbn [callsOf resultOf fst snd]; rewrite ?app_nil_r.
  - intros [H|(posted & H & [= ->])]; [left|right]; eauto.
  - intros [H|(posted & _ & [=])]. now left.
  - intros [H|(posted & _ & [=])]. now left.
Qed.

Lemma ok_func R (e : event.t) after p (body : M W (option error) (option error)) (w : W) :
  okStmt e after p (body w) -> okFn (R:=R) e after p (func body w).
Proof.
  unfold okFn, okStmt, func. destruct (body w) as [[w1 t1] [a|x|]];
    cbn [callsOf resultOf fst snd].
  - intros [H|(posted & _ & [=])]. now left.
  - intros [H|(posted & H & [= ->])]; [left|right]; eauto.
  - intros [H|(posted & _ & [=])]. now left.
Qed.

(** A call of a handler never goes on to the next statement. *)
Lemma call_leaves A (m : M W (option error) (option error)) (w w1 : W) t1 (a : A) :
  bind m (fun r => return_ r) w <> (w1, t1, Val a).
Proof. unfold bind, return_. now destruct (m w) as [[w2 t2] [x|x|]]. Qed.

Ltac ok_clean :=
  apply ok_clean_call; intros;
  first [ apply clean_comment | apply clean_Query | apply clean_GetPullRequest
        | apply clean_GetExternalBugPRsOnBug | apply clean_AddPullRequestAsExternalBug
        | apply clean_reconcileLabels ].

Ltac ok_step :=
  first
    [ apply ok_ret | apply ok_return | apply ok_panic
    | apply ok_UpdateBug; [ intros; cbn [isSome] | intros; cbn [isSome]; reflexivity ]
    | ok_clean
    | assumption
    | apply ok_bind; [ | intros ? ? ? _ _ ]
    | match goal with
      | |- okStmt _ _ _ ((if ?c then _ else _) _) => destruct c
      | |- okStmt _ _ _ ((match ?x with _ => _ end) _) => destruct x
      | |- okStmt _ _ _ ((let '(_, _) := ?x in _) _) => destruct x
      | H : forall _, okStmt _ _ _ _ |- _ => apply H
      | H : forall _ _, okStmt _ _ _ _ |- _ => apply H
      | H : forall _ _ _, okStmt _ _ _ _ |- _ => apply H
      | H : forall _ _ _ _, okStmt _ _ _ _ |- _ => apply H
      | H : forall _ _ _ _ _, okStmt _ _ _ _ |- _ => apply H
      end ].

Lemma fetchDependents_ok (e : event.t) after (ids : list Z) :
  forall p dependents w, p <> [] -> okStmt e after p (fetchDependents e ids dependents w).
Proof.
  induction ids as [|id ids IH]; intros p dependents w Hp; cbn [fetchDependents];
    [apply ok_ret|].
  apply ok_GetBug; [exact Hp| |intros; reflexivity].
  intros [d|] w1; cbn [isSome]; [|apply ok_panic].
  apply IH. now destruct p.
Qed.

Lemma assignQA_ok (e : event.t) after p (bug : Bug.t) (response : string) (w : W) :
  okStmt e after p (assignQA e bug response w).
Proof. unfold assignQA. repeat ok_step. Qed.

Lemma validBranch_ok (e : event.t) (options : BugzillaBranchOptions.t) p (bug : Bug.t)
      (validationsRun : list string) (w : W) :
  okStmt e (BugzillaBranchOptions.StateAfterValidation options) p
         (validBranch e options bug validationsRun w).
Proof. unfold validBranch. repeat first [apply assignQA_ok | ok_step]. Qed.

Lemma validate_ok (e : event.t) (options : BugzillaBranchOptions.t) (w : W) :
  okStmt e (BugzillaBranchOptions.StateAfterValidation options) [] (validate e options w).
Proof.
  unfold validate. destruct (event.missing e); [apply ok_ret|].
  apply ok_getBug; [|intros [?|] ?; reflexivity].
  intros bug w1. cbv beta iota. apply ok_bind.
  - destruct (_ || _); [|apply ok_ret]. now apply fetchDependents_ok.
  - intros w2 t2 dependents _ _.
    destruct (validateBug bug dependents options Endpoint) as [[[|] validationsRun] why];
      [|apply ok_ret].
    apply ok_bind; [apply validBranch_ok|intros; apply ok_ret].
Qed.

Lemma checkPRs_ok (e : event.t) after (prs : list ExternalBug.t) :
  forall p shouldMigrate mergedPRs unmergedPrStates w,
    okStmt e after p (checkPRs e prs shouldMigrate mergedPRs unmergedPrStates w).
Proof.
  induction prs as [|item prs IH]; intros; cbn [checkPRs]; repeat ok_step.
Qed.

Lemma handleMerge_ok R (e : event.t) (options : BugzillaBranchOptions.t) (w : W) :
  okFn e (BugzillaBranchOptions.StateAfterMerge options) [] (handleMerge (R:=R) e options w).
Proof.
  unfold handleMerge. apply ok_func. do 2 apply ok_guard.
  apply ok_bind.
  - destruct (_ || _); [|apply ok_ret].
    apply ok_getBug; [|intros [?|] ?; reflexivity].
    intros bug w1. cbv beta iota. repeat ok_step.
  - intros w1 t1 [] _ _. repeat first [apply checkPRs_ok | ok_step].
Qed.

Lemma handle_ok R (e : event.t) (options : BugzillaBranchOptions.t) (w : W) :
  okFn e (if event.merged e then BugzillaBranchOptions.StateAfterMerge options
          else BugzillaBranchOptions.StateAfterValidation options) []
       (handle (R:=R) e options w).
Proof.
  unfold handle. apply ok_func. destruct (event.merged e).
  - apply ok_bind; [apply ok_call, handleMerge_ok|].
    intros w1 t1 a H. now apply call_leaves in H.
  - apply (ok_guard _ e _ [] false None). apply ok_bind; [apply validate_ok|].
    intros w1 t1 [[needsValid needsInvalid] response] _ _. repeat ok_step.
Qed.

Lemma failure_position (pre post pre' : list Call) (c c' cm : Call) :
  (pre ++ c :: post = pre' ++ [c'; cm])%list ->
  trackerFailure c <> None -> clean pre' -> trackerFailure cm = None ->
  pre = pre' /\ c = c' /\ post = [cm].
Proof.
  revert pre'. induction pre as [|a pre IH]; intros [|x pre']; cbn [app].
  - intros [= -> ->]. auto.
  - intros [= -> _] Hc Hclean _. inversion Hclean. contradiction.
  - intros [= -> H] Hc _ Hcm. destruct pre as [|b pre]; cbn [app] in H.
    + injection H as -> _. contradiction.
    + injection H as _ H. now destruct pre.
  - intros [= -> H] Hc Hclean Hcm. inversion Hclean; subst.
    destruct (IH pre' H Hc) as (-> & -> & ->); auto.
Qed.

(** C8 (as amended).  In every run of [handle], when a call that fetches a
    bug or updates a bug fails, the only call made after it posts one
    comment, and [handle] returns what posting it returned (no error when
    the comment was posted).  The comment is the error comment: it names
    the action that failed -- the search for the bug of the event when
    the call is the first fetch, the search for the dependent that the
    call asked for when it is a later fetch, the move to the state after
    the merge or after the validation when it is an update -- then the
    bug, the tracker and the error.  The one exception is the first
    fetch when its error is a not-found error: then the comment says that
    no bug with this id exists in the tracker, and does not show the
    error.  The first fetch and the update are calls on the bug of the
    event. *)
Theorem tracker_failure_reported (R : Type) (e : event.t) (options : BugzillaBranchOptions.t)
        (w : W) (pre post : list Call) (c : Call) (err : error) :
  callsOf (handle (R:=R) e options w) = (pre ++ c :: post)%list ->
  trackerFailure c = Some err ->
  let after :=
    if event.merged e then BugzillaBranchOptions.StateAfterMerge options
    else BugzillaBranchOptions.StateAfterValidation options in
  let report (action : string) :=
    "An error was encountered " ++ action ++ " for bug " ++ fmt_d (event.bugId e) ++
    " on the Bugzilla server at " ++ Endpoint ++ ":" ++ nl ++
    "> " ++ Error err ++ nl ++
    "Please contact an administrator to resolve this issue, then request a bug refresh with <code>/bugzilla refresh</code>." in
  let response :=
    match c, pre with
    | GetBugCall id _, [] =>
        if isNotFound err then
          "No Bugzilla bug with ID " ++ fmt_d (event.bugId e) ++
          " exists in the tracker at " ++ Endpoint ++ "." ++ nl ++
          "Once a valid bug is referenced in the title of this pull request, request a bug refresh with <code>/bugzilla refresh</code>."
        else report "searching"
    | GetBugCall id _, _ :: _ => report ("searching for dependent bug " ++ fmt_d id)
    | _, _ => report ("updating to the " ++ fmt_s_state after ++ " state")
    end in
  exists posted,
    post = [CreateCommentCall (event.org e) (event.repo e) (event.number e)
              (FormatResponseRaw (event.body e) (event.htmlUrl e) (event.login e) response)
              posted] /\
    resultOf (handle (R:=R) e options w) = Val posted /\
    match c with
    | GetBugCall id _ => pre = [] -> id = event.bugId e
    | UpdateBugCall id _ _ => id = event.bugId e
    | _ => True
    end.
Proof.
  intros Hcalls Hc after report response.
  destruct (handle_ok R e options w) as [Hclean|(posted & Hrep & Hres)].
  - exfalso. rewrite Hcalls in Hclean. apply Forall_app in Hclean as [_ Hclean].
    inversion Hclean. congruence.
  - destruct Hrep as (pre' & c' & err' & response' & Ht & Hpre & Hc' & Hd).
    rewrite Hcalls in Ht.
    destruct (failure_position pre post pre' c c' _ Ht) as (-> & -> & ->);
      [congruence|assumption|reflexivity|].
    assert (err' = err) by congruence. subst err'. fold after in Hd.
    exists posted. cbn [app] in Hd. unfold describes in Hd.
    destruct c' as [| | | | | |id r| |id u r|]; try contradiction.
    + destruct pre' as [|c0 pre'].
      * destruct Hd as [-> ->]. repeat split; auto.
      * subst response'. repeat split; auto. discriminate.
    + destruct Hd as [-> ->]. subst response. destruct pre'; repeat split; auto.
Qed.

End Failures.

(* ----------------------------------------------------------------- *)
(** ** The QA contact *)

Section QAContact.
Context {ext : Externals} {W : Type} {gc : githubClient W} {bc : bugzillaClient W}.

Lemma callsOf_mapVal R A B (g : A -> B) (x : W * list Call * res R A) :
  callsOf (mapVal g x) = callsOf x.
Proof. now destruct x as [[w t] r]. Qed.

Lemma bind_mapVal R A B C (g : B -> C) (m : M W R A) (k1 : A -> M W R C) (k2 : A -> M W R B)
      (w : W) :
  (forall a w1, k1 a w1 = mapVal g (k2 a w1)) ->
  bind m k1 w = mapVal g (bind m k2 w).
Proof.
  intros H. unfold bind. destruct (m w) as [[w1 t1] [a|x|]]; try reflexivity.
  rewrite H. now destruct (k2 a w1) as [[w2 t2] r2].
Qed.

Lemma quiet_app (a b : list Call) : quiet a -> quiet b -> quiet (a ++ b).
Proof. unfold quiet. rewrite forallb_app. now intros -> ->. Qed.

Lemma quiet_bind R A B (m : M W R A) (f : A -> M W R B) (w : W) :
  quiet (callsOf (m w)) -> (forall a w1, quiet (callsOf (f a w1))) ->
  quiet (callsOf (bind m f w)).
Proof.
  unfold bind. destruct (m w) as [[w1 t1] [a|x|]]; cbn [callsOf fst snd]; auto.
  intros H1 H2. specialize (H2 a w1). destruct (f a w1) as [[w2 t2] r2].
  now apply quiet_app.
Qed.

Lemma quiet_func R R' (m : M W R R) (w : W) :
  quiet (callsOf (m w)) -> quiet (callsOf (func (R':=R') m w)).
Proof. unfold func. now destruct (m w) as [[w1 t1] r]. Qed.

Lemma quiet_comment R e body (w : W) : quiet (callsOf (comment (R:=R) e body w)).
Proof. unfold comment, gc_CreateComment. now destruct (CreateComment _ _ _ _ w). Qed.

Lemma quiet_GetBug R id (w : W) : quiet (callsOf (bc_GetBug (R:=R) id w)).
Proof. unfold bc_GetBug. now destruct (GetBug _ w). Qed.

Lemma quiet_UpdateBug R id update (w : W) :
  quiet (callsOf (bc_UpdateBug (R:=R) id update w)).
Proof. unfold bc_UpdateBug. now destruct (UpdateBug _ _ w). Qed.

Lemma quiet_AddPullRequestAsExternalBug R id org repo num (w : W) :
  quiet (callsOf (bc_AddPullRequestAsExternalBug (R:=R) id org repo num w)).
Proof.
  unfold bc_AddPullRequestAsExternalBug. now destruct (AddPullRequestAsExternalBug _ _ _ _ w).
Qed.

Lemma quiet_syncLabel R e label needs has (w : W) :
  quiet (callsOf (syncLabel (R:=R) e label needs has w)).
Proof.
  unfold syncLabel, bind, gc_AddLabel, gc_RemoveLabel, ret.
  destruct (_ && _); [now destruct (AddLabel _ _ _ _ w)|].
  destruct (_ && _); [now destruct (RemoveLabel _ _ _ _ w)|reflexivity].
Qed.

Lemma quiet_reconcileLabels R e needsValid needsInvalid (w : W) :
  quiet (callsOf (reconcileLabels (R:=R) e needsValid needsInvalid w)).
Proof.
  rewrite reconcileLabels_run. cbv zeta. rewrite callsOf_run.
  apply (quiet_app [_]); [reflexivity|]. apply quiet_app; apply quiet_syncLabel.
Qed.

Ltac quiet_step :=
  first
    [ reflexivity
    | apply quiet_comment | apply quiet_GetBug | apply quiet_UpdateBug
    | apply quiet_AddPullRequestAsExternalBug | apply quiet_reconcileLabels
    | assumption
    | apply quiet_bind; [ | intros ? ? ]
    | match goal with
      | |- quiet (callsOf ((if ?c then _ else _) _)) => destruct c
      | |- quiet (callsOf ((match ?x with _ => _ end) _)) => destruct x
      | |- quiet (callsOf ((let '(_, _) := ?x in _) _)) => destruct x
      | H : forall _, quiet _ |- _ => apply H
      | H : forall _ _, quiet _ |- _ => apply H
      end ].

Lemma quiet_getBug R e (w : W) : quiet (callsOf (getBug (R:=R) (event.bugId e) (comment e) w)).
Proof. unfold getBug. repeat quiet_step. Qed.

Lemma quiet_fetchDependents e ids :
  forall dependents w, quiet (callsOf (fetchDependents e ids dependents w)).
Proof. induction ids as [|id ids IH]; intros; cbn [fetchDependents]; repeat quiet_step. Qed.

Lemma quiet_validate e options (w : W) :
  event.assign e = false -> quiet (callsOf (validate e options w)).
Proof.
  intros Ha. unfold validate, validBranch, assignQA. rewrite Ha.
  repeat first [apply quiet_getBug | apply quiet_fetchDependents | quiet_step].
Qed.

(** Only the assign flag of the event tells the events apart. *)
Lemma fetchDependents_set_assign (b : bool) (e : event.t) (ids : list Z) :
  forall dependents w,
    fetchDependents (event.set_assign b e) ids dependents w =
    fetchDependents e ids dependents w.
Proof.
  induction ids as [|id ids IH]; intros; cbn [fetchDependents]; [reflexivity|].
  unfold bind at 1 3. destruct (bc_GetBug id w) as [[w1 t1] [[dependent err]| |]];
    try reflexivity.
  destruct (isSome err); [reflexivity|]. destruct dependent; [|reflexivity].
  now rewrite IH.
Qed.

Lemma validBranch_skips (e : event.t) (options : BugzillaBranchOptions.t) (bug : Bug.t)
      (validationsRun : list string) (w : W) :
  event.assign e = true -> noQAEmail bug ->
  validBranch e options bug validationsRun w =
  mapVal (fun response => response ++ skipNote e bug)
         (validBranch (event.set_assign false e) options bug validationsRun w).
Proof.
  intros Ha Hq. unfold validBranch.
  apply bind_mapVal. intros response1 w1. apply bind_mapVal. intros response2 w2.
  unfold assignQA, skipNote, noQAEmail in *. rewrite Ha. cbn [event.set_assign event.assign].
  destruct (Bug.QAContactDetail bug) as [detail|]; [|reflexivity].
  rewrite Hq. reflexivity.
Qed.

Lemma getBug_found R (e : event.t) (w w1 : W) (bug : Bug.t) :
  GetBug (event.bugId e) w = (w1, (Some bug, None)) ->
  getBug (R:=R) (event.bugId e) (comment e) w =
  (w1, [GetBugCall (event.bugId e) (Some bug, None)], Val (Some bug, None)).
Proof. intros H. unfold getBug, bind, bc_GetBug, ret. rewrite H. reflexivity. Qed.

Lemma bind_run_Val R A B (m : M W R A) (f : A -> M W R B) (w w1 : W) t1 a :
  m w = (w1, t1, Val a) ->
  bind m f w = (let '(w2, t2, r2) := f a w1 in (w2, (t1 ++ t2)%list, r2)).
Proof. unfold bind. now intros ->. Qed.

Lemma validate_skips (e : event.t) (options : BugzillaBranchOptions.t) (w : W) (bug : Bug.t) :
  event.missing e = false -> event.assign e = true ->
  snd (GetBug (event.bugId e) w) = (Some bug, None) -> noQAEmail bug ->
  validate e options w =
  mapVal (withNote (skipNote e bug)) (validate (event.set_assign false e) options w).
Proof.
  intros Hmiss Ha Hbug Hq. unfold validate.
  cbn [event.set_assign event.missing event.bugId]. rewrite Hmiss.
  change (@comment _ _ _ ?R (event.set_assign false e)) with (@comment _ _ _ R e).
  destruct (GetBug (event.bugId e) w) as [w1 r1] eqn:E. simpl in Hbug. subst r1.
  rewrite !(bind_run_Val _ _ _ _ _ _ _ _ _ (getBug_found _ e w w1 bug E)). cbv beta iota.
  unfold bind.
  assert (Hrest : forall dependents w2,
             (let '(valid, validationsRun, why) :=
                validateBug bug dependents options Endpoint in
              if (valid : bool)
              then fun w =>
                     let '(w3, t3, r) := validBranch e options bug validationsRun w in
                     match r with
                     | Val a => let '(w4, t4, r4) := ret (valid, negb valid, a) w3 in
                                (w4, (t3 ++ t4)%list, r4)
                     | Ret x => (w3, t3, Ret x)
                     | Panic => (w3, t3, Panic)
                     end
              else ret (valid, negb valid, invalidResponse e why)) w2 =
             mapVal (withNote (skipNote e bug))
               ((let '(valid, validationsRun, why) :=
                   validateBug bug dependents options Endpoint in
                 if (valid : bool)
                 then fun w =>
                        let '(w3, t3, r) :=
                          validBranch (event.set_assign false e) options bug validationsRun w in
                        match r with
                        | Val a => let '(w4, t4, r4) := ret (valid, negb valid, a) w3 in
                                   (w4, (t3 ++ t4)%list, r4)
                        | Ret x => (w3, t3, Ret x)
                        | Panic => (w3, t3, Panic)
                        end
                 else ret (valid, negb valid, invalidResponse (event.set_assign false e) why))
                  w2)).
  { intros dependents w2.
    destruct (validateBug bug dependents options Endpoint) as [[[|] validationsRun] why];
      [|reflexivity].
    rewrite (validBranch_skips e options bug validationsRun w2 Ha Hq).
    destruct (validBranch (event.set_assign false e) options bug validationsRun w2)
      as [[w3 t3] [response| |]]; reflexivity. }
  destruct (_ || _).
  - rewrite fetchDependents_set_assign.
    destruct (fetchDependents e (Bug.DependsOn bug) [] w1) as [[w2 t2] [dependents| |]];
      try reflexivity.
    rewrite Hrest. now destruct (_ w2) as [[w3 t3] r3].
  - cbn [ret]. rewrite Hrest. now destruct (_ w1) as [[w3 t3] r3].
Qed.

(** The run of [handle] after the validation, on an event that has not
    merged. *)
Lemma handle_after_validate R (e : event.t) (options : BugzillaBranchOptions.t) (w w0 : W)
      (t0 : list Call) (needsValid needsInvalid : bool) (response : string) :
  event.merged e = false ->
  validate e options w = (w0, t0, Val (needsValid, needsInvalid, response)) ->
  exists wl labels w1 posted,
    reconcileLabels (R:=option error) e needsValid needsInvalid w0 = (wl, labels, Val tt) /\
    handle (R:=R) e options w =
    (w1,
     (t0 ++ labels ++
      [CreateCommentCall (event.org e) (event.repo e) (event.number e)
         (FormatResponseRaw (event.body e) (event.htmlUrl e) (event.login e) response)
         posted])%list,
     Val posted).
Proof.
  intros Hm Hv. unfold handle. rewrite Hm.
  pose proof (reconcileLabels_run (option error) e needsValid needsInvalid w0) as Hl.
  cbv zeta in Hl.
  match type of Hl with
  | _ = (?wl, ?labels, resultOf ?s2) =>
      assert (Hs2 : resultOf s2 = Val tt);
      [ unfold syncLabel, bind, gc_AddLabel, gc_RemoveLabel, ret;
        destruct (_ && _); [now destruct (AddLabel _ _ _ _ _)|];
        destruct (_ && _); [now destruct (RemoveLabel _ _ _ _ _)|reflexivity]
      | rewrite Hs2 in Hl; exists wl, labels ]
  end.
  match type of Hl with
  | _ = (?wl, _, _) =>
      destruct (CreateComment (event.org e) (event.repo e) (event.number e)
                  (FormatResponseRaw (event.body e) (event.htmlUrl e) (event.login e) response)
                  wl) as [w1 posted] eqn:Ec
  end.
  exists w1, posted. split; [exact Hl|].
  unfold func, bind at 1 2. cbn [ret]. rewrite Hv. cbv beta iota.
  unfold bind at 1. rewrite Hl. unfold bind, comment, gc_CreateComment, return_. rewrite Ec.
  cbn [app]. rewrite ?app_nil_r. reflexivity.
Qed.

Lemma handle_not_merged R (e : event.t) (options : BugzillaBranchOptions.t) (w : W) :
  event.merged e = false ->
  handle (R:=R) e options w =
  func ('(needsValidLabel, needsInvalidLabel, response) <- validate e options ;;
        reconcileLabels e needsValidLabel needsInvalidLabel ;;;
        r <- comment e response ;;
        return_ r) w.
Proof.
  intros Hm. unfold handle. rewrite Hm. unfold func, bind at 1, ret.
  now destruct (bind _ _ w) as [[w1 t1] r1].
Qed.

(** C10.  On an event with the assign flag, when the bug that the tracker
    returns has no QA contact or a QA contact without an email: no
    directory query is made; the validation is the one of the same event
    without the flag, same calls and same verdict, with a note appended
    to the response of a valid verdict; and for a valid verdict the
    labels are reconciled by the same calls and the comment is the one
    without the flag followed by the note.  The note says that the bug
    does not have a QA contact, or that its QA contact does not have a
    listed email, and that the assignment is skipped. *)
Theorem qa_assignment_skipped (R : Type) (e : event.t) (options : BugzillaBranchOptions.t)
        (w : W) (bug : Bug.t) :
  event.merged e = false -> event.missing e = false -> event.assign e = true ->
  snd (GetBug (event.bugId e) w) = (Some bug, None) ->
  noQAEmail bug ->
  let plain := event.set_assign false e in
  let note :=
    match Bug.QAContactDetail bug with
    | None =>
        bugLink (event.bugId e) Endpoint ++ " does not have a QA contact, skipping assignment"
    | Some _ =>
        "QA contact for " ++ bugLink (event.bugId e) Endpoint ++
        " does not have a listed email, skipping assignment"
    end in
  let posts (response : string) (posted : option error) :=
    CreateCommentCall (event.org e) (event.repo e) (event.number e)
      (FormatResponseRaw (event.body e) (event.htmlUrl e) (event.login e) response) posted in
  count isQuery (callsOf (handle (R:=R) e options w)) = 0%nat /\
  validate e options w = mapVal (withNote note) (validate plain options w) /\
  (forall w0 t0 response,
      validate plain options w = (w0, t0, Val (true, false, response)) ->
      exists labels w1 posted w1' posted',
        handle (R:=R) e options w =
        (w1, (t0 ++ labels ++ [posts (response ++ note)%string posted])%list, Val posted) /\
        handle (R:=R) plain options w =
        (w1', (t0 ++ labels ++ [posts response posted'])%list, Val posted') /\
        count isCreateComment labels = 0%nat).
Proof.
  intros Hm Hmiss Ha Hbug Hq plain note posts.
  change note with (skipNote e bug). clear note.
  pose proof (validate_skips e options w bug Hmiss Ha Hbug Hq) as Hv. fold plain in Hv.
  split; [|split; [exact Hv|]].
  - assert (Hquiet : quiet (callsOf (handle (R:=R) e options w))).
    { rewrite (handle_not_merged R e options w Hm). apply quiet_func.
      apply quiet_bind.
      - rewrite Hv, callsOf_mapVal. now apply quiet_validate.
      - intros [[nv ni] response] w2. repeat quiet_step. }
    unfold quiet in Hquiet. unfold count.
    induction (callsOf (handle e options w)) as [|c t IH]; [reflexivity|].
    cbn [forallb filter] in *. apply andb_true_iff in Hquiet as [Hc Ht].
    destruct (isQuery c); [discriminate|auto].
  - intros w0 t0 response Hplain. rewrite Hplain in Hv. cbn [mapVal withNote] in Hv.
    destruct (handle_after_validate R e options w w0 t0 true false _ Hm Hv)
      as (wl & labels & w1 & posted & Hl & He).
    destruct (handle_after_validate R plain options w w0 t0 true false response Hm Hplain)
      as (wl' & labels' & w1' & posted' & Hl' & He').
    change (reconcileLabels (R:=option error) plain true false w0)
      with (reconcileLabels (R:=option error) e true false w0) in Hl'.
    rewrite Hl in Hl'. injection Hl' as <- <-.
    exists labels, w1, posted, w1', posted'. repeat split; [exact He|exact He'|].
    pose proof (reconcileLabels_run (option error) e true false w0) as Hrun.
    cbv zeta in Hrun. rewrite Hl in Hrun. injection Hrun as _ -> _.
    rewrite count_cons, count_app. cbn [isCreateComment].
    assert (Hsync : forall label needs has w',
               count isCreateComment
                 (callsOf (syncLabel (R:=option error) e label needs has w')) = 0%nat).
    { intros. unfold syncLabel, bind, gc_AddLabel, gc_RemoveLabel, ret.
      destruct (_ && _); [now destruct (AddLabel _ _ _ _ _)|].
      destruct (_ && _); [now destruct (RemoveLabel _ _ _ _ _)|reflexivity]. }
    now rewrite !Hsync.
Qed.

End QAContact.

(* ----------------------------------------------------------------- *)
(** ** More on the title pattern and on the digester *)

Lemma allChars_app (p : ascii -> bool) (a b : string) :
  allChars p (a ++ b) = allChars p a && allChars p b.
Proof. induction a as [|c a IH]; simpl; [reflexivity|]. now rewrite IH, andb_assoc. Qed.

Lemma append_split (s x p r : string) :
  s ++ x = p ++ r ->
  (exists y, s = p ++ y /\ r = y ++ x) \/ (exists y, p = s ++ y /\ x = y ++ r).
Proof.
  revert p. induction s as [|c s IH]; intros p H.
  - right. exists p. simpl in *. auto.
  - destruct p as [|d p].
    + left. exists (String c s). simpl in *. auto.
    + simpl in H. injection H as -> H. destruct (IH _ H) as [(y & -> & ->)|(y & -> & ->)].
      * left. exists y. auto.
      * right. exists y. auto.
Qed.

Lemma BugRef_append (ds s x : string) : BugRef ds s -> BugRef ds (s ++ x).
Proof.
  intros (b & u & g & rest & -> & Hb & Hu & Hg & Hds & Hne).
  exists b, u, g, (rest ++ x). repeat split; auto.
  simpl. now rewrite append_assoc.
Qed.

Lemma BugRef_starts_with_b (ds s : string) :
  BugRef ds s -> exists c s', s = String c s' /\ notB c = false.
Proof.
  intros (b & u & g & rest & -> & Hb & _). eexists _, _. split; [reflexivity|].
  unfold notB. apply negb_false_iff, ci_spec. tauto.
Qed.

Lemma digit_notB (c : ascii) : isDigit c = true -> notB c = true.
Proof.
  intros H. unfold notB, ci.
  destruct (Ascii.eqb_spec c "b"%char) as [->|]; [discriminate H|].
  destruct (Ascii.eqb_spec c "B"%char) as [->|]; [discriminate H|]. reflexivity.
Qed.

Lemma digits_notB (ds : string) : allChars isDigit ds = true -> allChars notB ds = true.
Proof.
  induction ds as [|c ds IH]; simpl; [reflexivity|].
  intros H. apply andb_true_iff in H as [Hc H]. now rewrite (digit_notB _ Hc), IH.
Qed.

(** A reference that needs characters appended to [s] to be complete
    leaves no room for a reference that starts later in [s]. *)
Lemma BugRef_late (s x d : string) :
  (forall ds, ~ BugRef ds s) -> BugRef d (s ++ x) ->
  forall a t ds, s = a ++ t -> a <> EmptyString -> ~ BugRef ds t.
Proof.
  intros Hnone (b & u & g & rest & E & Hb & Hu & Hg & Hd & Hne) a t ds -> Ha Ht.
  change (String b (String u (String g (String " " (d ++ String ":" rest)))))
    with (String b (String u (String g (String " " EmptyString))) ++ (d ++ String ":" rest)) in E.
  replace (d ++ String ":" rest) with ((d ++ String ":" EmptyString) ++ rest) in E
    by (now rewrite append_assoc).
  rewrite <- append_assoc in E.
  apply append_split in E as [(y & E & _)|(y & E & _)].
  - apply (Hnone d). exists b, u, g, y. repeat split; auto.
    rewrite E. simpl. now rewrite append_assoc.
  - destruct a as [|a0 a]; [congruence|]. simpl in E. injection E as _ E.
    assert (Hall : allChars notB (String u (String g (String " " (d ++ String ":" EmptyString)))) = true).
    { simpl. rewrite allChars_app, (digits_notB _ Hd).
      destruct Hu as [-> | ->], Hg as [-> | ->]; reflexivity. }
    rewrite E in Hall. rewrite !allChars_app in Hall.
    apply andb_true_iff in Hall as [Hall _]. apply andb_true_iff in Hall as [_ Hall].
    destruct (BugRef_starts_with_b _ _ Ht) as (c & t' & -> & Hc).
    simpl in Hall. rewrite Hc in Hall. discriminate.
Qed.

Lemma lazyStar_bugHere_append (x r : string) (s : string) :
  reLazyStar anyButNewline bugHere s = Some r ->
  reLazyStar anyButNewline bugHere (s ++ x) = Some r.
Proof.
  induction s as [|c s IH].
  - simpl. discriminate.
  - intros H. cbn [reLazyStar] in H. cbn [append reLazyStar].
    change (String c (s ++ x)) with (String c s ++ x).
    destruct (bugHere (String c s)) as [r'|] eqn:Ehere.
    + injection H as ->. apply bugHere_spec in Ehere.
      apply (BugRef_append _ _ x), bugHere_spec in Ehere. now rewrite Ehere.
    + destruct (anyButNewline c) eqn:Ec; [|discriminate].
      destruct (bugHere (String c s ++ x)) as [d|] eqn:Elate.
      * exfalso. apply bugHere_spec in Elate.
        destruct (lazyStar_some _ _ _ _ _ H) as (pre & suf & E & _ & Hk & _).
        apply bugHere_spec in Hk.
        refine (BugRef_late (String c s) x d _ Elate (String c pre) suf r _ _ Hk).
        -- intros ds Hds. apply bugHere_spec in Hds. congruence.
        -- simpl. now rewrite E.
        -- discriminate.
      * auto.
Qed.

(** X1.  What follows a bug reference does not matter: when [titleMatch]
    finds the digits [ds] in a title, it finds the same digits in every
    title that extends it. *)
Theorem titleMatch_extension (title extra ds : string) :
  titleMatch_FindStringSubmatch title = Some ds ->
  titleMatch_FindStringSubmatch (title ++ extra) = Some ds.
Proof. rewrite !titleMatch_unfold. apply lazyStar_bugHere_append. Qed.

Lemma Atoi_out_of_range (ds : string) (n : Z) :
  ds <> EmptyString -> parseDigits 0 ds = Some n -> maxInt < n ->
  Atoi ds = (maxInt, Some ErrRange).
Proof.
  intros Hne Hn Hmax. unfold Atoi. destruct ds as [|c ds]; [congruence|].
  assert (Hc : isDigit c = true).
  { simpl in Hn. destruct (isDigit c); [reflexivity|discriminate]. }
  assert (Ascii.eqb c "+" = false) as ->.
  { destruct (Ascii.eqb_spec c "+"%char) as [->|]; [discriminate Hc|reflexivity]. }
  assert (Ascii.eqb c "-" = false) as ->.
  { destruct (Ascii.eqb_spec c "-"%char) as [->|]; [discriminate Hc|reflexivity]. }
  rewrite Hn.
  assert ((n <? minInt) = false) as ->.
  { apply Z.ltb_ge. unfold minInt, maxInt in *. lia. }
  assert ((maxInt <? n) = true) as -> by (apply Z.ltb_lt; lia).
  reflexivity.
Qed.

(** [Atoi] on the digits of a reference: the value, or the range error. *)
Lemma Atoi_reference (ds : string) :
  allChars isDigit ds = true -> ds <> EmptyString ->
  exists n, parseDigits 0 ds = Some n /\
            Atoi ds = if maxInt <? n then (maxInt, Some ErrRange) else (n, None).
Proof.
  intros Hds Hne. destruct (parseDigits_total ds 0 Hds) as [n Hn]. exists n. split; [assumption|].
  destruct (maxInt <? n) eqn:E.
  - apply Z.ltb_lt in E. now apply (Atoi_out_of_range ds n).
  - apply Z.ltb_ge in E. now apply (Atoi_digits ds n).
Qed.

Section DigestMore.
Context {ext : Externals}.

(** X2.  [digestPR] returns an error in one case only: the event is one
    it acts on and the digits of the first bug reference of the title
    denote a number beyond the largest int. The error is then the range
    error of [strconv.Atoi], and no event comes with it. *)
Theorem digestPR_error (pre : PullRequestEvent.t) (validateByDefault : option bool)
        (ev : option event.t) (err : error) :
  digestPR pre validateByDefault = (ev, Some err) <->
  ev = None /\ actsOn pre = true /\
  exists ds n,
    FirstBugRef ds (PullRequest.Title (PullRequestEvent.PullRequest pre)) /\
    parseDigits 0 ds = Some n /\ maxInt < n /\ err = numError ds ErrRange.
Proof.
  unfold digestPR. destruct (actsOn pre); simpl.
  2:{ split; [discriminate|]. intros (_ & H & _). discriminate. }
  destruct (titleMatch_FindStringSubmatch _) as [ds|] eqn:E.
  - pose proof (titleMatch_some _ _ E) as Hfirst.
    destruct (FirstBugRef_digits _ _ Hfirst) as [Hds Hne].
    destruct (Atoi_reference ds Hds Hne) as (n & Hn & HA). rewrite HA.
    destruct (maxInt <? n) eqn:El.
    + apply Z.ltb_lt in El. split.
      * intros [= <- <-]. repeat split. eauto 10.
      * intros (-> & _ & ds' & n' & Hfirst' & Hn' & _ & ->).
        apply titleMatch_first in Hfirst'. congruence.
    + apply Z.ltb_ge in El. split.
      * destruct (unmarshalTitleFrom _) as [from|]; [|discriminate].
        destruct (titleMatch_FindStringSubmatch from) as [pm|]; [|discriminate].
        destruct (Atoi pm) as [prevId [perr|]]; [discriminate|].
        destruct (prevId =? _); discriminate.
      * intros (_ & _ & ds' & n' & Hfirst' & Hn' & Hlt & _).
        apply titleMatch_first in Hfirst'. assert (ds' = ds) by congruence. subst.
        assert (n' = n) by congruence. lia.
  - split.
    + destruct (unmarshalTitleFrom _) as [from|]; [|discriminate].
      destruct (titleMatch_FindStringSubmatch from) as [pm|]; [|discriminate].
      destruct (Atoi pm) as [prevId [perr|]]; [discriminate|].
      destruct (prevId =? _); discriminate.
    + intros (_ & _ & ds' & n' & Hfirst' & _). apply titleMatch_first in Hfirst'. congruence.
Qed.

(** X3.  A title edit that changes the bug reference is always acted on,
    whatever [validateByDefault] says: when the previous title referenced
    the bug [prevId] and the title now references another bug, the event
    carries the new id; when the title references no bug any more, the
    event is [missing] -- unless [prevId] is 0, the id that a [missing]
    event carries, in which case nothing is produced. *)
Theorem digestPR_changed_reference (pre : PullRequestEvent.t)
        (validateByDefault : option bool) (from : string) (prevId : Z) :
  actsOn pre = true ->
  unmarshalTitleFrom (PullRequestEvent.Changes pre) = Some from ->
  titleBugId from = Some prevId ->
  let title := PullRequest.Title (PullRequestEvent.PullRequest pre) in
  (forall id,
      titleBugId title = Some id -> id <> prevId ->
      exists e, digestPR pre validateByDefault = (Some e, None) /\
                event.bugId e = id /\ event.missing e = false) /\
  (NoBugRef title ->
   exists e, event.missing e = true /\ event.bugId e = 0 /\
             digestPR pre validateByDefault =
             (if prevId =? 0 then None else Some e, None)).
Proof.
  intros Hact Hch Hprev title. unfold digestPR. rewrite Hact, Hch. fold title. simpl.
  unfold titleBugId in Hprev.
  destruct (titleMatch_FindStringSubmatch from) as [pm|]; [|discriminate].
  destruct (Atoi pm) as [j [perr|]]; [discriminate|]. injection Hprev as ->.
  split.
  - intros id Hid Hne. unfold titleBugId in Hid.
    destruct (titleMatch_FindStringSubmatch title) as [ds|]; [|discriminate].
    destruct (Atoi ds) as [i [err|]]; [discriminate|]. injection Hid as ->. simpl.
    destruct (prevId =? id) eqn:E; [apply Z.eqb_eq in E; congruence|].
    eexists. split; [reflexivity|]. split; reflexivity.
  - intros Hnone. apply titleMatch_none in Hnone. rewrite Hnone. simpl.
    eexists. split; [|split; [|destruct (prevId =? 0); reflexivity]]; reflexivity.
Qed.

End DigestMore.

(** ** Printing a bug id and reading it back *)

Lemma parseDigits_of_uint_acc (d : Decimal.uint) :
  forall acc : positive,
    parseDigits (Z.pos acc) (NilEmpty.string_of_uint d) = Some (Z.pos (Pos.of_uint_acc d acc)).
Proof.
  induction d; intros acc; cbn [NilEmpty.string_of_uint Pos.of_uint_acc parseDigits];
    try reflexivity;
    match goal with
    | |- (if isDigit ?c then parseDigits (_ + digitVal ?c) _ else _) = _ =>
        change (isDigit c) with true; cbv iota;
        let v := eval vm_compute in (digitVal c) in change (digitVal c) with v
    end;
    rewrite <- IHd; f_equal; lia.
Qed.

Lemma parseDigits_of_uint (d : Decimal.uint) :
  parseDigits 0 (NilEmpty.string_of_uint d) = Some (Z.of_N (Pos.of_uint d)).
Proof.
  induction d; cbn [NilEmpty.string_of_uint Pos.of_uint parseDigits]; try reflexivity;
    match goal with
    | |- (if isDigit ?c then parseDigits (_ + digitVal ?c) _ else _) = _ =>
        change (isDigit c) with true; cbv iota;
        let v := eval vm_compute in (digitVal c) in change (digitVal c) with v
    end;
    first [ exact IHd | apply parseDigits_of_uint_acc ].
Qed.

Lemma string_of_uint_digits (d : Decimal.uint) :
  allChars isDigit (NilEmpty.string_of_uint d) = true.
Proof. induction d; cbn [NilEmpty.string_of_uint allChars]; auto. Qed.

(** [%d] prints a number that is not negative as decimal digits, at least
    one, that denote it. *)
Lemma fmt_d_digits (n : Z) :
  0 <= n ->
  allChars isDigit (fmt_d n) = true /\ fmt_d n <> EmptyString /\
  parseDigits 0 (fmt_d n) = Some n.
Proof.
  intros Hn. unfold fmt_d. destruct n as [|p|p]; [repeat split; discriminate| |lia].
  cbn [Z.to_int NilZero.string_of_int]. unfold NilZero.string_of_uint.
  pose proof (DecimalPos.Unsigned.to_uint_nonnil p) as Hnil.
  pose proof (DecimalPos.Unsigned.of_to p) as Hof.
  destruct (Pos.to_uint p) eqn:E; try congruence;
    rewrite <- E at 3; rewrite parseDigits_of_uint, E, Hof;
    (repeat split; [apply (string_of_uint_digits (_ u))|discriminate]).
Qed.

(** X22.  The id that the plugin prints is the id that it reads: a title
    that starts with "Bug", the decimal form of a bug id as [%d] prints
    it, and a colon references this bug, whatever follows. *)
Theorem bug_id_round_trip (n : Z) (rest : string) :
  0 <= n <= maxInt ->
  titleBugId ("Bug " ++ fmt_d n ++ ":" ++ rest) = Some n.
Proof.
  intros [Hn Hmax]. destruct (fmt_d_digits n Hn) as (Hds & Hne & Hv).
  unfold titleBugId.
  rewrite (titleMatch_first _ (fmt_d n)).
  - now rewrite (Atoi_digits _ _ Hne Hv Hmax).
  - apply BugRef_first. exists "B"%char, "u"%char, "g"%char, rest. repeat split; auto.
Qed.

(* ----------------------------------------------------------------- *)
(** ** More on the validator *)

Section ValidatorMore.
Context {ext : Externals}.

Lemma tally_addError msg b n v : tally b n v -> tally (b && false) (n + 1) (addError msg v).
Proof.
  destruct v as [[valid validations] errors]. unfold tally, flag, messages. simpl.
  intros [-> <-]. rewrite length_app, andb_false_r. simpl. split; [reflexivity|lia].
Qed.

Lemma tally_addValidation msg b n v :
  tally b n v -> tally (b && true) (n + 1) (addValidation msg v).
Proof.
  destruct v as [[valid validations] errors]. unfold tally, flag, messages. simpl.
  intros [-> <-]. rewrite length_app, andb_true_r. simpl. split; [reflexivity|lia].
Qed.

Lemma tally_check (c : bool) msg msg' b n v :
  tally b n v ->
  tally (b && c) (n + 1) (if negb c then addError msg v else addValidation msg' v).
Proof. destruct c; simpl; [apply tally_addValidation|apply tally_addError]. Qed.

Lemma tally_fold (step : verdict -> Bug.t -> verdict) (ok : Bug.t -> bool)
      (dependents : list Bug.t) :
  (forall b n v d, tally b n v -> tally (b && ok d) (n + 1) (step v d)) ->
  forall b n v, tally b n v ->
                tally (b && forallb ok dependents) (n + List.length dependents)
                      (fold_left step dependents v).
Proof.
  intros Hstep. induction dependents as [|d ds IH]; intros b n v H; simpl.
  - now rewrite andb_true_r, Nat.add_0_r.
  - rewrite andb_assoc. replace (n + S (List.length ds))%nat with (n + 1 + List.length ds)%nat by lia.
    apply IH, Hstep, H.
Qed.

Lemma tally_checkDependentState states endpoint b n v d :
  tally b n v ->
  tally (b && bugMatchesStates d states) (n + 1) (checkDependentState states endpoint v d).
Proof. intros H. unfold checkDependentState. now apply tally_check. Qed.

Lemma tally_checkDependentTargetRelease release endpoint b n v d :
  tally b n v ->
  tally (b && targets release d) (n + 1) (checkDependentTargetRelease release endpoint v d).
Proof.
  intros H. unfold checkDependentTargetRelease, targets.
  destruct (Bug.TargetRelease d) as [|first rest].
  - now apply tally_addError.
  - now apply tally_check.
Qed.

Lemma tally_eq b b' n n' v : tally b n v -> b = b' -> n = n' -> tally b' n' v.
Proof. now intros H <- <-. Qed.

Lemma tally_init : tally true 0 (true, [], []).
Proof. split; reflexivity. Qed.

Lemma tally_dependents_states depStates endpoint dependents b n v :
  tally b n v ->
  tally (b && whenSet depStates
                (fun states => forallb (fun d => bugMatchesStates d states) dependents))
        (n + if isSome depStates then List.length dependents else 0)
        (match depStates with
         | Some states => fold_left (checkDependentState states endpoint) dependents v
         | None => v
         end).
Proof.
  intros H. destruct depStates; cbn [whenSet isSome].
  - apply tally_fold; [|assumption]. intros. now apply tally_checkDependentState.
  - now rewrite andb_true_r, Nat.add_0_r.
Qed.

Lemma tally_dependents_release depRelease endpoint dependents b n v :
  tally b n v ->
  tally (b && whenSet depRelease (fun release => forallb (targets release) dependents))
        (n + if isSome depRelease then List.length dependents else 0)
        (match depRelease with
         | Some release => fold_left (checkDependentTargetRelease release endpoint) dependents v
         | None => v
         end).
Proof.
  intros H. destruct depRelease; cbn [whenSet isSome].
  - apply tally_fold; [|assumption]. intros. now apply tally_checkDependentTargetRelease.
  - now rewrite andb_true_r, Nat.add_0_r.
Qed.

Lemma validateBug_tally bug dependents options endpoint :
  tally (passes bug dependents options) (checksOf dependents options)
        (validateBug bug dependents options endpoint).
Proof.
  unfold validateBug, passes, checksOf, allowedStates. cbv zeta.
  destruct options as [vbd isOpen release validStates depStates depRelease sav ael sam].
  cbn [BugzillaBranchOptions.IsOpen BugzillaBranchOptions.TargetRelease
       BugzillaBranchOptions.ValidStates BugzillaBranchOptions.DependentBugStates
       BugzillaBranchOptions.DependentBugTargetRelease
       BugzillaBranchOptions.StateAfterValidation].
  assert (Hlast : forall b n v,
             tally b n v ->
             tally (b && match dependents with
                         | [] => isNone depStates && isNone depRelease
                         | _ :: _ => true
                         end)
                   (n + match dependents with
                        | [] => if isSome depStates || isSome depRelease then 1 else 0
                        | _ :: _ => 1
                        end)
                   (match dependents with
                    | [] =>
                        match depStates, depRelease with
                        | Some states, Some release =>
                            addError ("expected " ++ bugLink (Bug.ID bug) endpoint ++
                              " to depend on a bug targeting the " ++ fmt_q release ++
                              " release and in one of the following states: " ++
                              Join (prettyStates states) ", " ++
                              ", but no dependents were found") v
                        | Some states, None =>
                            addError ("expected " ++ bugLink (Bug.ID bug) endpoint ++
                              " to depend on a bug in one of the following states: " ++
                              Join (prettyStates states) ", " ++
                              ", but no dependents were found") v
                        | None, Some release =>
                            addError ("expected " ++ bugLink (Bug.ID bug) endpoint ++
                              " to depend on a bug targeting the " ++ fmt_q release ++
                              " release, but no dependents were found") v
                        | None, None => v
                        end
                    | _ :: _ => addValidation "bug has dependents" v
                    end)).
  { intros b n v H. destruct dependents.
    - destruct depStates, depRelease; cbn [isNone isSome negb andb orb];
        try (now apply tally_addError).
      now rewrite andb_true_r, Nat.add_0_r.
    - now apply tally_addValidation. }
  unfold targets at 1.
  destruct validStates as [vs|], release as [r|], isOpen as [io|];
    try destruct (Bug.TargetRelease bug) as [|first rest];
    (eapply tally_eq;
     [ apply Hlast, tally_dependents_release, tally_dependents_states;
       repeat first [ apply tally_check | apply tally_addError | apply tally_init ]
     | cbn [whenSet isSome andb]; rewrite ?andb_true_r, ?andb_false_r; reflexivity
     | cbn [isSome]; lia ]).
Qed.

(** X4.  The flag that [validateBug] returns is the conjunction of the
    checks that the Policy configures: the open state, the first target
    release, the state of the bug (among [ValidStates] and
    [StateAfterValidation]), the state and the first target release of
    every dependent, and at least one dependent when a requirement on
    dependents is configured. *)
Theorem validateBug_valid_iff_passes (bug : Bug.t) (dependents : list Bug.t)
        (options : BugzillaBranchOptions.t) (endpoint : string) :
  fst (fst (validateBug bug dependents options endpoint)) = passes bug dependents options.
Proof. apply validateBug_tally. Qed.

(** X5.  [validateBug] runs every configured check, whatever the others
    gave, and each adds one message, to the validations or to the errors:
    together they are as many as the checks. *)
Theorem validateBug_every_check_reports (bug : Bug.t) (dependents : list Bug.t)
        (options : BugzillaBranchOptions.t) (endpoint : string)
        (valid : bool) (validations errors : list string) :
  validateBug bug dependents options endpoint = (valid, validations, errors) ->
  (List.length validations + List.length errors)%nat = checksOf dependents options.
Proof.
  intros E. destruct (validateBug_tally bug dependents options endpoint) as [_ H].
  rewrite E in H. exact H.
Qed.

End ValidatorMore.

(* ----------------------------------------------------------------- *)
(** ** The command patterns *)

Lemma trimPrefix_spec (v s s' : string) : trimPrefix v s = Some s' <-> s = v ++ s'.
Proof.
  revert s. induction v as [|c v IH]; intros s; simpl.
  - split; [now intros [= ->]|now intros ->].
  - destruct s as [|d s]; [split; discriminate|].
    destruct (Ascii.eqb_spec c d) as [->|Hne].
    + rewrite IH. split; [now intros ->|now intros [= ->]].
    + split; [discriminate|]. intros [= -> _]. congruence.
Qed.

Lemma reOneOf_spec (A : Type) (vs : list string) (k : string -> option A) (s : string) :
  isSome (reOneOf vs k s) = true <->
  exists v rest, In v vs /\ s = v ++ rest /\ isSome (k rest) = true.
Proof.
  induction vs as [|v vs IH]; simpl.
  - split; [discriminate|]. now intros (? & ? & [] & _).
  - destruct (trimPrefix v s) as [s'|] eqn:E.
    + apply trimPrefix_spec in E. destruct (k s') as [r|] eqn:Ek.
      * split; [|reflexivity]. intros _. exists v, s'. rewrite Ek. auto.
      * rewrite IH. split.
        -- intros (v' & rest & Hin & Hs & Hk). exists v', rest. auto.
        -- intros (v' & rest & [<-|Hin] & Hs & Hk).
           ++ rewrite E in Hs. apply append_eq_length in Hs as [_ <-]; [|reflexivity].
              rewrite Ek in Hk. discriminate.
           ++ exists v', rest. auto.
    + rewrite IH. split.
      * intros (v' & rest & Hin & Hs & Hk). exists v', rest. auto.
      * intros (v' & rest & [<-|Hin] & Hs & Hk).
        -- apply trimPrefix_spec in Hs. congruence.
        -- exists v', rest. auto.
Qed.

Lemma reLiteralFold_spec (A : Type) (literal : string) (k : string -> option A) (s : string) :
  isSome (reLiteralFold literal k s) = true <->
  exists text rest, Variant literal text /\ s = text ++ rest /\ isSome (k rest) = true.
Proof.
  revert s. induction literal as [|c literal IH]; intros s; cbn [reLiteralFold Variant].
  - split.
    + intros H. exists EmptyString, s. auto.
    + intros (text & rest & -> & -> & H). exact H.
  - rewrite reOneOf_spec. split.
    + intros (v & rest & Hin & -> & H). apply IH in H as (text & rest' & Hv & -> & Hk).
      exists (v ++ text), rest'. split; [|split; [now rewrite append_assoc|exact Hk]].
      exists v, text. auto.
    + intros (text & rest & (v & text' & Hin & -> & Hv) & -> & Hk).
      exists v, (text' ++ rest). split; [exact Hin|]. split; [now rewrite append_assoc|].
      apply IH. exists text', rest. auto.
Qed.

Lemma reGreedyStar_spec (A : Type) (p : ascii -> bool) (k : string -> option A) (s : string) :
  isSome (reGreedyStar p k s) = true <->
  exists spaces rest, s = spaces ++ rest /\ allChars p spaces = true /\ isSome (k rest) = true.
Proof.
  induction s as [|c s IH]; cbn [reGreedyStar].
  - split.
    + intros H. exists EmptyString, EmptyString. auto.
    + intros (spaces & rest & Hs & _ & Hk). destruct spaces; [|discriminate].
      simpl in Hs. now subst rest.
  - split.
    + destruct (p c) eqn:Ep.
      * destruct (reGreedyStar p k s) as [r|] eqn:E.
        -- intros _. destruct IH as [IH _]. destruct (IH eq_refl) as (spaces & rest & -> & Hp & Hk).
           exists (String c spaces), rest. simpl. rewrite Ep. auto.
        -- intros H. exists EmptyString, (String c s). auto.
      * intros H. exists EmptyString, (String c s). auto.
    + intros (spaces & rest & Hs & Hp & Hk). destruct spaces as [|d spaces].
      * simpl in Hs. subst rest. destruct (p c); [|exact Hk].
        destruct (reGreedyStar p k s); [reflexivity|exact Hk].
      * simpl in Hs, Hp. injection Hs as <- ->. apply andb_true_iff in Hp as [-> Hp].
        assert (H : isSome (reGreedyStar p k (spaces ++ rest)) = true)
          by (apply IH; exists spaces, rest; auto).
        destruct (reGreedyStar p k (spaces ++ rest)); [reflexivity|discriminate H].
Qed.

Lemma reEndLine_spec (s : string) :
  isSome (reEndLine (fun _ => Some tt) s) = true <->
  s = EmptyString \/ exists a, s = nl ++ a.
Proof.
  destruct s as [|c s]; simpl.
  - split; auto.
  - destruct (Ascii.eqb_spec c "010"%char) as [->|Hne]; simpl.
    + split; [|reflexivity]. intros _. right. exists s. reflexivity.
    + split; [discriminate|]. intros [H|(a & H)]; [discriminate|].
      unfold nl in H. simpl in H. congruence.
Qed.

Lemma append_nl_end (b : string) (c : ascii) :
  (exists b', String c b = b' ++ nl) <->
  (b = EmptyString /\ c = "010"%char) \/ (exists b', b = b' ++ nl).
Proof.
  split.
  - intros (b' & H). destruct b' as [|d b'].
    + unfold nl in H. simpl in H. injection H as -> ->. auto.
    + simpl in H. injection H as -> ->. right. eauto.
  - intros [[-> ->]|(b' & ->)].
    + exists EmptyString. reflexivity.
    + exists (String c b'). reflexivity.
Qed.

Lemma reSearchLines_spec (A : Type) (body : string -> option A) (s : string) :
  forall atStart,
    isSome (reSearchLines body atStart s) = true <->
    exists before rest,
      s = before ++ rest /\
      ((before = EmptyString /\ atStart = true) \/ exists b, before = b ++ nl) /\
      isSome (body rest) = true.
Proof.
  induction s as [|c s IH]; intros atStart; cbn [reSearchLines].
  - split.
    + destruct atStart; [|discriminate]. intros H. exists EmptyString, EmptyString.
      destruct (body EmptyString); [auto|discriminate H].
    + intros (before & rest & Hs & Hb & Hk).
      destruct before; [|discriminate]. simpl in Hs. subst rest.
      destruct Hb as [[_ ->]|(b & Hb)].
      * destruct (body EmptyString); [reflexivity|discriminate Hk].
      * destruct b; discriminate Hb.
  - split.
    + destruct (if atStart then body (String c s) else None) as [r|] eqn:E.
      * intros _. destruct atStart; [|discriminate]. exists EmptyString, (String c s).
        rewrite E. auto.
      * intros H. apply IH in H as (before & rest & -> & Hb & Hk).
        exists (String c before), rest. split; [reflexivity|]. split; [|exact Hk].
        right. apply append_nl_end. destruct Hb as [[-> Hc]|Hb]; [|auto].
        left. split; [reflexivity|]. now apply Ascii.eqb_eq.
    + intros (before & rest & Hs & Hb & Hk). destruct before as [|d before].
      * simpl in Hs. subst rest. destruct Hb as [[_ ->]|(b & Hb)].
        -- destruct (body (String c s)); [reflexivity|discriminate Hk].
        -- destruct b; discriminate Hb.
      * simpl in Hs. injection Hs as <- ->.
        assert (H : isSome (reSearchLines body (Ascii.eqb c "010"%char) (before ++ rest)) = true).
        { apply IH. exists before, rest. split; [reflexivity|]. split; [|exact Hk].
          destruct Hb as [[H _]|Hb]; [discriminate H|].
          apply append_nl_end in Hb as [[-> ->]|Hb]; auto. }
        destruct (if atStart then _ else _); [reflexivity|exact H].
Qed.

Lemma commandMatch_spec (command body : string) :
  commandMatch command body = true <-> CommandLine command body.
Proof.
  unfold commandMatch, CommandLine. rewrite reSearchLines_spec. split.
  - intros (before & rest & -> & Hb & H).
    apply reLiteralFold_spec in H as (text & rest' & Hv & -> & H).
    apply reGreedyStar_spec in H as (spaces & after & -> & Hs & H).
    apply reEndLine_spec in H.
    exists before, text, spaces, after. repeat split; auto.
    destruct Hb as [[-> _]|Hb]; auto.
  - intros (before & text & spaces & after & -> & Hb & Hv & Hs & Ha).
    exists before, (text ++ spaces ++ after). split; [reflexivity|]. split.
    + destruct Hb as [->|Hb]; auto.
    + apply reLiteralFold_spec. exists text, (spaces ++ after). repeat split; auto.
      apply reGreedyStar_spec. exists spaces, after. repeat split; auto.
      now apply reEndLine_spec.
Qed.

(** X15.  What the two commands are: [refreshCommandMatch] matches a
    comment exactly when one of its lines is [/bugzilla refresh], and
    [qaCommandMatch] when one is [/bugzilla assign-qa] -- the command
    starts the line, in any mix of cases (and with the long s for an s),
    and only white space follows it on the line. *)
Theorem command_patterns (body : string) :
  (refreshCommandMatch_MatchString body = true <-> CommandLine "/bugzilla refresh" body) /\
  (qaCommandMatch_MatchString body = true <-> CommandLine "/bugzilla assign-qa" body).
Proof. split; apply commandMatch_spec. Qed.

(* ----------------------------------------------------------------- *)
(** ** The help of the plugin *)

Lemma ascii_compare_N (a b : ascii) :
  Ascii.compare a b = N.compare (N_of_ascii a) (N_of_ascii b).
Proof. reflexivity. Qed.

Lemma string_leb_trans (s1 s2 s3 : string) :
  String.leb s1 s2 = true -> String.leb s2 s3 = true -> String.leb s1 s3 = true.
Proof.
  unfold String.leb. revert s2 s3.
  induction s1 as [|a s1 IH]; intros [|b s2] [|c s3]; cbn [String.compare];
    try reflexivity; try discriminate.
  rewrite !ascii_compare_N.
  destruct (N.compare_spec (N_of_ascii a) (N_of_ascii b)) as [Eab|Lab|Lab];
    try discriminate;
    destruct (N.compare_spec (N_of_ascii b) (N_of_ascii c)) as [Ebc|Lbc|Lbc];
    try discriminate; intros H1 H2.
  - rewrite Eab, Ebc, N.compare_refl. now apply (IH s2).
  - rewrite Eab. now apply N.compare_lt_iff in Lbc as ->.
  - rewrite <- Ebc. now apply N.compare_lt_iff in Lab as ->.
  - assert (L : (N_of_ascii a < N_of_ascii c)%N) by lia.
    now apply N.compare_lt_iff in L as ->.
Qed.

Lemma insertString_swap (x y : string) (l : list string) :
  insertString x (insertString y l) = insertString y (insertString x l).
Proof.
  induction l as [|z l IH]; cbn [insertString].
  - destruct (String.leb x y) eqn:Exy, (String.leb y x) eqn:Eyx; try reflexivity.
    + now rewrite (String.leb_antisym _ _ Exy Eyx).
    + destruct (String.leb_total x y); congruence.
  - destruct (String.leb y z) eqn:Eyz, (String.leb x z) eqn:Exz; cbn [insertString];
      rewrite ?Eyz, ?Exz.
    + destruct (String.leb x y) eqn:Exy, (String.leb y x) eqn:Eyx; rewrite ?Exz, ?Eyz;
        try reflexivity.
      * now rewrite (String.leb_antisym _ _ Exy Eyx).
      * destruct (String.leb_total x y); congruence.
    + destruct (String.leb x y) eqn:Exy.
      * rewrite (string_leb_trans _ _ _ Exy Eyz) in Exz. discriminate.
      * reflexivity.
    + destruct (String.leb y x) eqn:Eyx.
      * rewrite (string_leb_trans _ _ _ Eyx Exz) in Eyz. discriminate.
      * reflexivity.
    + now rewrite IH.
Qed.

Lemma sortStrings_Permutation (l l' : list string) :
  Permutation l l' -> sortStrings l = sortStrings l'.
Proof.
  induction 1 as [|x l l' _ IH|x y l|l l' l'' _ IH1 _ IH2]; cbn [sortStrings fold_right].
  - reflexivity.
  - fold (sortStrings l) (sortStrings l'). now rewrite IH.
  - apply insertString_swap.
  - congruence.
Qed.

Section HelpOrder.
Context {ext : Externals}.
Variable BugzillaOptionsWildcard : string.

Lemma find_key_In (opts : list (string * BugzillaBranchOptions.t)) (branch : string)
      (o : BugzillaBranchOptions.t) :
  NoDup (map fst opts) -> In (branch, o) opts ->
  find (fun entry => String.eqb (fst entry) branch) opts = Some (branch, o).
Proof.
  induction opts as [|[k v] opts IH]; cbn [map find fst]; intros Hnd Hin; [contradiction|].
  inversion Hnd as [|? ? Hk Hnd']; subst. destruct Hin as [[= -> ->]|Hin].
  - now rewrite String.eqb_refl.
  - destruct (String.eqb_spec k branch) as [->|_]; [|auto].
    exfalso. apply Hk. change branch with (fst (branch, o)). now apply in_map.
Qed.

Lemma optionsAt_Permutation (opts opts' : list (string * BugzillaBranchOptions.t))
      (branch : string) :
  NoDup (map fst opts) -> Permutation opts opts' -> optionsAt opts branch = optionsAt opts' branch.
Proof.
  intros Hnd Hp. unfold optionsAt.
  assert (Hnd' : NoDup (map fst opts')).
  { eapply Permutation_NoDup; [|exact Hnd]. now apply Permutation_map. }
  destruct (find _ opts) as [[k v]|] eqn:E.
  - pose proof (find_some _ _ E) as [Hin Hk]. cbn [fst] in Hk. apply String.eqb_eq in Hk.
    subst k. now rewrite (find_key_In opts' branch v Hnd' (Permutation_in _ Hp Hin)).
  - destruct (find _ opts') as [[k v]|] eqn:E'; [|reflexivity].
    pose proof (find_some _ _ E') as [Hin Hk].
    pose proof (find_none _ _ E _ (Permutation_in _ (Permutation_sym Hp) Hin)) as Hn.
    congruence.
Qed.

(** X21.  The help of a repository does not depend on the order in which
    Go ranges over the map of its options: for two enumerations of the
    same entries, with distinct branches, the text is the same. *)
Theorem repoConfigInfo_order_independent
        (opts opts' : list (string * BugzillaBranchOptions.t)) :
  NoDup (map fst opts) -> Permutation opts opts' ->
  repoConfigInfo BugzillaOptionsWildcard opts = repoConfigInfo BugzillaOptionsWildcard opts'.
Proof.
  intros Hnd Hp. unfold repoConfigInfo.
  rewrite (sortStrings_Permutation _ _ (Permutation_map fst Hp)).
  do 3 f_equal. apply map_ext. intros branch.
  now rewrite (optionsAt_Permutation opts opts' branch Hnd Hp).
Qed.

End HelpOrder.

(* ----------------------------------------------------------------- *)
(** ** The calls of the handlers *)

Section Calls.
Context {ext : Externals} {W : Type} {gc : githubClient W} {bc : bugzillaClient W}.

Lemma gc_GetPullRequest_prim R org repo number :
  gc_GetPullRequest (R:=R) org repo number =
  prim (GetPullRequest org repo number) (GetPullRequestCall org repo number).
Proof. reflexivity. Qed.

Lemma gc_CreateComment_prim R owner repo number body :
  gc_CreateComment (R:=R) owner repo number body =
  prim (CreateComment owner repo number body) (CreateCommentCall owner repo number body).
Proof. reflexivity. Qed.

Lemma comment_prim R e body :
  comment (R:=R) e body =
  prim (CreateComment (event.org e) (event.repo e) (event.number e)
          (FormatResponseRaw (event.body e) (event.htmlUrl e) (event.login e) body))
       (commentCall e body).
Proof. reflexivity. Qed.

Lemma gc_GetIssueLabels_prim R org repo number :
  gc_GetIssueLabels (R:=R) org repo number =
  prim (GetIssueLabels org repo number) (GetIssueLabelsCall org repo number).
Proof. reflexivity. Qed.

Lemma gc_AddLabel_prim R owner repo number label :
  gc_AddLabel (R:=R) owner repo number label =
  prim (AddLabel owner repo number label) (AddLabelCall owner repo number label).
Proof. reflexivity. Qed.

Lemma gc_RemoveLabel_prim R owner repo number label :
  gc_RemoveLabel (R:=R) owner repo number label =
  prim (RemoveLabel owner repo number label) (RemoveLabelCall owner repo number label).
Proof. reflexivity. Qed.

Lemma gc_Query_prim R email : gc_Query (R:=R) email = prim (Query email) (QueryCall email).
Proof. reflexivity. Qed.

Lemma bc_GetBug_prim R id : bc_GetBug (R:=R) id = prim (GetBug id) (GetBugCall id).
Proof. reflexivity. Qed.

Lemma bc_GetExternalBugPRsOnBug_prim R id :
  bc_GetExternalBugPRsOnBug (R:=R) id =
  prim (GetExternalBugPRsOnBug id) (GetExternalBugPRsOnBugCall id).
Proof. reflexivity. Qed.

Lemma bc_UpdateBug_prim R id update :
  bc_UpdateBug (R:=R) id update = prim (UpdateBug id update) (UpdateBugCall id update).
Proof. reflexivity. Qed.

Lemma bc_AddPullRequestAsExternalBug_prim R id org repo num :
  bc_AddPullRequestAsExternalBug (R:=R) id org repo num =
  prim (AddPullRequestAsExternalBug id org repo num)
       (AddPullRequestAsExternalBugCall id org repo num).
Proof. reflexivity. Qed.

Ltac as_prim :=
  rewrite ?comment_prim, ?gc_GetPullRequest_prim, ?gc_CreateComment_prim,
    ?gc_GetIssueLabels_prim, ?gc_AddLabel_prim, ?gc_RemoveLabel_prim, ?gc_Query_prim,
    ?bc_GetBug_prim, ?bc_GetExternalBugPRsOnBug_prim, ?bc_UpdateBug_prim,
    ?bc_AddPullRequestAsExternalBug_prim.

Lemma prim_run R A (f : W -> W * A) (mk : A -> Call) (w : W) :
  prim (R:=R) f mk w = (fst (f w), [mk (snd (f w))], Val (snd (f w))).
Proof. unfold prim. now destruct (f w). Qed.

(** *** Bounds on the number of calls *)

Lemma atMost_ret R A p n (a : A) (w : W) : atMost (R:=R) p n (ret a w).
Proof. unfold atMost, count. simpl. lia. Qed.

Lemma atMost_return R A p n (r : R) (w : W) : atMost (A:=A) p n (return_ r w).
Proof. unfold atMost, count. simpl. lia. Qed.

Lemma atMost_panic R A p n (w : W) : atMost (R:=R) (A:=A) p n (panic w).
Proof. unfold atMost, count. simpl. lia. Qed.

Lemma atMost_prim R A p n (f : W -> W * A) (mk : A -> Call) (w : W) :
  (forall r, p (mk r) = false) -> atMost (R:=R) p n (prim f mk w).
Proof.
  intros H. unfold atMost. rewrite prim_run, callsOf_run, count_cons, H. unfold count. simpl. lia.
Qed.

Lemma atMost_prim_one R A p n (f : W -> W * A) (mk : A -> Call) (w : W) :
  atMost (R:=R) p (S n) (prim f mk w).
Proof.
  unfold atMost. rewrite prim_run, callsOf_run, count_cons. unfold count. simpl.
  destruct (p _); lia.
Qed.

Lemma atMost_bind R A B p (a b : nat) (m : M W R A) (f : A -> M W R B) (w : W) :
  atMost p a (m w) -> (forall x w1, atMost p b (f x w1)) -> atMost p (a + b) (bind m f w).
Proof.
  unfold atMost, bind, callsOf. intros Hm Hf.
  destruct (m w) as [[w1 t1] [x|r|]]; cbn [fst snd] in *.
  - specialize (Hf x w1). destruct (f x w1) as [[w2 t2] r2]. cbn [fst snd] in *.
    rewrite count_app. lia.
  - lia.
  - lia.
Qed.

Lemma atMost_func R R' p n (m : M W R R) (w : W) :
  atMost p n (m w) -> atMost p n (func (R':=R') m w).
Proof. unfold atMost, func. now destruct (m w) as [[w1 t1] r]. Qed.

Lemma atMost_le R A p (n n' : nat) (x : W * list Call * res R A) :
  atMost p n x -> (n <= n')%nat -> atMost p n' x.
Proof. unfold atMost. lia. Qed.

(** No call that satisfies [p]: the statements are taken apart down to
    the methods. *)
Ltac silent_step :=
  match goal with
  | |- atMost _ _ (ret _ _) => apply atMost_ret
  | |- atMost _ _ (return_ _ _) => apply atMost_return
  | |- atMost _ _ (panic _) => apply atMost_panic
  | |- atMost _ _ (prim _ _ _) =>
      apply atMost_prim; intros; unfold commentCall; first [ reflexivity | solve [ auto ] ]
  | |- atMost _ _ (func _ _) => apply atMost_func
  | H : forall _, atMost _ _ _ |- _ => apply H
  | H : forall _ _, atMost _ _ _ |- _ => apply H
  | H : forall _ _ _, atMost _ _ _ |- _ => apply H
  | H : forall _ _ _ _, atMost _ _ _ |- _ => apply H
  | H : forall _ _ _ _ _, atMost _ _ _ |- _ => apply H
  | |- atMost _ 0 (bind _ _ _) => apply (atMost_bind _ _ _ _ 0 0); [ | intros ? ? ]
  | |- atMost _ (S _) (bind _ _ _) => apply (atMost_le _ _ _ 0); [ | lia ]
  | |- atMost _ _ ((if ?c then _ else _) _) => destruct c
  | |- atMost _ _ ((match ?x with _ => _ end) _) => destruct x
  | |- atMost _ _ ((let '(_, _) := ?x in _) _) => destruct x
  | |- atMost _ _ (assignQA _ _ _ _) => unfold assignQA
  | |- atMost _ _ (mergeGuard _ _ _) => unfold mergeGuard
  | |- atMost _ _ (mergeLinks _ _ _) => unfold mergeLinks
  | |- atMost _ _ (mergeOutcome _ _ _ _) => unfold mergeOutcome
  | |- atMost _ _ (syncLabel _ _ _ _ _) => unfold syncLabel
  | |- atMost _ _ (reconcileLabels _ _ _ _) => unfold reconcileLabels
  | |- atMost _ _ (getBug _ _ _) => unfold getBug
  | |- atMost _ _ _ => progress as_prim
  end.

Ltac silent := repeat silent_step.

Section Silent.
Variable p : Call -> bool.

Lemma silent_getBug R e n (w : W) :
  (forall id r, p (GetBugCall id r) = false) ->
  (forall o r n b x, p (CreateCommentCall o r n b x) = false) ->
  atMost p n (getBug (R:=R) (event.bugId e) (comment e) w).
Proof.
  intros Hg Hc. apply (atMost_le _ _ _ 0); [|lia]. unfold getBug. silent.
Qed.

Lemma silent_fetchDependents e ids :
  (forall id r, p (GetBugCall id r) = false) ->
  (forall o r n b x, p (CreateCommentCall o r n b x) = false) ->
  forall n dependents w, atMost p n (fetchDependents e ids dependents w).
Proof.
  intros Hg Hc n dependents w. apply (atMost_le _ _ _ 0); [|lia]. revert dependents w.
  induction ids as [|id ids IH]; intros; cbn [fetchDependents]; silent.
Qed.

Lemma silent_checkPRs e prs :
  (forall o r n x, p (GetPullRequestCall o r n x) = false) ->
  (forall o r n b x, p (CreateCommentCall o r n b x) = false) ->
  forall n shouldMigrate mergedPRs unmergedPrStates w,
    atMost p n (checkPRs e prs shouldMigrate mergedPRs unmergedPrStates w).
Proof.
  intros Hg Hc n shouldMigrate mergedPRs unmergedPrStates w.
  apply (atMost_le _ _ _ 0); [|lia]. revert shouldMigrate mergedPRs unmergedPrStates w.
  induction prs as [|item prs IH]; intros; cbn [checkPRs]; silent.
Qed.

Lemma silent_reconcileLabels R e needsValid needsInvalid n (w : W) :
  (forall c, isLabelCall c = true -> p c = false) ->
  atMost p n (reconcileLabels (R:=R) e needsValid needsInvalid w).
Proof.
  intros H. apply (atMost_le _ _ _ 0); [|lia]. unfold reconcileLabels, syncLabel.
  assert (forall o r n x, p (GetIssueLabelsCall o r n x) = false) by (intros; now apply H).
  assert (forall o r n l x, p (AddLabelCall o r n l x) = false) by (intros; now apply H).
  assert (forall o r n l x, p (RemoveLabelCall o r n l x) = false) by (intros; now apply H).
  silent.
Qed.

End Silent.

(** The same, with the lemmas of the loops. *)
Ltac hush :=
  repeat match goal with
         | |- atMost _ _ (getBug _ _ _) => apply silent_getBug; intros; reflexivity
         | |- atMost _ _ (fetchDependents _ _ _ _) =>
             apply silent_fetchDependents; intros; reflexivity
         | |- atMost _ _ (checkPRs _ _ _ _ _ _) => apply silent_checkPRs; intros; reflexivity
         | |- atMost _ _ (reconcileLabels _ _ _ _) =>
             apply silent_reconcileLabels; intros []; intros;
             first [ reflexivity | discriminate ]
         | |- _ => silent_step
         end.

Lemma assignQA_queries e bug response (w : W) : atMost isQuery 1 (assignQA e bug response w).
Proof.
  unfold assignQA. destruct (event.assign e); [|hush].
  destruct (Bug.QAContactDetail bug); [|hush]. destruct (String.eqb _ _); [hush|].
  apply (atMost_bind _ _ _ _ 1 0); [as_prim; apply atMost_prim_one|intros; hush].
Qed.

Lemma validBranch_writes e options bug validationsRun (w : W) :
  atMost isUpdateBug 1 (validBranch e options bug validationsRun w) /\
  atMost isLinkCreation 1 (validBranch e options bug validationsRun w) /\
  atMost isQuery 1 (validBranch e options bug validationsRun w).
Proof.
  unfold validBranch. repeat split.
  - apply (atMost_bind _ _ _ _ 1 0); [|intros; unfold assignQA; hush].
    destruct (AsBugUpdate _ _); [|hush].
    apply (atMost_bind _ _ _ _ 1 0); [as_prim; apply atMost_prim_one|intros; hush].
  - apply (atMost_bind _ _ _ _ 0 1); [hush|intros].
    apply (atMost_bind _ _ _ _ 1 0); [|intros; unfold assignQA; hush].
    destruct (BugzillaBranchOptions.AddExternalLink options) as [[|]|]; try (solve [hush]).
    apply (atMost_bind _ _ _ _ 1 0); [as_prim; apply atMost_prim_one|intros; hush].
  - apply (atMost_bind _ _ _ _ 0 1); [hush|intros].
    apply (atMost_bind _ _ _ _ 0 1); [hush|intros]. apply assignQA_queries.
Qed.

Lemma validate_writes e options (w : W) :
  atMost isUpdateBug 1 (validate e options w) /\
  atMost isLinkCreation 1 (validate e options w) /\
  atMost isQuery 1 (validate e options w).
Proof.
  unfold validate. destruct (event.missing e); [repeat split; hush|].
  repeat split.
  all: apply (atMost_bind _ _ _ _ 0 1); [hush|intros [[bug|] [err|]] w1; try (solve [hush])].
  all: apply (atMost_bind _ _ _ _ 0 1); [hush|intros dependents w2].
  all: destruct (validateBug _ _ _ _) as [[[|] validationsRun] why]; [|hush].
  all: apply (atMost_bind _ _ _ _ 1 0); [|intros; hush].
  all: apply validBranch_writes.
Qed.

Lemma mergeOutcome_updates e options checked (w : W) :
  atMost isUpdateBug 1 (mergeOutcome e options checked w).
Proof.
  unfold mergeOutcome. destruct checked as [[[|] mergedPRs] unmergedPrStates];
    destruct (AsBugUpdate _ _); try (solve [hush]).
  apply (atMost_bind _ _ _ _ 1 0); [as_prim; apply atMost_prim_one|intros; hush].
Qed.

Lemma handleMerge_updates R e options (w : W) :
  atMost isUpdateBug 1 (handleMerge (R:=R) e options w).
Proof.
  rewrite handleMerge_unfold. apply atMost_func.
  apply (atMost_bind _ _ _ _ 0 1); [hush|intros].
  apply (atMost_bind _ _ _ _ 0 1); [hush|intros].
  apply (atMost_bind _ _ _ _ 0 1); [unfold mergeGuard; hush|intros].
  unfold mergeLinks.
  apply (atMost_bind _ _ _ _ 0 1); [hush|intros [prs err] ?].
  apply (atMost_bind _ _ _ _ 0 1); [hush|intros].
  apply (atMost_bind _ _ _ _ 0 1); [hush|intros]. apply mergeOutcome_updates.
Qed.

Lemma handleMerge_validation_free R e options (w : W) :
  atMost isValidationOnly 0 (handleMerge (R:=R) e options w).
Proof.
  rewrite handleMerge_unfold. unfold mergeGuard, mergeLinks, mergeOutcome. hush.
Qed.

Lemma count_le (p q : Call -> bool) (t : list Call) :
  (forall c, p c = true -> q c = true) -> (count p t <= count q t)%nat.
Proof.
  intros H. induction t as [|c t IH]; [reflexivity|]. rewrite !count_cons.
  specialize (H c). destruct (p c), (q c); lia.
Qed.

(** X6.  One run of [handle] makes at most one update of a bug, creates at
    most one link in the tracker and sends at most one directory query. *)
Theorem handle_writes_once (R : Type) (e : event.t) (options : BugzillaBranchOptions.t)
        (w : W) :
  let calls := callsOf (handle (R:=R) e options w) in
  (count isUpdateBug calls <= 1)%nat /\
  (count isLinkCreation calls <= 1)%nat /\
  (count isQuery calls <= 1)%nat.
Proof.
  cbv zeta. destruct (event.merged e) eqn:Em.
  - rewrite handle_merged by assumption.
    pose proof (handleMerge_validation_free R e options w) as H. unfold atMost in H.
    split; [apply handleMerge_updates|].
    split; (eapply Nat.le_trans; [apply (count_le _ isValidationOnly)|lia]);
      intros c Hc; unfold isValidationOnly; rewrite Hc; destruct (isLabelCall c), (isLinkCreation c); reflexivity.
  - rewrite handle_not_merged by assumption.
    destruct (validate_writes e options w) as (Hu & Hl & Hq).
    repeat split.
    all: apply atMost_func.
    all: apply (atMost_bind _ _ _ _ 1 0); [assumption|intros [[nv ni] response] ?; hush].
Qed.

(** X7.  For a merged pull request, [handle] touches no label, creates no
    link in the tracker and sends no directory query; and when the Policy
    names no state after merge, or the title references no bug, it makes
    no call at all and returns nil. *)
Theorem handle_merged_calls (R : Type) (e : event.t) (options : BugzillaBranchOptions.t)
        (w : W) :
  event.merged e = true ->
  count isValidationOnly (callsOf (handle (R:=R) e options w)) = 0%nat /\
  (BugzillaBranchOptions.StateAfterMerge options = None \/ event.missing e = true ->
   handle (R:=R) e options w = (w, [], Val None)).
Proof.
  intros Em. rewrite handle_merged by assumption. split.
  - pose proof (handleMerge_validation_free R e options w) as H. unfold atMost in H. lia.
  - intros H. unfold handleMerge, func, bind.
    destruct (BugzillaBranchOptions.StateAfterMerge options); [|reflexivity].
    destruct H as [H|H]; [discriminate|]. rewrite H. reflexivity.
Qed.

(** *** The comment of a run *)

Lemma answered_ret A s e (a : A) (w : W) : answered s e (ret a w).
Proof. reflexivity. Qed.

Lemma answered_panic A s e (w : W) : answered (A:=A) s e (panic w).
Proof. reflexivity. Qed.

Lemma answered_return_nil A e (w : W) : answered (A:=A) false e (return_ None w).
Proof. right. repeat split. Qed.

Lemma answered_prim A s e (f : W -> W * A) (mk : A -> Call) (w : W) :
  (forall r, isCreateComment (mk r) = false) -> answered s e (prim f mk w).
Proof.
  intros H. unfold answered. rewrite prim_run. cbn [resultOf callsOf fst snd].
  rewrite count_cons, H. reflexivity.
Qed.

Lemma endsWithComment_app e a t posted :
  count isCreateComment a = 0%nat -> endsWithComment e t posted ->
  endsWithComment e (a ++ t) posted.
Proof.
  intros Ha (pre & response & -> & Hpre). exists (a ++ pre)%list, response.
  rewrite app_assoc, count_app. split; [reflexivity|lia].
Qed.

Lemma answered_bind A B s e (m : M W (option error) A) (f : A -> M W (option error) B)
      (w : W) :
  answered s e (m w) -> (forall a w1, answered s e (f a w1)) -> answered s e (bind m f w).
Proof.
  unfold answered, bind, resultOf, callsOf. intros Hm Hf.
  destruct (m w) as [[w1 t1] [a|r|]]; cbn [fst snd] in *; try assumption.
  specialize (Hf a w1). destruct (f a w1) as [[w2 t2] [b|r|]]; cbn [fst snd] in *.
  - rewrite count_app. lia.
  - destruct Hf as [Hf|(Hs & Hr & Hf)].
    + left. now apply endsWithComment_app.
    + right. rewrite count_app. repeat split; auto. lia.
  - rewrite count_app. lia.
Qed.

Lemma comment_return_run A e body (w : W) :
  bind (A:=option error) (B:=A) (comment e body) (fun r => return_ r) w =
  (fst (CreateComment (event.org e) (event.repo e) (event.number e)
          (FormatResponseRaw (event.body e) (event.htmlUrl e) (event.login e) body) w),
   [commentCall e body
      (snd (CreateComment (event.org e) (event.repo e) (event.number e)
              (FormatResponseRaw (event.body e) (event.htmlUrl e) (event.login e) body) w))],
   Ret (snd (CreateComment (event.org e) (event.repo e) (event.number e)
               (FormatResponseRaw (event.body e) (event.htmlUrl e) (event.login e) body) w))).
Proof. rewrite comment_prim. unfold bind. rewrite prim_run. reflexivity. Qed.

Lemma answered_comment_return A s e body (w : W) :
  answered (A:=A) s e (bind (comment e body) (fun r => return_ r) w).
Proof.
  unfold answered. rewrite comment_return_run. cbn [resultOf callsOf fst snd].
  left. exists [], body. split; reflexivity.
Qed.

(** The two ways of [getBug]: the bug, after one call; or no bug, after
    the call and a comment. *)
Lemma getBug_cases R e (w : W) :
  (exists w1 bug,
      getBug (R:=R) (event.bugId e) (comment e) w =
      (w1, [GetBugCall (event.bugId e) (Some bug, None)], Val (Some bug, None))) \/
  (exists w1 r response posted,
      getBug (R:=R) (event.bugId e) (comment e) w =
      (w1, [GetBugCall (event.bugId e) r; commentCall e response posted], Val (None, posted))).
Proof.
  unfold getBug, bind. rewrite bc_GetBug_prim, prim_run.
  destruct (snd (GetBug (event.bugId e) w)) as [bug err].
  destruct (isSome err && negb (IsNotFound err)) eqn:E1.
  - right. rewrite comment_prim, prim_run. eexists _, _, _, _. reflexivity.
  - destruct (IsNotFound err || isNone bug) eqn:E2.
    + right. rewrite comment_prim, prim_run. eexists _, _, _, _. reflexivity.
    + left. apply orb_false_iff in E2 as [E2 E3].
      destruct bug as [bug|]; [|discriminate]. destruct err as [err|].
      * simpl in *. rewrite E2 in E1. discriminate.
      * eexists _, _. reflexivity.
Qed.

Lemma answered_getBug A s e (f : option Bug.t * option error -> M W (option error) A)
      (w : W) :
  (forall bug w1, answered s e (f (Some bug, None) w1)) ->
  (forall posted w1, f (None, posted) w1 = return_ posted w1) ->
  answered s e (bind (getBug (event.bugId e) (comment e)) f w).
Proof.
  intros Hf Hnone. unfold bind at 1.
  destruct (getBug_cases (option error) e w) as [(w1 & bug & ->)|(w1 & r & response & posted & ->)].
  - specialize (Hf bug w1). unfold answered, resultOf, callsOf in *.
    destruct (f (Some bug, None) w1) as [[w2 t2] [b|x|]]; cbn [fst snd app] in *.
    + now rewrite count_cons.
    + destruct Hf as [Hf|(Hs & Hr & Hf)].
      * left. now apply (endsWithComment_app e [_]).
      * right. rewrite count_cons. auto.
    + now rewrite count_cons.
  - rewrite Hnone. left. exists [GetBugCall (event.bugId e) r], response. split; reflexivity.
Qed.

Lemma leaves_return R A (r : R) (w : W) : leaves (A:=A) (return_ r w).
Proof. exact I. Qed.

Lemma leaves_panic R A (w : W) : leaves (R:=R) (A:=A) (panic w).
Proof. exact I. Qed.

Lemma leaves_bind R A B (m : M W R A) (f : A -> M W R B) (w : W) :
  (forall a w1, leaves (f a w1)) -> leaves (bind m f w).
Proof.
  unfold leaves, bind, resultOf. intros Hf.
  destruct (m w) as [[w1 t1] [a|r|]]; cbn [snd]; auto.
  specialize (Hf a w1). destruct (f a w1) as [[w2 t2] r2]. exact Hf.
Qed.

(** What a function whose body is [answered] gives to its caller. *)
Lemma answered_func R s e (body : M W (option error) (option error)) (w : W) :
  answered s e (body w) -> leaves (body w) ->
  match resultOf (func (R':=R) body w) with
  | Val r =>
      endsWithComment e (callsOf (func (R':=R) body w)) r \/
      (s = false /\ r = None /\
       count isCreateComment (callsOf (func (R':=R) body w)) = 0%nat)
  | Ret _ => False
  | Panic => count isCreateComment (callsOf (func (R':=R) body w)) = 0%nat
  end.
Proof.
  unfold answered, leaves, func, resultOf, callsOf.
  destruct (body w) as [[w1 t1] [a|r|]]; cbn [fst snd]; tauto.
Qed.

Ltac answered_step :=
  match goal with
  | |- answered _ _ (ret _ _) => apply answered_ret
  | |- answered _ _ (panic _) => apply answered_panic
  | |- answered false _ (return_ None _) => apply answered_return_nil
  | |- answered _ _ (bind (comment _ _) (fun r => return_ r) _) => apply answered_comment_return
  | |- answered _ _ (bind (getBug _ _) _ _) =>
      apply answered_getBug; [ intros; cbv beta iota | intros [?|] ?; reflexivity ]
  | |- answered _ _ (prim _ _ _) => apply answered_prim; intros; reflexivity
  | H : forall _, answered _ _ _ |- _ => apply H
  | H : forall _ _, answered _ _ _ |- _ => apply H
  | H : forall _ _ _, answered _ _ _ |- _ => apply H
  | H : forall _ _ _ _, answered _ _ _ |- _ => apply H
  | H : forall _ _ _ _ _, answered _ _ _ |- _ => apply H
  | |- answered _ _ (bind _ _ _) => apply answered_bind; [ | intros ? ? ]
  | |- answered _ _ ((if ?c then _ else _) _) => destruct c
  | |- answered _ _ ((match ?x with _ => _ end) _) => destruct x
  | |- answered _ _ ((let '(_, _) := ?x in _) _) => destruct x
  | |- answered _ _ (assignQA _ _ _ _) => unfold assignQA
  | |- answered _ _ (validBranch _ _ _ _ _) => unfold validBranch
  | |- answered _ _ (mergeGuard _ _ _) => unfold mergeGuard
  | |- answered _ _ (mergeLinks _ _ _) => unfold mergeLinks
  | |- answered _ _ (mergeOutcome _ _ _ _) => unfold mergeOutcome
  | |- answered _ _ (syncLabel _ _ _ _ _) => unfold syncLabel
  | |- answered _ _ (reconcileLabels _ _ _ _) => unfold reconcileLabels
  | |- answered _ _ _ => progress as_prim
  end.

Lemma answered_fetchDependents s e ids :
  forall dependents w, answered s e (fetchDependents e ids dependents w).
Proof. induction ids as [|id ids IH]; intros; cbn [fetchDependents]; repeat answered_step. Qed.

Lemma answered_checkPRs s e prs :
  forall shouldMigrate mergedPRs unmergedPrStates w,
    answered s e (checkPRs e prs shouldMigrate mergedPRs unmergedPrStates w).
Proof. induction prs as [|item prs IH]; intros; cbn [checkPRs]; repeat answered_step. Qed.

Lemma answered_validate e options (w : W) : answered true e (validate e options w).
Proof.
  pose proof (answered_fetchDependents true e) as Hfd. unfold validate.
  repeat answered_step.
Qed.

Lemma mergeOutcome_leaves e options checked (w : W) : leaves (mergeOutcome e options checked w).
Proof.
  unfold mergeOutcome. destruct checked as [[[|] mergedPRs] unmergedPrStates];
    destruct (AsBugUpdate _ _); try exact I.
  - apply leaves_bind. intros [err|] w1; simpl; apply leaves_bind; intros; exact I.
  - apply leaves_bind. intros; exact I.
Qed.

(** The comment of [handle]. *)
Lemma handle_answered (R : Type) (e : event.t) (options : BugzillaBranchOptions.t)
        (w : W) :
  let calls := callsOf (handle (R:=R) e options w) in
  match resultOf (handle (R:=R) e options w) with
  | Val r =>
      endsWithComment e calls r \/
      (event.merged e = true /\ r = None /\ count isCreateComment calls = 0%nat)
  | Ret _ => False
  | Panic => count isCreateComment calls = 0%nat
  end.
Proof.
  cbv zeta. destruct (event.merged e) eqn:Em.
  - rewrite handle_merged, handleMerge_unfold by assumption.
    pose proof (answered_checkPRs false e) as Hck.
    match goal with
    | |- context [func ?b w] =>
        assert (Ha : answered false e (b w)) by (repeat answered_step);
        assert (Hl : leaves (b w))
    end.
    { do 3 (apply leaves_bind; intros). unfold mergeLinks.
      apply leaves_bind. intros [prs err] ?.
      do 2 (apply leaves_bind; intros). apply mergeOutcome_leaves. }
    pose proof (answered_func R false e _ w Ha Hl) as H.
    destruct (resultOf (func _ w)); intuition.
  - rewrite handle_not_merged by assumption.
    pose proof (answered_validate e options) as Hv.
    match goal with
    | |- context [func ?b w] =>
        assert (Ha : answered true e (b w)) by (repeat answered_step);
        assert (Hl : leaves (b w))
    end.
    { apply leaves_bind. intros [[nv ni] response] w1. do 2 (apply leaves_bind; intros).
      exact I. }
    pose proof (answered_func R true e _ w Ha Hl) as H.
    destruct (resultOf (func _ w)); intuition.
Qed.

(** X8.  [handle] comments at most once, and then at the end: the comment
    is on the pull request of the event and what [handle] returns is what
    posting it returned. For a pull request that has not merged there is
    always this comment, unless the code panics; for a merged one [handle]
    may also return nil without a comment. A panic comes before any
    comment. *)
Theorem handle_answers (R : Type) (e : event.t) (options : BugzillaBranchOptions.t)
        (w : W) :
  let calls := callsOf (handle (R:=R) e options w) in
  match resultOf (handle (R:=R) e options w) with
  | Val r =>
      endsWithComment e calls r \/
      (event.merged e = true /\ r = None /\ count isCreateComment calls = 0%nat)
  | Ret _ => False
  | Panic => count isCreateComment calls = 0%nat
  end.
Proof. exact (handle_answered R e options w). Qed.

Lemma handle_comment_bound R e options (w : W) :
  (count isCreateComment (callsOf (handle (R:=R) e options w)) <= 1)%nat.
Proof.
  pose proof (handle_answered R e options w) as H. cbv zeta in H.
  destruct (resultOf (handle e options w)); [|contradiction|lia].
  destruct H as [(pre & response & -> & Hpre)|(_ & _ & ->)]; [|lia].
  rewrite count_app, Hpre. cbn. lia.
Qed.

Lemma handle_never_returns R e options (w : W) r :
  resultOf (handle (R:=R) e options w) <> Ret r.
Proof.
  pose proof (handle_answered R e options w) as H. cbv zeta in H.
  intros E. now rewrite E in H.
Qed.

Lemma validate_missing e options (w : W) :
  event.missing e = true -> validate e options w = (w, [], Val (false, false, missingResponse)).
Proof. intros H. unfold validate. now rewrite H. Qed.

Lemma syncLabel_removal R e label has (w : W) :
  syncLabel (R:=R) e label false has w =
  if has
  then (fst (RemoveLabel (event.org e) (event.repo e) (event.number e) label w),
        [RemoveLabelCall (event.org e) (event.repo e) (event.number e) label
           (snd (RemoveLabel (event.org e) (event.repo e) (event.number e) label w))],
        Val tt)
  else (w, [], Val tt).
Proof.
  unfold syncLabel. destruct has; cbn [andb negb]; [|reflexivity].
  unfold bind. now rewrite gc_RemoveLabel_prim, prim_run.
Qed.

(** X9.  When the title of a pull request that has not merged references
    no bug, [handle] asks the tracker nothing, whatever the Policy: it
    reads the labels, removes each of the two bug labels that is on the
    pull request, and comments that no bug is referenced in the title
    and how to reference one. *)
Theorem handle_missing_reference (R : Type) (e : event.t)
        (options : BugzillaBranchOptions.t) (w : W) :
  event.merged e = false -> event.missing e = true ->
  let org := event.org e in
  let repo := event.repo e in
  let number := event.number e in
  let labels := snd (GetIssueLabels org repo number w) in
  exists w' removedValid removedInvalid posted,
    handle (R:=R) e options w =
    (w',
     ([GetIssueLabelsCall org repo number labels] ++
      (if hasLabel ValidBug (fst labels)
       then [RemoveLabelCall org repo number ValidBug removedValid] else []) ++
      (if hasLabel InvalidBug (fst labels)
       then [RemoveLabelCall org repo number InvalidBug removedInvalid] else []) ++
      [commentCall e
         ("No Bugzilla bug is referenced in the title of this pull request." ++ nl ++
          "To reference a bug, add 'Bug XXX:' to the title of this pull request and request another bug refresh with <code>/bugzilla refresh</code>.")
         posted])%list,
     Val posted).
Proof.
  intros Em Hmiss org repo number labels.
  destruct (handle_after_validate R e options w w [] false false missingResponse Em
              (validate_missing e options w Hmiss)) as (wl & t & w1 & posted & Hl & ->).
  rewrite reconcileLabels_run in Hl. cbv zeta in Hl.
  rewrite !syncLabel_removal in Hl. fold org repo number in Hl.
  unfold present in Hl. fold org repo number labels in Hl.
  exists w1. cbn [app].
  destruct (hasLabel ValidBug (fst labels)), (hasLabel InvalidBug (fst labels));
    cbn [callsOf worldOf fst snd app] in Hl; injection Hl as _ <-;
    eexists _, _, posted; reflexivity.
  Unshelve. all: exact None.
Qed.

(** X10.  When the review host keeps the labels as a set, a pass of the
    reconciler leaves each of the two bug labels on the pull request
    exactly when it is needed, and touches no other label. *)
Theorem reconcileLabels_establishes (R : Type) (e : event.t)
        (needsValid needsInvalid : bool) (w : W) :
  ValidBug <> InvalidBug ->
  labelStore (event.org e) (event.repo e) (event.number e) ->
  let after := worldOf (reconcileLabels (R:=R) e needsValid needsInvalid w) in
  let on label w := present (event.org e) (event.repo e) (event.number e) label w in
  on ValidBug after = needsValid /\
  on InvalidBug after = needsInvalid /\
  forall label, label <> ValidBug -> label <> InvalidBug -> on label after = on label w.
Proof.
  intros Hne Hstore after on. subst after on. cbv beta.
  assert (Hvi : String.eqb ValidBug InvalidBug = false) by now apply String.eqb_neq.
  assert (Hiv : String.eqb InvalidBug ValidBug = false)
    by (apply String.eqb_neq; congruence).
  rewrite reconcileLabels_run. cbv zeta. rewrite worldOf_run.
  pose proof Hstore as (Hread & _).
  repeat split.
  - rewrite syncLabel_present by exact Hstore. rewrite Hvi. cbn [andb].
    rewrite syncLabel_present by exact Hstore. rewrite String.eqb_refl, Hread. cbn [andb].
    destruct needsValid, (present _ _ _ ValidBug w); reflexivity.
  - rewrite syncLabel_present by exact Hstore. rewrite String.eqb_refl. cbn [andb].
    destruct (Bool.eqb needsInvalid _) eqn:Eq; cbn [negb]; [|reflexivity].
    rewrite syncLabel_present by exact Hstore. rewrite Hiv, Hread. cbn [andb].
    symmetry. now apply Bool.eqb_prop.
  - intros label Hv Hi.
    apply String.eqb_neq in Hv, Hi.
    rewrite syncLabel_present by exact Hstore. rewrite Hi. cbn [andb].
    rewrite syncLabel_present by exact Hstore. rewrite Hv, Hread. reflexivity.
Qed.

(** *** The verdict and what [handle] does with it *)

Lemma fetchDependents_run e ids bugs :
  fetchable ids bugs ->
  forall dependents w, exists w' t,
    fetchDependents e ids dependents w = (w', t, Val (dependents ++ bugs)%list) /\
    forallb isRead t = true.
Proof.
  induction 1 as [|id bug ids bugs Hid _ IH]; intros dependents w.
  - exists w, []. cbn [fetchDependents]. rewrite app_nil_r. split; reflexivity.
  - cbn [fetchDependents]. unfold bind at 1. rewrite bc_GetBug_prim, prim_run, Hid.
    cbn [isSome].
    destruct (IH (dependents ++ [bug])%list (fst (GetBug id w))) as (w' & t & -> & Ht).
    exists w', (GetBugCall id (Some bug, None) :: t). rewrite <- app_assoc. split; [reflexivity|].
    exact Ht.
Qed.

(** The validation up to the verdict: the bug and its dependents are
    fetched. *)
Lemma validate_fetches e options (w : W) bug dependents :
  event.missing e = false ->
  snd (GetBug (event.bugId e) w) = (Some bug, None) ->
  dependentsOf options bug dependents ->
  exists w1 reads,
    forallb isRead reads = true /\
    validate e options w =
    (let '(w2, t2, r2) :=
       (let '(valid, validationsRun, why) := validateBug bug dependents options Endpoint in
        if (valid : bool) then
          response <- validBranch e options bug validationsRun ;;
          ret (valid, negb valid, response)
        else ret (valid, negb valid, invalidResponse e why)) w1 in
     (w2, (reads ++ t2)%list, r2)).
Proof.
  intros Hmiss Hbug Hdeps. unfold validate. rewrite Hmiss.
  destruct (GetBug (event.bugId e) w) as [w0 r] eqn:Eg. cbn [snd] in Hbug. subst r.
  unfold bind at 1. rewrite (getBug_found _ e w w0 bug Eg). cbv beta iota.
  unfold dependentsOf in Hdeps. unfold bind at 1.
  destruct (isSome _ || isSome _).
  - destruct (fetchDependents_run e _ _ Hdeps [] w0) as (w1 & t & -> & Ht).
    cbn [app]. exists w1, (GetBugCall (event.bugId e) (Some bug, None) :: t).
    split; [exact Ht|]. now destruct (_ w1) as [[w2 t2] r2].
  - subst dependents. cbn [ret]. exists w0, [GetBugCall (event.bugId e) (Some bug, None)].
    split; [reflexivity|]. now destruct (_ w0) as [[w2 t2] r2].
Qed.

Lemma reconcileLabels_value R e needsValid needsInvalid (w : W) :
  resultOf (reconcileLabels (R:=R) e needsValid needsInvalid w) = Val tt.
Proof.
  rewrite reconcileLabels_run. cbv zeta. unfold resultOf. cbn [snd].
  unfold syncLabel, bind.
  destruct (_ && _); [now rewrite gc_AddLabel_prim, prim_run|].
  destruct (_ && _); [now rewrite gc_RemoveLabel_prim, prim_run|reflexivity].
Qed.

(** The responses are built by appending to a string, item by item. *)
Lemma fold_left_append {A} (g : A -> string) (l : list A) :
  forall acc,
    fold_left (fun acc x => acc ++ g x) l acc = acc ++ String.concat EmptyString (map g l).
Proof.
  induction l as [|a l IH]; intros acc; cbn [fold_left map].
  - now rewrite append_nil_r.
  - rewrite IH. cbn [String.concat]. destruct (map g l) as [|b m].
    + cbn [String.concat]. now rewrite append_nil_r.
    + rewrite append_assoc. reflexivity.
Qed.

Lemma fetchDependents_calls e ids bugs :
  fetchable ids bugs ->
  forall dependents w, exists w',
    fetchDependents e ids dependents w =
    (w',
     map (fun '(id, dependent) => GetBugCall id (Some dependent, None)) (combine ids bugs),
     Val (dependents ++ bugs)%list).
Proof.
  induction 1 as [|id bug ids bugs Hid _ IH]; intros dependents w.
  - exists w. cbn [fetchDependents combine map]. now rewrite app_nil_r.
  - cbn [fetchDependents]. unfold bind at 1. rewrite bc_GetBug_prim, prim_run, Hid.
    cbn [isSome].
    destruct (IH (dependents ++ [bug])%list (fst (GetBug id w))) as (w' & ->).
    exists w'. rewrite <- app_assoc. reflexivity.
Qed.

(** The validation up to the verdict: the fetch of the bug, then the
    fetches of its dependents, each under its id. *)
Lemma validate_reads e options (w : W) bug dependents :
  event.missing e = false ->
  snd (GetBug (event.bugId e) w) = (Some bug, None) ->
  dependentsOf options bug dependents ->
  exists w1,
    validate e options w =
    (let '(w2, t2, r2) :=
       (let '(valid, validationsRun, why) := validateBug bug dependents options Endpoint in
        if (valid : bool) then
          response <- validBranch e options bug validationsRun ;;
          ret (valid, negb valid, response)
        else ret (valid, negb valid, invalidResponse e why)) w1 in
     (w2,
      (GetBugCall (event.bugId e) (Some bug, None) ::
       map (fun '(id, dependent) => GetBugCall id (Some dependent, None))
           (combine (Bug.DependsOn bug) dependents) ++ t2)%list, r2)).
Proof.
  intros Hmiss Hbug Hdeps. unfold validate. rewrite Hmiss.
  destruct (GetBug (event.bugId e) w) as [w0 r] eqn:Eg. cbn [snd] in Hbug. subst r.
  unfold bind at 1. rewrite (getBug_found _ e w w0 bug Eg). cbv beta iota.
  unfold dependentsOf in Hdeps. unfold bind at 1.
  destruct (isSome _ || isSome _).
  - destruct (fetchDependents_calls e _ _ Hdeps [] w0) as (w1 & ->).
    cbn [app]. exists w1. now destruct (_ w1) as [[w2 t2] r2].
  - subst dependents. cbn [ret]. exists w0. destruct (Bug.DependsOn bug); cbn [combine map app];
      now destruct (_ w0) as [[w2 t2] r2].
Qed.

(** X11.  When the bug of a pull request that has not merged fails the
    validation, [handle] only reads from the tracker: it fetches the bug
    and then, if the Policy has a requirement on them, its dependents,
    each under its id; it updates no bug, creates no link and sends no
    query. It then reconciles the labels towards the invalid label alone,
    and comments that the bug is invalid, with the reasons that
    [validateBug] gave, one to a line after a dash, and how to have the
    bug evaluated again. *)
Theorem handle_invalid_bug (R : Type) (e : event.t) (options : BugzillaBranchOptions.t)
        (w : W) (bug : Bug.t) (dependents : list Bug.t)
        (validationsRun why : list string) :
  event.merged e = false -> event.missing e = false ->
  snd (GetBug (event.bugId e) w) = (Some bug, None) ->
  dependentsOf options bug dependents ->
  validateBug bug dependents options Endpoint = (false, validationsRun, why) ->
  let reads :=
    GetBugCall (event.bugId e) (Some bug, None) ::
    map (fun '(id, dependent) => GetBugCall id (Some dependent, None))
        (combine (Bug.DependsOn bug) dependents) in
  let response :=
    "This pull request references " ++ bugLink (event.bugId e) Endpoint ++
    ", which is invalid:" ++ nl ++
    String.concat EmptyString (map (fun reason => " - " ++ reason ++ nl) why) ++ nl ++
    "Comment <code>/bugzilla refresh</code> to re-evaluate validity if changes to the Bugzilla bug are made, or edit the title of this pull request to link to a different bug." in
  exists w' w0 posted,
    handle (R:=R) e options w =
    (w',
     (reads ++ callsOf (reconcileLabels (R:=option error) e false true w0) ++
      [commentCall e response posted])%list,
     Val posted).
Proof.
  intros Em Hmiss Hbug Hdeps Hv reads response.
  assert (Hresponse : invalidResponse e why = response).
  { unfold invalidResponse, response.
    rewrite (fold_left_append (fun reason => " - " ++ reason ++ nl) why). reflexivity. }
  destruct (validate_reads e options w bug dependents Hmiss Hbug Hdeps) as (w1 & Hval).
  rewrite Hv in Hval. cbn [ret negb] in Hval. rewrite app_nil_r in Hval.
  rewrite Hresponse in Hval.
  destruct (handle_after_validate R e options w w1 _ false true _ Em Hval)
    as (wl & labels & w' & posted & Hl & ->).
  exists w', w1, posted. rewrite Hl. reflexivity.
Qed.

Lemma handle_validate_returns R e options (w w0 : W) t0 r :
  event.merged e = false ->
  validate e options w = (w0, t0, Ret r) ->
  handle (R:=R) e options w = (w0, t0, Val r).
Proof.
  intros Em Hv. rewrite handle_not_merged by assumption. unfold func, bind. now rewrite Hv.
Qed.

(** The branch of a valid bug when no link and no QA assignment is asked
    for. *)
Lemma validBranch_plain e options bug validationsRun (w : W) :
  event.assign e = false ->
  BugzillaBranchOptions.AddExternalLink options <> Some true ->
  let after := BugzillaBranchOptions.StateAfterValidation options in
  validBranch e options bug validationsRun w =
  match AsBugUpdate after (Some bug) with
  | None => (w, [], Val (validSentence e ++ validationDetails validationsRun))
  | Some update =>
      let updated := UpdateBug (event.bugId e) update w in
      let report := formatError ("updating to the " ++ fmt_s_state after ++ " state")
                                Endpoint (event.bugId e) (snd updated) in
      let posted := CreateComment (event.org e) (event.repo e) (event.number e)
                      (FormatResponseRaw (event.body e) (event.htmlUrl e) (event.login e)
                                         report) (fst updated) in
      if isSome (snd updated)
      then (fst posted,
            [UpdateBugCall (event.bugId e) update (snd updated);
             commentCall e report (snd posted)],
            Ret (snd posted))
      else (fst updated,
            [UpdateBugCall (event.bugId e) update (snd updated)],
            Val (validSentence e ++ " The bug has been moved to the " ++
                 fmt_s_state after ++ " state." ++ validationDetails validationsRun))
  end.
Proof.
  intros Hassign Hlink after. unfold validBranch, assignQA. rewrite Hassign.
  fold after. fold (validSentence e).
  assert (Hl : forall response : string,
             match BugzillaBranchOptions.AddExternalLink options with
             | Some true =>
                 '(changed, err) <- bc_AddPullRequestAsExternalBug (event.bugId e) (event.org e)
                                      (event.repo e) (event.number e) ;;
                 if isSome err then
                   r <- comment e (formatError "adding this pull request to the external tracker bugs"
                                               Endpoint (event.bugId e) err) ;;
                   return_ r
                 else if (changed : bool) then
                   ret (response ++
                        " The bug has been updated to refer to the pull request using the external bug tracker.")
                 else ret response
             | _ => ret response
             end = ret (W:=W) (R:=option error) response).
  { intros. destruct (BugzillaBranchOptions.AddExternalLink options) as [[|]|];
      [congruence|reflexivity|reflexivity]. }
  destruct (AsBugUpdate after (Some bug)) as [update|].
  - cbv zeta. unfold bind at 1 2. rewrite bc_UpdateBug_prim, prim_run.
    destruct (snd (UpdateBug (event.bugId e) update w)) as [err|]; cbn [isSome].
    + rewrite comment_return_run. reflexivity.
    + cbn [ret]. unfold bind at 1. rewrite Hl. cbn [ret app].
      now rewrite !append_assoc.
  - unfold bind at 1. cbn [ret]. unfold bind at 1. rewrite Hl. reflexivity.
Qed.

(** X12.  When the bug of a pull request that has not merged passes the
    validation, and the Policy asks for no link and the event for no QA
    assignment: [handle] fetches the bug and the dependents that the
    Policy has a requirement on, then moves the bug to the state after
    validation when [AsBugUpdate] finds it in another one. If that update
    fails, the comment is the error comment of the move, and the labels
    are left as they are; otherwise the labels are reconciled towards the
    valid label alone and the comment says that the bug is valid, that it
    was moved if it was, and lists the validations under their number,
    one to a line after a star. *)
Theorem handle_valid_bug (R : Type) (e : event.t) (options : BugzillaBranchOptions.t)
        (w : W) (bug : Bug.t) (dependents : list Bug.t)
        (validationsRun why : list string) :
  event.merged e = false -> event.missing e = false -> event.assign e = false ->
  BugzillaBranchOptions.AddExternalLink options <> Some true ->
  snd (GetBug (event.bugId e) w) = (Some bug, None) ->
  dependentsOf options bug dependents ->
  validateBug bug dependents options Endpoint = (true, validationsRun, why) ->
  let after := BugzillaBranchOptions.StateAfterValidation options in
  let labels w0 := callsOf (reconcileLabels (R:=option error) e true false w0) in
  let reads :=
    GetBugCall (event.bugId e) (Some bug, None) ::
    map (fun '(id, dependent) => GetBugCall id (Some dependent, None))
        (combine (Bug.DependsOn bug) dependents) in
  let valid :=
    "This pull request references " ++ bugLink (event.bugId e) Endpoint ++ ", which is valid." in
  let details :=
    nl ++ nl ++ "<details>" ++
    match validationsRun with
    | [] => "<summary>No validations were run on this bug</summary>"
    | _ => "<summary>" ++ fmt_d (Z.of_nat (List.length validationsRun)) ++
           " validation(s) were run on this bug</summary>" ++ nl
    end ++
    String.concat EmptyString (map (fun validation => nl ++ "* " ++ validation) validationsRun) ++
    "</details>" in
  let failure (err : error) :=
    "An error was encountered updating to the " ++ fmt_s_state after ++ " state for bug " ++
    fmt_d (event.bugId e) ++ " on the Bugzilla server at " ++ Endpoint ++ ":" ++ nl ++
    "> " ++ Error err ++ nl ++
    "Please contact an administrator to resolve this issue, then request a bug refresh with <code>/bugzilla refresh</code>." in
  exists w' w0 posted,
    match AsBugUpdate after (Some bug) with
    | None =>
        handle (R:=R) e options w =
        (w', (reads ++ labels w0 ++ [commentCall e (valid ++ details) posted])%list, Val posted)
    | Some update =>
        exists updated,
        handle (R:=R) e options w =
        (w',
         (reads ++ UpdateBugCall (event.bugId e) update updated ::
          match updated with
          | Some err => [commentCall e (failure err) posted]
          | None =>
              labels w0 ++
              [commentCall e
                 (valid ++ " The bug has been moved to the " ++ fmt_s_state after ++
                  " state." ++ details) posted]
          end)%list,
         Val posted)
    end.
Proof.
  intros Em Hmiss Hassign Hlink Hbug Hdeps Hv after labels reads valid details failure.
  assert (Hdetails : validationDetails validationsRun = details).
  { unfold validationDetails, details.
    rewrite (fold_left_append (fun validation => nl ++ "* " ++ validation) validationsRun).
    reflexivity. }
  destruct (validate_reads e options w bug dependents Hmiss Hbug Hdeps) as (w1 & Hval).
  rewrite Hv in Hval. cbv beta iota in Hval. unfold bind in Hval.
  rewrite (validBranch_plain e options bug validationsRun w1 Hassign Hlink) in Hval.
  cbv zeta in Hval. fold after in Hval. rewrite Hdetails in Hval.
  change (validSentence e) with valid in Hval. unfold reads. cbn [app].
  destruct (AsBugUpdate after (Some bug)) as [update|].
  - destruct (snd (UpdateBug (event.bugId e) update w1)) as [err|] eqn:Eu;
      cbn [isSome] in Hval.
    + assert (Hfailure :
                formatError ("updating to the " ++ fmt_s_state after ++ " state")
                            Endpoint (event.bugId e) (Some err) = failure err).
      { unfold formatError, failure. cbn [fmt_v]. rewrite !append_assoc. reflexivity. }
      rewrite Hfailure in Hval.
      pose proof (handle_validate_returns R e options w _ _ _ Em Hval) as H.
      eexists _, w1, _. exists (Some err). exact H.
    + cbn [ret negb app] in Hval. rewrite ?app_nil_r in Hval.
      destruct (handle_after_validate R e options w _ _ true false _ Em Hval)
        as (wl & t & w' & posted & Hl & H).
      exists w', (fst (UpdateBug (event.bugId e) update w1)), posted.
      exists None. unfold labels. rewrite Hl, H.
      cbn [callsOf fst snd app]. now rewrite <- app_assoc.
  - cbn [ret negb app] in Hval. rewrite ?app_nil_r in Hval.
    destruct (handle_after_validate R e options w _ _ true false _ Em Hval)
      as (wl & t & w' & posted & Hl & H).
    exists w', w1, posted. unfold labels. rewrite Hl, H.
    reflexivity.
Qed.

(** *** What an update at merge time rests on *)

Lemma silent_not_In (p : Call -> bool) (t : list Call) (c : Call) :
  count p t = 0%nat -> p c = true -> ~ In c t.
Proof.
  intros Hz Hp Hin. apply in_split in Hin as (a & b & ->).
  rewrite count_app, count_cons, Hp in Hz. lia.
Qed.

Lemma seenMerged_app e a b item :
  seenMerged e b item -> seenMerged e (a ++ b) item.
Proof.
  intros [H|(pr & Hin & Hm)]; [now left|]. right. exists pr. split; [|assumption].
  apply in_or_app. now right.
Qed.

(** The loop of [handleMerge] says that the bug should be moved only
    after it has seen every linked pull request merged. *)
Lemma checkPRs_migrate e prs :
  forall shouldMigrate mergedPRs unmergedPrStates (w w' : W) t mergedPRs' unmergedPrStates',
    checkPRs e prs shouldMigrate mergedPRs unmergedPrStates w =
    (w', t, Val (true, mergedPRs', unmergedPrStates')) ->
    shouldMigrate = true /\ Forall (seenMerged e t) prs.
Proof.
  induction prs as [|item prs IH]; intros sm mp up w w' t mp' up'; cbn [checkPRs].
  - intros [= _ _ ->]. split; [reflexivity|constructor].
  - fold (isSelf e item). unfold bind at 1.
    destruct (isSelf e item) eqn:Eself.
    + cbn [ret]. destruct (sm && event.merged e) eqn:Esm; cbn [negb].
      * apply andb_true_iff in Esm as [-> Em]. rewrite Em.
        destruct (checkPRs e prs true _ _ w) as [[w2 t2] r2] eqn:Eck.
        cbn [app]. intros [= -> -> ->]. apply IH in Eck as [_ Hall].
        split; [reflexivity|]. constructor; [left; auto|exact Hall].
      * cbn [ret app]. discriminate.
    + unfold bind at 1. rewrite gc_GetPullRequest_prim, prim_run.
      destruct (snd (GetPullRequest _ _ _ w)) as [pr err] eqn:Eg.
      destruct err as [err|]; cbn [isSome].
      * rewrite comment_return_run. cbn [app]. discriminate.
      * destruct pr as [pr|]; [|discriminate]. cbn [ret app].
        destruct (sm && PullRequest.Merged pr) eqn:Esm; cbn [negb].
        -- apply andb_true_iff in Esm as [-> Em]. rewrite Em.
           destruct (checkPRs e prs true _ _ _) as [[w2 t2] r2] eqn:Eck.
           intros [= -> <- ->]. apply IH in Eck as [_ Hall].
           split; [reflexivity|]. constructor.
           ++ right. exists pr. split; [now left|exact Em].
           ++ eapply Forall_impl; [|exact Hall]. intros a Ha.
              now apply (seenMerged_app e [_]).
        -- cbn [ret]. discriminate.
Qed.

Lemma seenMerged_incl e t t' item :
  (forall c, In c t -> In c t') -> seenMerged e t item -> seenMerged e t' item.
Proof. intros Hi [H|(pr & Hin & Hm)]; [now left|]. right. exists pr. auto. Qed.

Lemma checkPRs_no_update e prs shouldMigrate mergedPRs unmergedPrStates (w : W) c :
  isUpdateBug c = true ->
  ~ In c (callsOf (checkPRs e prs shouldMigrate mergedPRs unmergedPrStates w)).
Proof.
  intros Hc. apply (silent_not_In isUpdateBug); [|exact Hc].
  pose proof (silent_checkPRs isUpdateBug e prs (fun _ _ _ _ => eq_refl)
                (fun _ _ _ _ _ => eq_refl) 0 shouldMigrate mergedPRs unmergedPrStates w) as H.
  unfold atMost in H. lia.
Qed.

(** The update of [handleMerge] and what came before it, from the list of
    the links on. *)
Lemma mergeLinks_update e options (w : W) id update updated :
  let calls := callsOf (mergeLinks e options w) in
  In (UpdateBugCall id update updated) calls ->
  id = event.bugId e /\
  AsBugUpdate (BugzillaBranchOptions.StateAfterMerge options) None = Some update /\
  exists prs,
    In (GetExternalBugPRsOnBugCall (event.bugId e) (prs, None)) calls /\
    Forall (seenMerged e calls) prs.
Proof.
  cbv zeta. remember (mergeLinks e options w) as run eqn:Erun.
  unfold mergeLinks in Erun. unfold bind at 1 in Erun.
  rewrite bc_GetExternalBugPRsOnBug_prim, prim_run in Erun.
  destruct (snd (GetExternalBugPRsOnBug (event.bugId e) w)) as [prs [err|]];
    cbn [isSome] in Erun.
  - unfold bind at 1 in Erun. rewrite comment_return_run in Erun. subst run.
    cbn [callsOf fst snd app]. intros [H|[H|[]]]; discriminate H.
  - unfold bind at 1 in Erun. cbn [ret] in Erun. unfold bind at 1 in Erun.
    pose proof (checkPRs_no_update e prs true [] []
                  (fst (GetExternalBugPRsOnBug (event.bugId e) w))
                  (UpdateBugCall id update updated) eq_refl) as Hno.
    destruct (checkPRs e prs true [] [] _) as [[w2 t2] [[[sm mp] up]|r|]] eqn:Eck;
      cbn [callsOf fst snd app] in *.
    2,3: subst run; cbn [callsOf fst snd]; intros [H|H]; [discriminate H|contradiction].
    unfold mergeOutcome in Erun.
    destruct (AsBugUpdate (BugzillaBranchOptions.StateAfterMerge options) None) as [u|].
    2:{ cbn [return_ app] in Erun. rewrite app_nil_r in Erun. subst run.
        cbn [callsOf fst snd]. intros [H|H]; [discriminate H|contradiction]. }
    destruct sm.
    2:{ rewrite comment_return_run in Erun. subst run. cbn [callsOf fst snd].
        intros [H|H]; [discriminate H|].
        apply in_app_or in H as [H|[H|[]]]; [contradiction|discriminate H]. }
    apply checkPRs_migrate in Eck as [_ Hall].
    unfold bind at 1 in Erun. rewrite bc_UpdateBug_prim, prim_run in Erun.
    destruct (snd (UpdateBug (event.bugId e) u w2)) as [uerr|]; cbn [isSome] in Erun;
      rewrite comment_return_run in Erun; cbn [app] in Erun; subst run;
      cbn [callsOf fst snd];
      (intros [H|H]; [discriminate H|]);
      (apply in_app_or in H as [H|[H|[H|[]]]]; [contradiction| |discriminate H]);
      injection H as <- <- <-; (repeat split); exists prs; (split; [now left|]);
      (eapply Forall_impl; [|exact Hall]); intros item; apply seenMerged_incl;
      intros c Hc; right; apply in_or_app; now left.
Qed.

Lemma calls_after_silent R B (P : M W R unit) (Q : M W R B) (w : W) (c : Call)
      (good : list Call -> Prop) :
  ~ In c (callsOf (P w)) ->
  (forall a t, good t -> good (a ++ t)%list) ->
  (forall w1, In c (callsOf (Q w1)) -> good (callsOf (Q w1))) ->
  In c (callsOf (bind P (fun _ => Q) w)) -> good (callsOf (bind P (fun _ => Q) w)).
Proof.
  unfold bind, callsOf. intros HP Hmono HQ.
  destruct (P w) as [[w1 t1] [[]|r|]]; cbn [fst snd] in *; try contradiction.
  specialize (HQ w1). destruct (Q w1) as [[w2 t2] r2]. cbn [fst snd] in *.
  intros Hin. apply in_app_or in Hin as [Hin|Hin]; [contradiction|]. auto.
Qed.

Lemma calls_func R R' (m : M W R R) (w : W) : callsOf (func (R':=R') m w) = callsOf (m w).
Proof. unfold func, callsOf. now destruct (m w) as [[w1 t1] r]. Qed.

(** X13.  [handle] moves a bug at merge time only on the evidence of the
    run itself: an update made for a merged pull request is for the bug
    of the event, with the update that [AsBugUpdate] derives from the
    state after merge, and comes after the list of the linked pull
    requests was fetched without error and each of them was seen merged:
    the pull request of the event, or one fetched in this run. *)
Theorem merge_update_needs_all_merged (R : Type) (e : event.t)
        (options : BugzillaBranchOptions.t) (w : W)
        (id : Z) (update : BugUpdate.t) (updated : option error) :
  event.merged e = true ->
  let calls := callsOf (handle (R:=R) e options w) in
  In (UpdateBugCall id update updated) calls ->
  id = event.bugId e /\
  AsBugUpdate (BugzillaBranchOptions.StateAfterMerge options) None = Some update /\
  exists prs,
    In (GetExternalBugPRsOnBugCall (event.bugId e) (prs, None)) calls /\
    Forall (seenMerged e calls) prs.
Proof.
  intros Em. cbv zeta. rewrite handle_merged, handleMerge_unfold by assumption.
  rewrite !calls_func.
  assert (Hmono : forall a t,
             (id = event.bugId e /\
              AsBugUpdate (BugzillaBranchOptions.StateAfterMerge options) None = Some update /\
              exists prs,
                In (GetExternalBugPRsOnBugCall (event.bugId e) (prs, None)) t /\
                Forall (seenMerged e t) prs) ->
             id = event.bugId e /\
             AsBugUpdate (BugzillaBranchOptions.StateAfterMerge options) None = Some update /\
             exists prs,
               In (GetExternalBugPRsOnBugCall (event.bugId e) (prs, None)) (a ++ t) /\
               Forall (seenMerged e (a ++ t)) prs).
  { intros a t (H1 & H2 & prs & H3 & H4). repeat split; auto. exists prs. split.
    - apply in_or_app. now right.
    - eapply Forall_impl; [|exact H4]. intros item. apply seenMerged_app. }
  assert (Hsilent : forall (P : M W (option error) unit) w0,
             atMost isUpdateBug 0 (P w0) ->
             ~ In (UpdateBugCall id update updated) (callsOf (P w0))).
  { intros P w0 H. apply (silent_not_In isUpdateBug); [|reflexivity].
    unfold atMost in H. lia. }
  set (good := fun t : list Call =>
                id = event.bugId e /\
                AsBugUpdate (BugzillaBranchOptions.StateAfterMerge options) None =
                Some update /\
                exists prs,
                  In (GetExternalBugPRsOnBugCall (event.bugId e) (prs, None)) t /\
                  Forall (seenMerged e t) prs).
  apply (calls_after_silent _ _ _ _ _ _ good); [apply Hsilent; hush|exact Hmono|intros w1].
  apply (calls_after_silent _ _ _ _ _ _ good); [apply Hsilent; hush|exact Hmono|intros w2].
  apply (calls_after_silent _ _ _ _ _ _ good); [apply Hsilent; hush|exact Hmono|intros w3].
  apply mergeLinks_update.
Qed.

(** X14.  For a merged pull request whose bug is in none of the states
    that the Policy knows ([ValidStates] and [StateAfterValidation], when
    one of them is configured), [handle] stops after fetching the bug: it
    comments that the bug is in an unrecognized state, and neither looks
    at the linked pull requests nor updates the bug. *)
Theorem handle_merge_unrecognized_state (R : Type) (e : event.t)
        (options : BugzillaBranchOptions.t) (w : W) (bug : Bug.t) :
  event.merged e = true -> event.missing e = false ->
  BugzillaBranchOptions.StateAfterMerge options <> None ->
  BugzillaBranchOptions.ValidStates options <> None \/
  BugzillaBranchOptions.StateAfterValidation options <> None ->
  snd (GetBug (event.bugId e) w) = (Some bug, None) ->
  bugMatchesStates bug (allowedStates options) = false ->
  exists w' posted,
    handle (R:=R) e options w =
    (w',
     [GetBugCall (event.bugId e) (Some bug, None);
      commentCall e
        (bugLink (event.bugId e) Endpoint ++ " is in an unrecognized state (" ++
         PrettyStatus (Bug.Status bug) (Bug.Resolution bug) ++
         ") and will not be moved to the " ++
         fmt_s_state (BugzillaBranchOptions.StateAfterMerge options) ++ " state.") posted],
     Val posted).
Proof.
  intros Em Hmiss Hsam Hguard Hbug Hstate.
  rewrite handle_merged, handleMerge_unfold by assumption.
  assert (Hg : isSome (BugzillaBranchOptions.ValidStates options) ||
               isSome (BugzillaBranchOptions.StateAfterValidation options) = true).
  { destruct (BugzillaBranchOptions.ValidStates options),
      (BugzillaBranchOptions.StateAfterValidation options), Hguard; auto; congruence. }
  destruct (GetBug (event.bugId e) w) as [w1 r] eqn:Eg. cbn [snd] in Hbug. subst r.
  unfold func, bind at 1 2 3.
  destruct (BugzillaBranchOptions.StateAfterMerge options) as [s|] eqn:Es; [|congruence].
  rewrite Hmiss. cbn [isNone isSome negb ret].
  unfold mergeGuard. rewrite Hg. unfold bind at 1.
  rewrite (getBug_found _ e w w1 bug Eg). cbv beta iota. rewrite Hstate. cbn [negb].
  rewrite comment_return_run. cbn [app]. rewrite Es. eexists _, _. reflexivity.
Qed.

(** *** The entry points *)

Lemma isCommand_spec body :
  isCommand body <->
  refreshCommandMatch_MatchString body || qaCommandMatch_MatchString body = true.
Proof.
  unfold isCommand, refreshCommandMatch_MatchString, qaCommandMatch_MatchString.
  rewrite orb_true_iff, !commandMatch_spec. reflexivity.
Qed.

Lemma func_call_run R R' (m : M W R R) (w : W) :
  func (R':=R') (bind (func (R':=R) m) (fun r => return_ r)) w = func (R':=R') m w.
Proof.
  unfold func, bind. destruct (m w) as [[w1 t1] [a|r|]]; cbn [return_]; rewrite ?app_nil_r;
    reflexivity.
Qed.

Lemma bind_ret_run R A B (a : A) (f : A -> M W R B) (w : W) : bind (ret a) f w = f a w.
Proof. unfold bind, ret. now destruct (f a w) as [[w2 t2] r2]. Qed.

Lemma call_handle R e options (w : W) :
  func (R':=R) (bind (handle (R:=option error) e options) (fun r => return_ r)) w =
  handle (R:=R) e options w.
Proof. unfold handle. apply func_call_run. Qed.

Section Entry.
Variable OptionsForBranch : string -> string -> string -> BugzillaBranchOptions.t.

Lemma digestComment_fetched R gce (w w1 : W) pr :
  GenericCommentEvent.Action gce = GenericCommentActionCreated ->
  GenericCommentEvent.IsPR gce = true ->
  isCommand (GenericCommentEvent.Body gce) ->
  GetPullRequest (GenericCommentEvent.Repo_Owner_Login gce) (GenericCommentEvent.Repo_Name gce)
                 (GenericCommentEvent.Number gce) w = (w1, (Some pr, None)) ->
  digestComment (R:=R) gce w =
  (w1,
   [GetPullRequestCall (GenericCommentEvent.Repo_Owner_Login gce)
      (GenericCommentEvent.Repo_Name gce) (GenericCommentEvent.Number gce) (Some pr, None)],
   Val match titleMatch_FindStringSubmatch (PullRequest.Title pr) with
       | None => (Some (event.set_missing true (commentEvent gce pr)), None)
       | Some mat1 =>
           match Atoi mat1 with
           | (_, Some err) => (None, Some (numError mat1 err))
           | (id, None) => (Some (event.set_bugId id (commentEvent gce pr)), None)
           end
       end).
Proof.
  intros Ha Hpr Hc Hg. apply isCommand_spec in Hc.
  unfold digestComment, commentEvent. rewrite Ha, Hpr. cbn [negb].
  unfold func, bind at 1 2 3. cbn [ret].
  assert (Hassign :
            (if refreshCommandMatch_MatchString (GenericCommentEvent.Body gce)
             then ret false
             else if qaCommandMatch_MatchString (GenericCommentEvent.Body gce)
                  then ret true else return_ (None, None)) w =
            (w, [], Val (negb (refreshCommandMatch_MatchString (GenericCommentEvent.Body gce))))
              :> W * list Call * res (option event.t * option error) bool).
  { destruct (refreshCommandMatch_MatchString _); [reflexivity|].
    simpl in Hc. now rewrite Hc. }
  rewrite Hassign. unfold bind at 1. rewrite gc_GetPullRequest_prim, prim_run, Hg.
  cbn [fst snd isSome]. unfold bind at 1. cbn [ret app].
  destruct (titleMatch_FindStringSubmatch _) as [mat1|]; [|reflexivity].
  destruct (Atoi mat1) as [id [err|]]; reflexivity.
Qed.


Lemma call_handle_run R e options (w : W) (c : Call) :
  (let '(w2, t2, r2) := bind (handle (R:=option error) e options) (fun r => return_ r) w in
   (w2, (c :: t2)%list,
    match r2 with
    | Val a => Val a
    | Ret a => Val a
    | Panic => Panic
    end)) = afterCall (R:=R) c (handle (R:=R) e options w).
Proof.
  unfold handle.
  match goal with |- context [func (R':=R) ?b] => generalize b end.
  intros body. unfold func, bind, afterCall, worldOf, callsOf, resultOf.
  destruct (body w) as [[w1 t1] [a|r|]]; cbn [return_ fst snd]; rewrite ?app_nil_r; reflexivity.
Qed.

(** X16.  A comment that is not newly created, or none of whose lines is
    one of the two commands, is ignored: no call is made and nil is
    returned. *)
Theorem handleGenericComment_ignores (R : Type) (gce : GenericCommentEvent.t) (w : W) :
  GenericCommentEvent.Action gce <> GenericCommentActionCreated \/
  ~ isCommand (GenericCommentEvent.Body gce) ->
  handleGenericComment (R:=R) OptionsForBranch gce w = (w, [], Val None).
Proof.
  intros H. unfold handleGenericComment, digestComment.
  destruct (GenericCommentEvent.Action gce) eqn:Ea; [|reflexivity].
  destruct H as [H|H]; [congruence|]. rewrite isCommand_spec in H.
  apply not_true_is_false, orb_false_iff in H as [H1 H2].
  unfold func, bind. cbn [ret]. now rewrite H1, H2.
Qed.

(** X17.  A command in a newly created comment on an issue that is not a
    pull request is answered by one comment, which says that only pull
    requests are supported; nothing is fetched, the tracker is not
    asked, and what posting the comment returned is returned. *)
Theorem handleGenericComment_on_issue (R : Type) (gce : GenericCommentEvent.t) (w : W) :
  GenericCommentEvent.Action gce = GenericCommentActionCreated ->
  isCommand (GenericCommentEvent.Body gce) ->
  GenericCommentEvent.IsPR gce = false ->
  exists w' posted,
    handleGenericComment (R:=R) OptionsForBranch gce w =
    (w',
     [CreateCommentCall (GenericCommentEvent.Repo_Owner_Login gce)
        (GenericCommentEvent.Repo_Name gce) (GenericCommentEvent.Number gce)
        (FormatResponseRaw (GenericCommentEvent.Body gce) (GenericCommentEvent.HTMLURL gce)
           (GenericCommentEvent.User_Login gce)
           "Bugzilla bug referencing is only supported for Pull Requests, not issues.")
        posted],
     Val posted).
Proof.
  intros Ha Hc Hpr. apply isCommand_spec in Hc.
  unfold handleGenericComment, digestComment. rewrite Ha, Hpr. cbn [negb].
  destruct (CreateComment (GenericCommentEvent.Repo_Owner_Login gce)
              (GenericCommentEvent.Repo_Name gce) (GenericCommentEvent.Number gce)
              (FormatResponseRaw (GenericCommentEvent.Body gce) (GenericCommentEvent.HTMLURL gce)
                 (GenericCommentEvent.User_Login gce) onlyPullRequests) w) as [w' posted] eqn:Ec.
  exists w', posted.
  assert (Hassign : exists assign,
             (if refreshCommandMatch_MatchString (GenericCommentEvent.Body gce)
              then ret false
              else if qaCommandMatch_MatchString (GenericCommentEvent.Body gce)
                   then ret true else return_ (None, None)) =
             ret (W:=W) (R:=option event.t * option error) assign).
  { destruct (refreshCommandMatch_MatchString _); [now exists false|].
    simpl in Hc. rewrite Hc. now exists true. }
  destruct Hassign as [assign ->].
  unfold func, bind. cbn [ret]. rewrite gc_CreateComment_prim. unfold prim. rewrite Ec.
  cbn [return_ app isSome]. destruct posted; reflexivity.
Qed.

(** X18.  A command in a newly created comment on a pull request runs
    [handle] after the pull request was fetched: on the event of the
    comment, whose branch is the base branch of the fetched pull request,
    and with the Policy of that branch. The event asks for the QA
    assignment exactly when no line is the refresh command. A title
    without a bug reference gives a [missing] event, which is handled
    too, whatever the Policy says about validating by default. *)
Theorem handleGenericComment_runs_handle (R : Type) (gce : GenericCommentEvent.t) (w : W)
        (pr : PullRequest.t) :
  GenericCommentEvent.Action gce = GenericCommentActionCreated ->
  GenericCommentEvent.IsPR gce = true ->
  isCommand (GenericCommentEvent.Body gce) ->
  let org := GenericCommentEvent.Repo_Owner_Login gce in
  let repo := GenericCommentEvent.Repo_Name gce in
  let number := GenericCommentEvent.Number gce in
  snd (GetPullRequest org repo number w) = (Some pr, None) ->
  let fetched := GetPullRequestCall org repo number (Some pr, None) in
  let w1 := fst (GetPullRequest org repo number w) in
  let options := OptionsForBranch org repo (PullRequest.Base_Ref pr) in
  let e := commentEvent gce pr in
  (NoBugRef (PullRequest.Title pr) ->
   handleGenericComment (R:=R) OptionsForBranch gce w =
   afterCall fetched (handle (R:=R) (event.set_missing true e) options w1)) /\
  (forall id,
      titleBugId (PullRequest.Title pr) = Some id ->
      handleGenericComment (R:=R) OptionsForBranch gce w =
      afterCall fetched (handle (R:=R) (event.set_bugId id e) options w1)) /\
  (event.assign e = true <-> ~ CommandLine "/bugzilla refresh" (GenericCommentEvent.Body gce)).
Proof.
  intros Ha Hpr Hc org repo number Hg fetched w1 options e.
  assert (Hrun := digestComment_fetched (option error) gce w w1 pr Ha Hpr Hc).
  fold org repo number in Hrun.
  destruct (GetPullRequest org repo number w) as [w1' r] eqn:Eg. cbn [snd] in Hg. subst r.
  cbn [fst] in w1. subst w1. specialize (Hrun eq_refl).
  repeat split.
  - intros Hnone. apply titleMatch_none in Hnone. rewrite Hnone in Hrun.
    unfold handleGenericComment. unfold func at 1, bind at 1. rewrite Hrun.
    cbv beta iota. cbn [isSome]. unfold bind at 1. cbn [ret app].
    match goal with
    | |- context [bind (handle ?e0 ?o) ?k ?w0] =>
        pose proof (call_handle_run R e0 o w0 fetched) as H;
        destruct (bind (handle e0 o) k w0) as [[w2 t2] r2]
    end.
    exact H.
  - intros id Hid. unfold titleBugId in Hid.
    destruct (titleMatch_FindStringSubmatch _) as [mat1|]; [|discriminate].
    destruct (Atoi mat1) as [i [err|]]; [discriminate|]. injection Hid as ->.
    unfold handleGenericComment. unfold func at 1, bind at 1. rewrite Hrun.
    cbv beta iota. cbn [isSome]. unfold bind at 1. cbn [ret app].
    match goal with
    | |- context [bind (handle ?e0 ?o) ?k ?w0] =>
        pose proof (call_handle_run R e0 o w0 fetched) as H;
        destruct (bind (handle e0 o) k w0) as [[w2 t2] r2]
    end.
    exact H.
  - unfold e, commentEvent. cbn [event.assign]. intros H.
    apply negb_true_iff in H. intros Hline. apply commandMatch_spec in Hline.
    unfold refreshCommandMatch_MatchString in H. congruence.
  - unfold e, commentEvent. cbn [event.assign]. intros H. apply negb_true_iff.
    apply not_true_is_false. intros Hm. apply H. now apply commandMatch_spec.
Qed.

(** X19.  A pull-request event that [digestPR] does not act on, and one
    whose title references no bug while the Policy does not validate by
    default and the previous title, if the event carries one, referenced
    no bug either (or the bug 0), cause no call: [handlePullRequest]
    returns nil at once. An event that [digestPR] produces is handled
    with the Policy of the base branch of the pull request. *)
Theorem handlePullRequest_dispatch (R : Type) (pre : PullRequestEvent.t) (w : W) :
  let pr := PullRequestEvent.PullRequest pre in
  let options := OptionsForBranch (PullRequest.Base_Repo_Owner_Login pr)
                                  (PullRequest.Base_Repo_Name pr) (PullRequest.Base_Ref pr) in
  (actsOn pre = false \/
   (NoBugRef (PullRequest.Title pr) /\
    BugzillaBranchOptions.ValidateByDefault options <> Some true /\
    (previousReference pre = None \/ previousReference pre = Some 0)) ->
   handlePullRequest (R:=R) OptionsForBranch pre w = (w, [], Val None)) /\
  (forall e,
      digestPR pre (BugzillaBranchOptions.ValidateByDefault options) = (Some e, None) ->
      handlePullRequest (R:=R) OptionsForBranch pre w = handle (R:=R) e options w).
Proof.
  intros pr options. split.
  - intros H.
    assert (Hd : digestPR pre (BugzillaBranchOptions.ValidateByDefault options) = (None, None)).
    { unfold digestPR. destruct H as [->|(Hnone & Hvbd & Hprev)]; [reflexivity|].
      destruct (actsOn pre); [|reflexivity]. cbn [negb]. fold pr.
      apply titleMatch_none in Hnone. rewrite Hnone. cbn [event.missing event.set_missing negb orb].
      assert (Hv : match BugzillaBranchOptions.ValidateByDefault options with
                   | Some b => b
                   | None => false
                   end = false).
      { destruct (BugzillaBranchOptions.ValidateByDefault options) as [[|]|]; congruence. }
      rewrite Hv. unfold previousReference, titleBugId in Hprev.
      destruct (unmarshalTitleFrom _) as [from|]; [|reflexivity].
      destruct (titleMatch_FindStringSubmatch from) as [pm|]; [|reflexivity].
      destruct (Atoi pm) as [prevId [err|]]; [reflexivity|].
      destruct Hprev as [Hprev|Hprev]; [discriminate|]. injection Hprev as ->. reflexivity. }
    unfold handlePullRequest. fold pr. fold options. rewrite Hd. reflexivity.
  - intros e Hd. unfold handlePullRequest. fold pr. fold options. rewrite Hd.
    cbn [isSome]. rewrite <- (call_handle R e options w).
    unfold func. now rewrite bind_ret_run.
Qed.

Lemma digestComment_comments R gce (w : W) :
  let x := digestComment (R:=R) gce w in
  (count isCreateComment (callsOf x) = 0%nat \/
   (count isCreateComment (callsOf x) = 1%nat /\ exists posted, resultOf x = Val (None, posted))) /\
  forall r, resultOf x <> Ret r.
Proof.
  cbv zeta. unfold digestComment.
  match goal with |- context [func ?b w] => set (body := b) end.
  assert (Hb : count isCreateComment (callsOf (body w)) = 0%nat \/
               (count isCreateComment (callsOf (body w)) = 1%nat /\
                exists posted, resultOf (body w) = Ret (None, posted))).
  { subst body. unfold bind at 1.
    destruct (GenericCommentEvent.Action gce); [|left; reflexivity].
    cbn [ret]. unfold bind at 1.
    destruct (refreshCommandMatch_MatchString _);
      [|destruct (qaCommandMatch_MatchString _); [|left; reflexivity]].
    all: cbn [ret]; unfold bind at 1.
    all: destruct (GenericCommentEvent.IsPR gce); cbn [negb].
    all: try (right; unfold bind; cbn [ret]; rewrite gc_CreateComment_prim, prim_run;
              cbn [return_ callsOf resultOf fst snd app];
              split; [reflexivity|eexists; reflexivity]).
    all: left; cbn [ret]; unfold bind at 1; rewrite gc_GetPullRequest_prim, prim_run.
    all: destruct (snd (GetPullRequest _ _ _ w)) as [[pr|] [err|]]; cbn [isSome];
      unfold bind; cbn [ret return_ panic callsOf resultOf fst snd app];
      try reflexivity.
    all: destruct (titleMatch_FindStringSubmatch _) as [mat1|];
      [destruct (Atoi mat1) as [id [err|]]|]; reflexivity. }
  unfold func, callsOf, resultOf in *.
  destruct (body w) as [[w1 t1] [[ev err]|[ev err]|]]; cbn [fst snd] in *.
  - split; [|discriminate]. destruct Hb as [Hb|[_ (posted & Hb)]]; [auto|discriminate].
  - split; [|discriminate]. destruct Hb as [Hb|[Hb (posted & E)]]; [auto|].
    right. split; [exact Hb|]. exists posted. congruence.
  - split; [|discriminate]. destruct Hb as [Hb|[_ (posted & Hb)]]; [auto|discriminate].
Qed.

(** X20.  Each of the two entry points posts at most one comment for an
    event that it receives. *)
Theorem entry_points_comment_once (R : Type) (pre : PullRequestEvent.t)
        (gce : GenericCommentEvent.t) (w : W) :
  (count isCreateComment (callsOf (handlePullRequest (R:=R) OptionsForBranch pre w)) <= 1)%nat /\
  (count isCreateComment (callsOf (handleGenericComment (R:=R) OptionsForBranch gce w)) <= 1)%nat.
Proof.
  split.
  - unfold handlePullRequest.
    destruct (digestPR pre _) as [[e|] [err|]]; cbn [isSome]; try (cbn; lia).
    rewrite calls_func, bind_ret_run.
    match goal with
    | |- context [bind (handle e ?o) ?k w] =>
        rewrite <- (calls_func (option error) R (bind (handle e o) k) w), (call_handle R e o w)
    end.
    apply handle_comment_bound.
  - unfold handleGenericComment. rewrite calls_func. unfold bind at 1.
    destruct (digestComment_comments (option error) gce w) as [Hc Hr]. cbv zeta in Hc, Hr.
    destruct (digestComment gce w) as [[w1 t1] [[ev err]|r|]]; cbn [callsOf resultOf fst snd] in *.
    + destruct err as [err|]; cbn [isSome].
      * unfold bind. cbn [return_ callsOf fst snd app]. rewrite app_nil_r.
        destruct Hc as [Hc|[Hc _]]; lia.
      * rewrite bind_ret_run. destruct ev as [e|].
        -- destruct Hc as [Hc|[_ (posted & Hc)]]; [|discriminate].
           match goal with
           | |- context [bind (handle e ?o) ?k w1] =>
               pose proof (handle_comment_bound R e o w1) as Hh;
               rewrite <- (call_handle R e o w1), calls_func in Hh;
               destruct (bind (handle e o) k w1) as [[w2 t2] r2]
           end.
           cbn [callsOf fst snd] in *. rewrite count_app. lia.
        -- cbn [return_ callsOf fst snd app]. rewrite app_nil_r.
           destruct Hc as [Hc|[Hc _]]; lia.
    + exfalso. now apply (Hr r).
    + destruct Hc as [Hc|[Hc _]]; lia.
Qed.

End Entry.

End Calls.

(* ----------------------------------------------------------------- *)
(** ** Further paths of the handlers *)

Section Paths.
Context {ext : Externals} {W : Type} {gc : githubClient W} {bc : bugzillaClient W}.

(** The branch of a valid bug when nothing is to be updated. *)
Lemma validBranch_no_update e options bug validationsRun (w : W) :
  AsBugUpdate (BugzillaBranchOptions.StateAfterValidation options) (Some bug) = None ->
  validBranch e options bug validationsRun w =
  bind (match BugzillaBranchOptions.AddExternalLink options with
        | Some true =>
            '(changed, err) <- bc_AddPullRequestAsExternalBug (event.bugId e) (event.org e)
                                 (event.repo e) (event.number e) ;;
            if isSome err then
              r <- comment e (formatError "adding this pull request to the external tracker bugs"
                                          Endpoint (event.bugId e) err) ;;
              return_ r
            else if (changed : bool) then
              ret (validSentence e ++
                   " The bug has been updated to refer to the pull request using the external bug tracker.")
            else ret (validSentence e)
        | _ => ret (validSentence e)
        end)
       (fun response => assignQA e bug (response ++ validationDetails validationsRun)) w.
Proof.
  intros Hu. unfold validBranch. rewrite Hu. fold (validSentence e).
  unfold bind at 1. cbn [ret]. now destruct (bind _ _ w) as [[w2 t2] r2].
Qed.

(** X23.  The link of the pull request into the tracker: for a valid bug
    that needs no update, when the Policy asks for the link and the event
    for no QA assignment, [handle] creates the link after its reads. If
    that fails, the comment reports the failure and the labels are left
    as they are; otherwise the labels are reconciled towards the valid
    label alone, and the comment says that the bug was updated to refer
    to the pull request exactly when the tracker says that it changed. *)
Theorem handle_links_pull_request (R : Type) (e : event.t)
        (options : BugzillaBranchOptions.t) (w : W) (bug : Bug.t) (dependents : list Bug.t)
        (validationsRun why : list string) :
  event.merged e = false -> event.missing e = false -> event.assign e = false ->
  BugzillaBranchOptions.AddExternalLink options = Some true ->
  AsBugUpdate (BugzillaBranchOptions.StateAfterValidation options) (Some bug) = None ->
  snd (GetBug (event.bugId e) w) = (Some bug, None) ->
  dependentsOf options bug dependents ->
  validateBug bug dependents options Endpoint = (true, validationsRun, why) ->
  exists w' reads linked w0 posted,
    forallb isRead reads = true /\
    handle (R:=R) e options w =
    (w',
     (reads ++
      AddPullRequestAsExternalBugCall (event.bugId e) (event.org e) (event.repo e)
                                      (event.number e) linked ::
      (if isSome (snd linked)
       then [commentCall e
               (formatError "adding this pull request to the external tracker bugs"
                            Endpoint (event.bugId e) (snd linked)) posted]
       else callsOf (reconcileLabels (R:=option error) e true false w0) ++
            [commentCall e
               (validSentence e ++
                (if fst linked
                 then " The bug has been updated to refer to the pull request using the external bug tracker."
                 else EmptyString) ++
                validationDetails validationsRun) posted]))%list,
     Val posted).
Proof.
  intros Em Hmiss Hassign Hlink Hu Hbug Hdeps Hv.
  destruct (validate_fetches e options w bug dependents Hmiss Hbug Hdeps)
    as (w1 & reads & Hreads & Hval).
  rewrite Hv in Hval. cbv beta iota in Hval. unfold bind at 1 in Hval.
  rewrite (validBranch_no_update e options bug validationsRun w1 Hu) in Hval.
  rewrite Hlink in Hval. unfold assignQA in Hval. rewrite Hassign in Hval.
  unfold bind at 1 2 in Hval.
  rewrite bc_AddPullRequestAsExternalBug_prim, prim_run in Hval.
  destruct (AddPullRequestAsExternalBug (event.bugId e) (event.org e) (event.repo e)
              (event.number e) w1) as [w2 [changed [err|]]] eqn:El;
    cbn [fst snd isSome] in Hval.
  - rewrite comment_return_run in Hval. cbn [app] in Hval.
    pose proof (handle_validate_returns R e options w _ _ _ Em Hval) as H.
    eexists _, reads, (changed, Some err), w1, _. split; [exact Hreads|].
    cbn [fst snd isSome]. exact H.
  - assert (Hval' : validate e options w =
                    (w2,
                     (reads ++ [AddPullRequestAsExternalBugCall (event.bugId e) (event.org e)
                                  (event.repo e) (event.number e) (changed, None)])%list,
                     Val (true, false,
                          validSentence e ++
                          (if changed
                           then " The bug has been updated to refer to the pull request using the external bug tracker."
                           else EmptyString) ++
                          validationDetails validationsRun))).
    { rewrite Hval. destruct changed; cbn [ret negb app]; rewrite ?append_assoc; reflexivity. }
    destruct (handle_after_validate R e options w _ _ true false _ Em Hval')
      as (wl & t & w' & posted & Hl & H).
    exists w', reads, (changed, None), w2, posted. split; [exact Hreads|].
    cbn [fst snd isSome]. rewrite Hl, H. cbn [callsOf fst snd].
    rewrite <- app_assoc. reflexivity.
Qed.

(** X24.  The QA contact: for a valid bug that needs no update, when the
    Policy asks for no link and the event for the QA assignment, and the
    bug has a QA contact with an email, [handle] sends one directory
    query, for this email, after its reads. If the query fails, the
    comment reports the failure and the labels are left as they are;
    otherwise the labels are reconciled towards the valid label alone and
    the comment ends with what [processQuery] makes of the logins found. *)
Theorem handle_assigns_qa (R : Type) (e : event.t)
        (options : BugzillaBranchOptions.t) (w : W) (bug : Bug.t) (dependents : list Bug.t)
        (validationsRun why : list string) (detail : BugUser.t) :
  event.merged e = false -> event.missing e = false -> event.assign e = true ->
  BugzillaBranchOptions.AddExternalLink options <> Some true ->
  AsBugUpdate (BugzillaBranchOptions.StateAfterValidation options) (Some bug) = None ->
  snd (GetBug (event.bugId e) w) = (Some bug, None) ->
  dependentsOf options bug dependents ->
  validateBug bug dependents options Endpoint = (true, validationsRun, why) ->
  Bug.QAContactDetail bug = Some detail ->
  BugUser.Email detail <> EmptyString ->
  let email := BugUser.Email detail in
  exists w' reads found w0 posted,
    forallb isRead reads = true /\
    handle (R:=R) e options w =
    (w',
     (reads ++
      QueryCall email found ::
      (if isSome (snd found)
       then [commentCall e
               (formatError ("querying GitHub for users with public email (" ++ email ++ ")")
                            Endpoint (event.bugId e) (snd found)) posted]
       else callsOf (reconcileLabels (R:=option error) e true false w0) ++
            [commentCall e
               (validSentence e ++ validationDetails validationsRun ++ nl ++ nl ++
                processQuery (fst found) email) posted]))%list,
     Val posted).
Proof.
  intros Em Hmiss Hassign Hlink Hu Hbug Hdeps Hv Hqa Hemail email.
  destruct (validate_fetches e options w bug dependents Hmiss Hbug Hdeps)
    as (w1 & reads & Hreads & Hval).
  rewrite Hv in Hval. cbv beta iota in Hval. unfold bind at 1 in Hval.
  rewrite (validBranch_no_update e options bug validationsRun w1 Hu) in Hval.
  assert (Hl : match BugzillaBranchOptions.AddExternalLink options with
               | Some true =>
                   '(changed, err) <- bc_AddPullRequestAsExternalBug (event.bugId e) (event.org e)
                                        (event.repo e) (event.number e) ;;
                   if isSome err then
                     r <- comment e (formatError "adding this pull request to the external tracker bugs"
                                                 Endpoint (event.bugId e) err) ;;
                     return_ r
                   else if (changed : bool) then
                     ret (validSentence e ++
                          " The bug has been updated to refer to the pull request using the external bug tracker.")
                   else ret (validSentence e)
               | _ => ret (validSentence e)
               end = ret (W:=W) (R:=option error) (validSentence e)).
  { destruct (BugzillaBranchOptions.AddExternalLink options) as [[|]|];
      [congruence|reflexivity|reflexivity]. }
  rewrite Hl in Hval. rewrite bind_ret_run in Hval.
  unfold assignQA in Hval. rewrite Hassign, Hqa in Hval. fold email in Hval.
  apply String.eqb_neq in Hemail. fold email in Hemail. rewrite Hemail in Hval.
  unfold bind at 1 in Hval. rewrite gc_Query_prim, prim_run in Hval.
  destruct (Query email w1) as [w2 [edges [err|]]] eqn:Eq; cbn [fst snd isSome] in Hval.
  - rewrite comment_return_run in Hval. cbn [app] in Hval.
    pose proof (handle_validate_returns R e options w _ _ _ Em Hval) as H.
    eexists _, reads, (edges, Some err), w1, _. split; [exact Hreads|].
    cbn [fst snd isSome]. exact H.
  - cbn [ret negb app] in Hval.
    assert (Hval' : validate e options w =
                    (w2, (reads ++ [QueryCall email (edges, None)])%list,
                     Val (true, false,
                          validSentence e ++ validationDetails validationsRun ++ nl ++ nl ++
                          processQuery edges email))).
    { rewrite Hval. rewrite ?append_assoc. reflexivity. }
    destruct (handle_after_validate R e options w _ _ true false _ Em Hval')
      as (wl & t & w' & posted & Hlab & H).
    exists w', reads, (edges, None), w2, posted. split; [exact Hreads|].
    cbn [fst snd isSome]. rewrite Hlab, H. cbn [callsOf fst snd].
    rewrite <- app_assoc. reflexivity.
Qed.

(** X25.  A bug that the tracker does not have: when the tracker answers
    the fetch of the bug of a pull request that has not merged with a
    not-found error, or with no bug and no error, [handle] comments that
    no bug with this id exists in the tracker, and how to go on, and
    stops; it makes no other call, and the labels are left as they
    are. *)
Theorem handle_bug_not_found (R : Type) (e : event.t) (options : BugzillaBranchOptions.t)
        (w : W) (bug : option Bug.t) (err : option error) :
  event.merged e = false -> event.missing e = false ->
  snd (GetBug (event.bugId e) w) = (bug, err) ->
  IsNotFound err = true \/ (bug = None /\ err = None) ->
  exists w' posted,
    handle (R:=R) e options w =
    (w',
     [GetBugCall (event.bugId e) (bug, err);
      commentCall e
        ("No Bugzilla bug with ID " ++ fmt_d (event.bugId e) ++ " exists in the tracker at " ++
         Endpoint ++ "." ++ nl ++
         "Once a valid bug is referenced in the title of this pull request, request a bug refresh with <code>/bugzilla refresh</code>.")
        posted],
     Val posted).
Proof.
  intros Em Hmiss Hbug Hnone.
  assert (H1 : isSome err && negb (IsNotFound err) = false).
  { destruct Hnone as [->|[_ ->]]; [apply andb_false_r|reflexivity]. }
  assert (H2 : IsNotFound err || isNone bug = true).
  { destruct Hnone as [->|[-> _]]; [reflexivity|apply orb_true_r]. }
  assert (Hval : exists w' posted,
             validate e options w =
             (w', [GetBugCall (event.bugId e) (bug, err);
                   commentCall e (noBugMessage (event.bugId e)) posted], Ret posted)).
  { unfold validate. rewrite Hmiss. unfold bind at 1, getBug. unfold bind at 1.
    rewrite bc_GetBug_prim, prim_run, Hbug. rewrite H1, H2.
    unfold bind at 1. rewrite comment_prim, prim_run. cbn [ret app].
    match goal with
    | |- context [CreateComment ?a ?b ?c ?d ?w0] =>
        destruct (CreateComment a b c d w0) as [w2 [perr|]]
    end; cbn [fst snd return_ app]; eexists _, _; reflexivity. }
  destruct Hval as (w' & posted & Hval). exists w', posted.
  exact (handle_validate_returns R e options w _ _ _ Em Hval).
Qed.

Section FetchFails.
Variable OptionsForBranch : string -> string -> string -> BugzillaBranchOptions.t.

(** X26.  When the pull request of a command cannot be fetched,
    [handleGenericComment] makes no other call and posts no comment: it
    returns the error of the fetch; and when the fetch gives neither a
    pull request nor an error, the code panics. *)
Theorem handleGenericComment_fetch_fails (R : Type) (gce : GenericCommentEvent.t) (w : W)
        (pr : option PullRequest.t) (err : option error) :
  GenericCommentEvent.Action gce = GenericCommentActionCreated ->
  GenericCommentEvent.IsPR gce = true ->
  isCommand (GenericCommentEvent.Body gce) ->
  let org := GenericCommentEvent.Repo_Owner_Login gce in
  let repo := GenericCommentEvent.Repo_Name gce in
  let number := GenericCommentEvent.Number gce in
  snd (GetPullRequest org repo number w) = (pr, err) ->
  err <> None \/ pr = None ->
  handleGenericComment (R:=R) OptionsForBranch gce w =
  (fst (GetPullRequest org repo number w),
   [GetPullRequestCall org repo number (pr, err)],
   match err with
   | Some _ => Val err
   | None => Panic
   end).
Proof.
  intros Ha Hpr Hc org repo number Hg Hfail. apply isCommand_spec in Hc.
  unfold handleGenericComment, digestComment. rewrite Ha, Hpr. cbn [negb].
  fold org repo number.
  assert (Hassign : exists assign,
             (if refreshCommandMatch_MatchString (GenericCommentEvent.Body gce)
              then ret false
              else if qaCommandMatch_MatchString (GenericCommentEvent.Body gce)
                   then ret true else return_ (None, None)) =
             ret (W:=W) (R:=option event.t * option error) assign).
  { destruct (refreshCommandMatch_MatchString _); [now exists false|].
    simpl in Hc. rewrite Hc. now exists true. }
  destruct Hassign as [assign ->].
  unfold func, bind. cbn [ret]. rewrite gc_GetPullRequest_prim. unfold prim.
  destruct (GetPullRequest org repo number w) as [w1 r]. cbn [snd fst] in *. subst r.
  destruct err as [err|]; cbn [isSome return_ app].
  - reflexivity.
  - destruct Hfail as [Hfail| ->]; [congruence|]. reflexivity.
Qed.

End FetchFails.

End Paths.

(* ----------------------------------------------------------------- *)
(** ** The theorems on the example instances *)

Module Examples.
Import Example.

(** The example review host keeps the labels as a set. *)
Lemma hasLabel_app (label : string) (a b : list Label.t) :
  hasLabel label (a ++ b) = hasLabel label a || hasLabel label b.
Proof. unfold hasLabel. apply existsb_app. Qed.

Lemma hasLabel_addLabel (l l' : string) (w : World) :
  hasLabel l' (addLabel l w) = if String.eqb l' l then true else hasLabel l' w.
Proof.
  unfold addLabel. fold (hasLabel l w).
  destruct (String.eqb_spec l' l) as [->|Hne].
  - destruct (hasLabel l w) eqn:E; [exact E|].
    rewrite hasLabel_app, E. cbn. now rewrite String.eqb_refl.
  - destruct (hasLabel l w); [reflexivity|].
    rewrite hasLabel_app. cbn. apply String.eqb_neq in Hne.
    rewrite String.eqb_sym, Hne. now rewrite !orb_false_r.
Qed.

Lemma hasLabel_removeLabel (l l' : string) (w : World) :
  hasLabel l' (removeLabel l w) = if String.eqb l' l then false else hasLabel l' w.
Proof.
  unfold removeLabel, hasLabel. induction w as [|x w IH]; cbn.
  - now destruct (String.eqb l' l).
  - destruct (String.eqb_spec (Label.Name x) l) as [E|E]; cbn; rewrite IH.
    + destruct (String.eqb_spec l' l) as [->|Hne]; [reflexivity|].
      rewrite E. apply String.eqb_neq in Hne. rewrite String.eqb_sym, Hne. reflexivity.
    + destruct (String.eqb_spec l' l) as [->|Hne]; [|reflexivity].
      apply String.eqb_neq in E. now rewrite E.
Qed.

Lemma github_labelStore prs users org repo number :
  labelStore (gc:=github prs users) org repo number.
Proof.
  unfold labelStore, present. cbn. repeat split; intros.
  - apply hasLabel_addLabel.
  - apply hasLabel_removeLabel.
Qed.

(** C1, on the title of a cherry-pick. *)
Lemma digestPR_bug_reference_witness :
  exists e,
    digestPR (ext:=ext) (openedWithTitle "[release-4.3] Bug 12: fix") None = (Some e, None) /\
    event.missing e = false /\ event.bugId e = 12.
Proof.
  destruct (digestPR_bug_reference (ext:=ext) (openedWithTitle "[release-4.3] Bug 12: fix") None
              eq_refl eq_refl) as (H & _ & _).
  apply (H "12"%string 12).
  - apply titleMatch_some. reflexivity.
  - reflexivity.
  - unfold maxInt. lia.
Defined.

(** C1 as stated fails: the pattern does not occur at the start of this
    title, and the event is not marked missing; it references bug 12. *)
Lemma titleMatch_not_anchored :
  anchoredTitleMatch "[release-4.3] Bug 12: fix" = None /\
  (forall ds, ~ BugRef ds "[release-4.3] Bug 12: fix") /\
  exists e,
    digestPR (ext:=ext) (openedWithTitle "[release-4.3] Bug 12: fix") (Some true) =
    (Some e, None) /\
    event.missing e = false /\ event.bugId e = 12.
Proof.
  split; [reflexivity|]. split.
  - intros ds H. apply bugHere_spec in H. discriminate H.
  - eexists. split; [reflexivity|]. split; reflexivity.
Qed.

(** C7, on an edit that only rewrites the reference. *)
Lemma digestPR_same_bug_suppressed_witness :
  digestPR (ext:=ext) (editedTitle "Bug 012: old words" "[release-4.3] bug 12: new words")
           (Some true) = (None, None).
Proof.
  apply (digestPR_same_bug_suppressed (ext:=ext) _ _ "Bug 012: old words" 12);
    reflexivity.
Defined.

(** C5, on the scenario of a closed bug under a Policy that wants open
    bugs. *)
Lemma validateBug_valid_iff_no_errors_witness :
  false = true <-> ["expected the bug to be open, but it isn't"] = @nil string.
Proof.
  apply (validateBug_valid_iff_no_errors (ext:=ext) closed1234 [] openOnly
           "https://bugzilla.example.com" false []).
  reflexivity.
Defined.

(** C3 *)
Lemma validateBug_no_dependents_witness :
  exists validations errors,
    validateBug (ext:=ext) bug1234 [] needsDependents "https://bugzilla.example.com" =
    (false, validations,
     (errors ++
      ["expected [Bugzilla bug 1234](https://bugzilla.example.com/show_bug.cgi?id=1234) to depend on a bug in one of the following states: MODIFIED, but no dependents were found"])%list).
Proof.
  apply (validateBug_no_dependents (ext:=ext) bug1234 needsDependents
           "https://bugzilla.example.com").
  left. discriminate.
Defined.

(** C4 *)
Lemma validateBug_no_constraints_witness :
  validateBug (ext:=ext) bug1234 [] noOptions "https://bugzilla.example.com" = (true, [], []).
Proof.
  apply (validateBug_no_constraints (ext:=ext) bug1234 [] noOptions
           "https://bugzilla.example.com").
  repeat split.
Defined.

(** C4 as stated fails: without constraints but with a dependent, one
    validation is returned. *)
Lemma validateBug_no_constraints_one_validation :
  noConstraints noOptions /\
  validateBug (ext:=ext) bug1234 [closed1234] noOptions "https://bugzilla.example.com" =
  (true, ["bug has dependents"], []) /\
  List.length (snd (fst (validateBug (ext:=ext) bug1234 [closed1234] noOptions
                           "https://bugzilla.example.com"))) <> 0%nat.
Proof. repeat split. discriminate. Qed.

(** C6, from a pull request that carries the label of an invalid bug,
    for a valid verdict. *)
Lemma reconcileLabels_idempotent_witness :
  let gc := github allMerged noUsers in
  let first := reconcileLabels (ext:=ext) (gc:=gc) (R:=unit) (ev false false) true false
                 [Label.mk "bugzilla/invalid-bug"] in
  let second := reconcileLabels (ext:=ext) (gc:=gc) (R:=unit) (ev false false) true false
                  (worldOf first) in
  count (isAddOf "bugzilla/valid-bug") (callsOf first) = 1%nat /\
  count (isRemoveOf "bugzilla/invalid-bug") (callsOf first) = 1%nat /\
  count isLabelWrite (callsOf first) = 2%nat /\
  count isLabelWrite (callsOf second) = 0%nat.
Proof.
  intros gc first second.
  assert (Hne : ValidBug (Externals:=ext) <> InvalidBug (Externals:=ext)) by discriminate.
  destruct (reconcileLabels_idempotent (ext:=ext) (gc:=gc) unit
              (ev false false) true false [Label.mk "bugzilla/invalid-bug"] Hne)
    as ((A & _ & _ & B & C) & D).
  split; [exact A|]. split; [exact B|]. split; [exact C|].
  apply D. apply github_labelStore.
Defined.

(** C2, on a bug linked to this pull request and to another one. *)
Lemma merge_advancement_witness :
  (exists updated,
      filter isUpdateBug
        (callsOf (handle (ext:=ext) (gc:=github allMerged noUsers) (bc:=tracker found links None)
                    (R:=unit) (ev true false) afterMerge [])) =
      [UpdateBugCall 1234 (BugUpdate.mk "MODIFIED" EmptyString) updated]) /\
  filter isUpdateBug
    (callsOf (handle (ext:=ext) (gc:=github noneMerged noUsers) (bc:=tracker found links None)
                (R:=unit) (ev true false) afterMerge [])) = [] /\
  exists response posted,
    filter isCreateComment
      (callsOf (handle (ext:=ext) (gc:=github noneMerged noUsers) (bc:=tracker found links None)
                  (R:=unit) (ev true false) afterMerge [])) =
    [CreateCommentCall "org" "repo" 7
       (formatResponse "Bug 1234: fix flake" "https://github.com/org/repo/pull/7" "author"
          response) posted] /\
    occursIn "[org/other#3](https://github.com/org/other/pull/3)" response.
Proof.
  destruct (merge_advancement (ext:=ext) (gc:=github allMerged noUsers)
              (bc:=tracker found links None)
              unit (ev true false) afterMerge [] modified
              (BugUpdate.mk "MODIFIED" EmptyString) [this; other]
              eq_refl eq_refl eq_refl eq_refl (or_introl (conj eq_refl eq_refl))
              (fun _ => eq_refl)) as [Hall _].
  destruct (merge_advancement (ext:=ext) (gc:=github noneMerged noUsers)
              (bc:=tracker found links None)
              unit (ev true false) afterMerge [] modified
              (BugUpdate.mk "MODIFIED" EmptyString) [this; other]
              eq_refl eq_refl eq_refl eq_refl (or_introl (conj eq_refl eq_refl))
              (fun _ => eq_refl)) as [_ Hone].
  split.
  - apply Hall. repeat constructor. intros w. eexists. split; reflexivity.
  - apply (Hone [this] other []).
    + reflexivity.
    + repeat constructor.
    + constructor.
    + intros w. eexists. split; reflexivity.
Defined.

(** C9, on the same bug when the other pull request is open. *)
Lemma merge_outcome_sentence_witness :
  exists w' reads st posted,
    handle (ext:=ext) (gc:=github noneMerged noUsers) (bc:=tracker found links None) (R:=unit)
           (ev true false) afterMerge [] =
    (w',
     (reads ++
      [CreateCommentCall "org" "repo" 7
         (formatResponse "Bug 1234: fix flake" "https://github.com/org/repo/pull/7" "author"
            ("Some pull requests linked via external trackers have merged: [org/repo#7](https://github.com/org/repo/pull/7). The following pull requests linked via external trackers have not merged:" ++
             nl ++ " * [org/other#3](https://github.com/org/other/pull/3) is " ++ st ++ nl ++
             "[Bugzilla bug 1234](https://bugzilla.example.com/show_bug.cgi?id=1234) has been moved to the MODIFIED state."))
         posted])%list,
     Val posted) /\
    forallb isRead reads = true.
Proof.
  destruct (merge_outcome_sentence (ext:=ext) (gc:=github noneMerged noUsers)
              (bc:=tracker found links None)
              unit (ev true false) afterMerge [] modified
              (BugUpdate.mk "MODIFIED" EmptyString) [this; other]
              eq_refl eq_refl eq_refl eq_refl (or_introl (conj eq_refl eq_refl))
              (fun _ => eq_refl)) as [Hone _].
  apply (Hone [this] other []).
  - reflexivity.
  - repeat constructor.
  - intros w. eexists. split; reflexivity.
Defined.

(** C8, when the tracker is unavailable: the comment names the search,
    the bug, the tracker and the error. *)
Lemma tracker_failure_reported_witness :
  let report :=
    formatResponse "Bug 1234: fix flake" "https://github.com/org/repo/pull/7" "author"
      ("An error was encountered searching for bug 1234 on the Bugzilla server at https://bugzilla.example.com:" ++
       nl ++ "> 503 Service Unavailable" ++ nl ++
       "Please contact an administrator to resolve this issue, then request a bug refresh with <code>/bugzilla refresh</code>.") in
  callsOf (handle (ext:=ext) (gc:=github allMerged noUsers)
             (bc:=tracker (fun _ => (None, Some unavailable)) links None)
             (R:=unit) (ev false false) noOptions []) =
  [GetBugCall 1234 (None, Some unavailable); CreateCommentCall "org" "repo" 7 report None] /\
  exists posted,
    [CreateCommentCall "org" "repo" 7 report None] =
    [CreateCommentCall "org" "repo" 7 report posted] /\
    resultOf (handle (ext:=ext) (gc:=github allMerged noUsers)
                (bc:=tracker (fun _ => (None, Some unavailable)) links None)
                (R:=unit) (ev false false) noOptions []) = Val posted.
Proof.
  cbv zeta. split; [reflexivity|].
  destruct (tracker_failure_reported (ext:=ext) (gc:=github allMerged noUsers)
              (bc:=tracker (fun _ => (None, Some unavailable)) links None)
              unit (ev false false) noOptions [] []
              [CreateCommentCall "org" "repo" 7
                 (formatResponse "Bug 1234: fix flake" "https://github.com/org/repo/pull/7"
                    "author"
                    ("An error was encountered searching for bug 1234 on the Bugzilla server at https://bugzilla.example.com:" ++
                     nl ++ "> 503 Service Unavailable" ++ nl ++
                     "Please contact an administrator to resolve this issue, then request a bug refresh with <code>/bugzilla refresh</code>."))
                 None]
              (GetBugCall 1234 (None, Some unavailable)) unavailable eq_refl eq_refl)
    as (posted & Hpost & Hres & _).
  exists posted. split; [exact Hpost|exact Hres].
Defined.

(** The same for a dependent that the tracker does not have: a later
    fetch is reported with its error also when the error is a not-found
    error. *)
Example dependent_not_found_is_an_error :
  let bc := tracker (fun id => if id =? 1234 then (Some dependsOn77, None)
                               else (None, Some notFound)) links None in
  handle (ext:=ext) (gc:=github allMerged noUsers) (bc:=bc) (R:=unit)
         (ev false false) needsDependents [] =
  ([],
   [GetBugCall 1234 (Some dependsOn77, None);
    GetBugCall 77 (None, Some notFound);
    CreateCommentCall "org" "repo" 7
      (formatResponse "Bug 1234: fix flake" "https://github.com/org/repo/pull/7" "author"
         ("An error was encountered searching for dependent bug 77 for bug 1234 on the Bugzilla server at https://bugzilla.example.com:" ++
          nl ++ "> 404 Not Found" ++ nl ++
          "Please contact an administrator to resolve this issue, then request a bug refresh with <code>/bugzilla refresh</code>."))
      None],
   Val None).
Proof. reflexivity. Qed.

(** C8 as stated fails: when the bug of the event is not found, the
    comment is not an error comment of any action, and the text of the
    error does not occur in it. *)
Lemma not_found_comment_omits_error :
  let bc := tracker (fun _ => (None, Some notFound)) links None in
  let response :=
    "No Bugzilla bug with ID 1234 exists in the tracker at https://bugzilla.example.com." ++
    nl ++
    "Once a valid bug is referenced in the title of this pull request, request a bug refresh with <code>/bugzilla refresh</code>." in
  let posted :=
    formatResponse "Bug 1234: fix flake" "https://github.com/org/repo/pull/7" "author"
      response in
  handle (ext:=ext) (gc:=github allMerged noUsers) (bc:=bc) (R:=unit) (ev false false) noOptions [] =
  ([], [GetBugCall 1234 (None, Some notFound); CreateCommentCall "org" "repo" 7 posted None],
   Val None) /\
  (forall action rest, response <> "An error was encountered " ++ action ++ rest) /\
  String.index 0 "404 Not Found" posted = None.
Proof.
  cbv zeta. split; [reflexivity|]. split; [|reflexivity].
  intros action rest H. discriminate H.
Qed.

(** C10, for a bug without a QA contact: no query, and the comment of
    the valid bug ends with the note. *)
Lemma qa_assignment_skipped_witness :
  let gc := github allMerged noUsers in
  let bc := tracker found links None in
  count isQuery (callsOf (handle (ext:=ext) (gc:=gc) (bc:=bc) (R:=unit) (ev false true) noOptions [])) =
  0%nat /\
  validate (ext:=ext) (gc:=gc) (bc:=bc) (ev false true) noOptions [] =
  ([], [GetBugCall 1234 (Some bug1234, None)],
   Val (true, false,
        "This pull request references [Bugzilla bug 1234](https://bugzilla.example.com/show_bug.cgi?id=1234), which is valid." ++
        nl ++ nl ++
        "<details><summary>No validations were run on this bug</summary></details>" ++
        "[Bugzilla bug 1234](https://bugzilla.example.com/show_bug.cgi?id=1234) does not have a QA contact, skipping assignment")).
Proof.
  destruct (qa_assignment_skipped (ext:=ext) (gc:=github allMerged noUsers) (bc:=tracker found links None)
              unit (ev false true) noOptions [] bug1234 eq_refl eq_refl eq_refl eq_refl I)
    as (A & B & _).
  split; [exact A|exact B].
Defined.

(** The same for a QA contact without an email. *)
Example qa_contact_without_email :
  let nobody := Bug.mk 1234 true "NEW" EmptyString ["4.3.0"] [] (Some (BugUser.mk EmptyString)) in
  handle (ext:=ext) (gc:=github allMerged noUsers)
         (bc:=tracker (fun _ => (Some nobody, None)) links None)
         (R:=unit) (ev false true) noOptions [] =
  ([Label.mk "bugzilla/valid-bug"],
   [GetBugCall 1234 (Some nobody, None);
    GetIssueLabelsCall "org" "repo" 7 ([], None);
    AddLabelCall "org" "repo" 7 "bugzilla/valid-bug" None;
    CreateCommentCall "org" "repo" 7
      (formatResponse "Bug 1234: fix flake" "https://github.com/org/repo/pull/7" "author"
         ("This pull request references [Bugzilla bug 1234](https://bugzilla.example.com/show_bug.cgi?id=1234), which is valid." ++
          nl ++ nl ++
          "<details><summary>No validations were run on this bug</summary></details>" ++
          "QA contact for [Bugzilla bug 1234](https://bugzilla.example.com/show_bug.cgi?id=1234) does not have a listed email, skipping assignment"))
      None],
   Val None).
Proof. reflexivity. Qed.

(** Two scenarios of the specification, run. *)

(** A closed bug under a Policy that wants open bugs: the verdict is
    invalid, the label of an invalid bug is added and the one of a valid
    bug is not. *)
Example closed_bug_is_invalid :
  let run := handle (ext:=ext) (gc:=github allMerged noUsers)
               (bc:=tracker (fun _ => (Some closed1234, None)) links None)
               (R:=unit) (ev false false) openOnly [] in
  validateBug (ext:=ext) closed1234 [] openOnly "https://bugzilla.example.com" =
  (false, [], ["expected the bug to be open, but it isn't"]) /\
  worldOf run = [Label.mk "bugzilla/invalid-bug"] /\
  count (isAddOf "bugzilla/invalid-bug") (callsOf run) = 1%nat /\
  count (isAddOf "bugzilla/valid-bug") (callsOf run) = 0%nat /\
  count isCreateComment (callsOf run) = 1%nat.
Proof. repeat split. Qed.

(** The directory query finds the one login alice: the response ends with
    the directive that assigns her. *)
Example qa_contact_is_assigned :
  let qa := Bug.mk 1234 true "NEW" EmptyString ["4.3.0"] []
              (Some (BugUser.mk "alice@example.com")) in
  let run := handle (ext:=ext) (gc:=github allMerged (fun _ => (["alice"], None)))
               (bc:=tracker (fun _ => (Some qa, None)) links None)
               (R:=unit) (ev false true) noOptions [] in
  exists response,
    last (callsOf run) (QueryCall EmptyString ([], None)) =
    CreateCommentCall "org" "repo" 7
      (formatResponse "Bug 1234: fix flake" "https://github.com/org/repo/pull/7" "author"
         (response ++ "Assigning the QA contact for review:" ++ nl ++ "/assign @alice"))
      None /\
    count isQuery (callsOf run) = 1%nat.
Proof.
  exists ("This pull request references " ++
          bugLink 1234 "https://bugzilla.example.com" ++ ", which is valid." ++
          validationDetails [] ++ nl ++ nl).
  split; reflexivity.
Qed.


(** X1, on a title that is completed after the colon. *)
Lemma titleMatch_extension_witness :
  titleMatch_FindStringSubmatch ("Bug 1234:" ++ " fix flake") = Some "1234"%string.
Proof. apply (titleMatch_extension "Bug 1234:" " fix flake" "1234"). reflexivity. Defined.

(** X2, on an id of twenty digits. *)
Lemma digestPR_error_witness :
  digestPR (ext:=ext) (openedWithTitle "Bug 99999999999999999999: overflow") None =
  (None, Some (numError (ext:=ext) "99999999999999999999" ErrRange)).
Proof.
  apply (proj2 (digestPR_error (ext:=ext)
                  (openedWithTitle "Bug 99999999999999999999: overflow") None None
                  (numError (ext:=ext) "99999999999999999999" ErrRange))).
  split; [reflexivity|]. split; [reflexivity|].
  exists "99999999999999999999"%string, 99999999999999999999.
  split; [apply titleMatch_some; reflexivity|].
  split; [reflexivity|]. split; [reflexivity|reflexivity].
Defined.

(** X3, on an edit that moves the pull request from bug 1 to bug 2. *)
Lemma digestPR_changed_reference_witness :
  exists e,
    digestPR (ext:=ext) (editedTitle "Bug 1: first" "Bug 2: second") None = (Some e, None) /\
    event.bugId e = 2 /\ event.missing e = false.
Proof.
  apply (proj1 (digestPR_changed_reference (ext:=ext)
                  (editedTitle "Bug 1: first" "Bug 2: second") None "Bug 1: first" 1
                  eq_refl eq_refl eq_refl) 2).
  - reflexivity.
  - lia.
Defined.

(** X22 *)
Lemma bug_id_round_trip_witness : titleBugId ("Bug " ++ fmt_d 1234 ++ ":" ++ " fix flake") = Some 1234.
Proof. apply (bug_id_round_trip 1234 " fix flake"). unfold maxInt. lia. Defined.

(** X5, on a closed bug under a Policy that wants open bugs. *)
Lemma validateBug_every_check_reports_witness :
  (List.length (@nil string) + List.length ["expected the bug to be open, but it isn't"])%nat =
  checksOf [] openOnly.
Proof.
  apply (validateBug_every_check_reports (ext:=ext) closed1234 [] openOnly
           "https://bugzilla.example.com" false).
  reflexivity.
Defined.

(** X7 *)
Lemma handle_merged_calls_witness :
  count isValidationOnly
        (callsOf (handle (ext:=ext) (gc:=github allMerged noUsers)
                         (bc:=tracker found links None) (R:=unit)
                         (ev true false) afterMerge [])) = 0%nat.
Proof.
  apply (proj1 (handle_merged_calls (ext:=ext) (gc:=github allMerged noUsers)
                  (bc:=tracker found links None) unit (ev true false) afterMerge []
                  eq_refl)).
Defined.

(** X9, on a pull request that carries the valid label. *)
Lemma handle_missing_reference_witness :
  exists w' removedValid posted,
    handle (ext:=ext) (gc:=github noneMerged noUsers) (bc:=tracker found links None) (R:=unit)
           evMissing openOnly [Label.mk "bugzilla/valid-bug"] =
    (w',
     [GetIssueLabelsCall "org" "repo" 7 ([Label.mk "bugzilla/valid-bug"], None);
      RemoveLabelCall "org" "repo" 7 "bugzilla/valid-bug" removedValid;
      CreateCommentCall "org" "repo" 7
        (formatResponse "Bug 1234: fix flake" "https://github.com/org/repo/pull/7" "author"
           ("No Bugzilla bug is referenced in the title of this pull request." ++ nl ++
            "To reference a bug, add 'Bug XXX:' to the title of this pull request and request another bug refresh with <code>/bugzilla refresh</code>."))
        posted],
     Val posted).
Proof.
  destruct (handle_missing_reference (ext:=ext) (gc:=github noneMerged noUsers)
              (bc:=tracker found links None) unit evMissing openOnly
              [Label.mk "bugzilla/valid-bug"] eq_refl eq_refl)
    as (w' & removedValid & removedInvalid & posted & H).
  exists w', removedValid, posted. exact H.
Defined.

(** X10 *)
Lemma reconcileLabels_establishes_witness :
  let after :=
    worldOf (reconcileLabels (ext:=ext) (gc:=github noneMerged noUsers) (R:=unit)
                             (ev false false) true false [Label.mk "bugzilla/invalid-bug"]) in
  present (gc:=github noneMerged noUsers) "org" "repo" 7 "bugzilla/valid-bug" after = true /\
  present (gc:=github noneMerged noUsers) "org" "repo" 7 "bugzilla/invalid-bug" after = false.
Proof.
  destruct (reconcileLabels_establishes (ext:=ext) (gc:=github noneMerged noUsers) unit
              (ev false false) true false [Label.mk "bugzilla/invalid-bug"]) as (Hv & Hi & _).
  - discriminate.
  - apply github_labelStore.
  - split; [exact Hv|exact Hi].
Defined.

(** X11, on a bug whose dependent is in another state than the Policy
    wants. *)
Lemma handle_invalid_bug_witness :
  exists w' w0 posted,
    handle (ext:=ext) (gc:=github noneMerged noUsers) (bc:=tracker withDependent links None)
           (R:=unit) (ev false false) needsDependents [] =
    (w',
     ([GetBugCall 1234 (Some dependsOn77, None); GetBugCall 77 (Some bug77, None)] ++
      callsOf (reconcileLabels (ext:=ext) (gc:=github noneMerged noUsers) (R:=option error)
                               (ev false false) false true w0) ++
      [CreateCommentCall "org" "repo" 7
         (formatResponse "Bug 1234: fix flake" "https://github.com/org/repo/pull/7" "author"
            ("This pull request references [Bugzilla bug 1234](https://bugzilla.example.com/show_bug.cgi?id=1234), which is invalid:" ++
             nl ++
             " - expected dependent [Bugzilla bug 77](https://bugzilla.example.com/show_bug.cgi?id=77) to be in one of the following states: MODIFIED, but it is NEW instead" ++
             nl ++ nl ++
             "Comment <code>/bugzilla refresh</code> to re-evaluate validity if changes to the Bugzilla bug are made, or edit the title of this pull request to link to a different bug."))
         posted])%list,
     Val posted).
Proof.
  apply (handle_invalid_bug (ext:=ext) (gc:=github noneMerged noUsers)
           (bc:=tracker withDependent links None) unit (ev false false) needsDependents []
           dependsOn77 [bug77] ["bug has dependents"]
           ["expected dependent [Bugzilla bug 77](https://bugzilla.example.com/show_bug.cgi?id=77) to be in one of the following states: MODIFIED, but it is NEW instead"]).
  - reflexivity.
  - reflexivity.
  - reflexivity.
  - repeat constructor.
  - reflexivity.
Defined.

(** X12, on an open bug under a Policy that wants open bugs and moves
    them. *)
Lemma handle_valid_bug_witness :
  exists w' w0 posted updated,
    handle (ext:=ext) (gc:=github noneMerged noUsers) (bc:=tracker found links None)
           (R:=unit) (ev false false) openThenModified [] =
    (w',
     ([GetBugCall 1234 (Some bug1234, None);
       UpdateBugCall 1234 (BugUpdate.mk "MODIFIED" EmptyString) updated] ++
      match updated with
      | Some err =>
          [CreateCommentCall "org" "repo" 7
             (formatResponse "Bug 1234: fix flake" "https://github.com/org/repo/pull/7" "author"
                ("An error was encountered updating to the MODIFIED state for bug 1234 on the Bugzilla server at https://bugzilla.example.com:" ++
                 nl ++ "> " ++ Error err ++ nl ++
                 "Please contact an administrator to resolve this issue, then request a bug refresh with <code>/bugzilla refresh</code>."))
             posted]
      | None =>
          callsOf (reconcileLabels (ext:=ext) (gc:=github noneMerged noUsers) (R:=option error)
                                   (ev false false) true false w0) ++
          [CreateCommentCall "org" "repo" 7
             (formatResponse "Bug 1234: fix flake" "https://github.com/org/repo/pull/7" "author"
                ("This pull request references [Bugzilla bug 1234](https://bugzilla.example.com/show_bug.cgi?id=1234), which is valid. The bug has been moved to the MODIFIED state." ++
                 nl ++ nl ++
                 "<details><summary>1 validation(s) were run on this bug</summary>" ++ nl ++
                 nl ++ "* bug is open, matching expected state (open)</details>"))
             posted]
      end)%list,
     Val posted).
Proof.
  destruct (handle_valid_bug (ext:=ext) (gc:=github noneMerged noUsers)
              (bc:=tracker found links None) unit (ev false false) openThenModified []
              bug1234 [] ["bug is open, matching expected state (open)"] [])
    as (w' & w0 & posted & updated & H); first [ reflexivity | discriminate | idtac ].
  exists w', w0, posted, updated. exact H.
Defined.

(** X13, on a merged pull request whose bug links one other pull request,
    merged too. *)
Lemma merge_update_needs_all_merged_witness :
  let calls := callsOf (handle (ext:=ext) (gc:=github allMerged noUsers)
                               (bc:=tracker found links None) (R:=unit)
                               (ev true false) afterMerge []) in
  exists prs,
    In (GetExternalBugPRsOnBugCall 1234 (prs, None)) calls /\
    Forall (seenMerged (ev true false) calls) prs.
Proof.
  destruct (merge_update_needs_all_merged (ext:=ext) (gc:=github allMerged noUsers)
              (bc:=tracker found links None) unit (ev true false) afterMerge []
              1234 (BugUpdate.mk "MODIFIED" EmptyString) None eq_refl) as (_ & _ & H).
  - vm_compute. right. right. left. reflexivity.
  - exact H.
Defined.

(** X14, on a bug that is NEW where the Policy knows MODIFIED only. *)
Lemma handle_merge_unrecognized_state_witness :
  exists w' posted,
    handle (ext:=ext) (gc:=github allMerged noUsers) (bc:=tracker found links None) (R:=unit)
           (ev true false) stateGuard [] =
    (w',
     [GetBugCall 1234 (Some bug1234, None);
      commentCall (ext:=ext) (ev true false)
        "[Bugzilla bug 1234](https://bugzilla.example.com/show_bug.cgi?id=1234) is in an unrecognized state (NEW) and will not be moved to the MODIFIED state."
        posted],
     Val posted).
Proof.
  apply (handle_merge_unrecognized_state (ext:=ext) (gc:=github allMerged noUsers)
           (bc:=tracker found links None) unit (ev true false) stateGuard [] bug1234);
    first [ reflexivity | discriminate | left; discriminate ].
Defined.

(** X15, on a command in capitals on the second line of a comment. *)
Lemma command_patterns_witness :
  CommandLine "/bugzilla refresh" ("Thanks!" ++ nl ++ "/BUGZILLA Refresh  ").
Proof.
  apply (proj1 (command_patterns ("Thanks!" ++ nl ++ "/BUGZILLA Refresh  "))). reflexivity.
Defined.

(** X16, on an edited comment. *)
Lemma handleGenericComment_ignores_witness :
  handleGenericComment (ext:=ext) (gc:=github noneMerged noUsers)
    (bc:=tracker found links None) (R:=unit) policy
    (commented (GenericCommentActionOther "edited") "/bugzilla refresh" true) [] =
  ([], [], Val None).
Proof.
  apply (handleGenericComment_ignores (ext:=ext) (gc:=github noneMerged noUsers)
           (bc:=tracker found links None) policy unit).
  left. discriminate.
Defined.

(** X17 *)
Lemma handleGenericComment_on_issue_witness :
  exists w' posted,
    handleGenericComment (ext:=ext) (gc:=github noneMerged noUsers)
      (bc:=tracker found links None) (R:=unit) policy
      (commented GenericCommentActionCreated "/bugzilla refresh" false) [] =
    (w',
     [CreateCommentCall "org" "repo" 7
        "@reviewer: Bugzilla bug referencing is only supported for Pull Requests, not issues."
        posted],
     Val posted).
Proof.
  apply (handleGenericComment_on_issue (ext:=ext) (gc:=github noneMerged noUsers)
           (bc:=tracker found links None) policy unit
           (commented GenericCommentActionCreated "/bugzilla refresh" false) []).
  - reflexivity.
  - left. apply commandMatch_spec. reflexivity.
  - reflexivity.
Defined.

(** X18, on the other command. *)
Lemma handleGenericComment_runs_handle_witness :
  let gce := commented GenericCommentActionCreated "/bugzilla assign-qa" true in
  let pr := pullRequest "Bug 1234: the other half" false in
  handleGenericComment (ext:=ext) (gc:=github noneMerged noUsers)
    (bc:=tracker found links None) (R:=unit) policy gce [] =
  afterCall (GetPullRequestCall "org" "repo" 7 (Some pr, None))
            (handle (ext:=ext) (gc:=github noneMerged noUsers) (bc:=tracker found links None)
                    (R:=unit) (event.set_bugId 1234 (commentEvent gce pr)) noOptions []).
Proof.
  intros gce pr.
  destruct (handleGenericComment_runs_handle (ext:=ext) (gc:=github noneMerged noUsers)
              (bc:=tracker found links None) policy unit gce [] pr) as (_ & H & _).
  - reflexivity.
  - reflexivity.
  - right. apply commandMatch_spec. reflexivity.
  - reflexivity.
  - apply (H 1234). reflexivity.
Defined.

(** X19, on an event that only adds a label. *)
Lemma handlePullRequest_dispatch_witness :
  handlePullRequest (ext:=ext) (gc:=github noneMerged noUsers)
    (bc:=tracker found links None) (R:=unit) policy labeled [] = ([], [], Val None).
Proof.
  apply (proj1 (handlePullRequest_dispatch (ext:=ext) (gc:=github noneMerged noUsers)
                  (bc:=tracker found links None) policy unit labeled [])).
  left. reflexivity.
Defined.

(** X21, on the two enumerations of a map with two branches: both give
    the same text, with the default first. *)
Lemma repoConfigInfo_order_independent_witness :
  repoConfigInfo (ext:=ext) "*" byBranch = repoConfigInfo (ext:=ext) "*" (rev byBranch) /\
  repoConfigInfo (ext:=ext) "*" (rev byBranch) =
  "The plugin has the following configuration:<ul>" ++ nl ++
  "<li>by default, valid bugs must exist. After being linked to a pull request, bugs will be moved to the MODIFIED state when all linked pull requests are merged.</li>" ++
  nl ++
  "<li>on the " ++ quote "release-4.3" ++
  " branch, valid bugs must be in one of the following states: NEW, POST.</li>" ++ nl ++
  "</ul>".
Proof.
  split; [|reflexivity].
  apply (repoConfigInfo_order_independent (ext:=ext) "*" byBranch (rev byBranch)).
  - repeat constructor; simpl; intuition discriminate.
  - apply perm_swap.
Defined.

(** X23 *)
Lemma handle_links_pull_request_witness :
  exists w' reads linked w0 posted,
    forallb isRead reads = true /\
    handle (ext:=ext) (gc:=github noneMerged noUsers) (bc:=tracker found links None)
           (R:=unit) (ev false false) linkOnly [] =
    (w',
     (reads ++
      AddPullRequestAsExternalBugCall 1234 "org" "repo" 7 linked ::
      (if isSome (snd linked)
       then [commentCall (ext:=ext) (ev false false)
               (formatError "adding this pull request to the external tracker bugs"
                            "https://bugzilla.example.com" 1234 (snd linked)) posted]
       else callsOf (reconcileLabels (ext:=ext) (gc:=github noneMerged noUsers)
                                     (R:=option error) (ev false false) true false w0) ++
            [commentCall (ext:=ext) (ev false false)
               (validSentence (bc:=tracker found links None) (ev false false) ++
                (if fst linked
                 then " The bug has been updated to refer to the pull request using the external bug tracker."
                 else EmptyString) ++
                validationDetails []) posted]))%list,
     Val posted).
Proof.
  apply (handle_links_pull_request (ext:=ext) (gc:=github noneMerged noUsers)
           (bc:=tracker found links None) unit (ev false false) linkOnly []
           bug1234 [] [] []); reflexivity.
Defined.

(** X24, on a bug whose QA contact has one account. *)
Lemma handle_assigns_qa_witness :
  exists w' reads found w0 posted,
    forallb isRead reads = true /\
    handle (ext:=ext) (gc:=github noneMerged aliceOnly) (bc:=tracker foundWithQA links None)
           (R:=unit) (ev false true) noOptions [] =
    (w',
     (reads ++
      QueryCall "alice@example.com" found ::
      (if isSome (snd found)
       then [commentCall (ext:=ext) (ev false true)
               (formatError "querying GitHub for users with public email (alice@example.com)"
                            "https://bugzilla.example.com" 1234 (snd found)) posted]
       else callsOf (reconcileLabels (ext:=ext) (gc:=github noneMerged aliceOnly)
                                     (R:=option error) (ev false true) true false w0) ++
            [commentCall (ext:=ext) (ev false true)
               (validSentence (bc:=tracker foundWithQA links None) (ev false true) ++
                validationDetails [] ++ nl ++ nl ++
                processQuery (fst found) "alice@example.com") posted]))%list,
     Val posted).
Proof.
  apply (handle_assigns_qa (ext:=ext) (gc:=github noneMerged aliceOnly)
           (bc:=tracker foundWithQA links None) unit (ev false true) noOptions []
           bugWithQA [] [] [] (BugUser.mk "alice@example.com"));
    first [ reflexivity | discriminate ].
Defined.

(** X25, on a tracker that answers with a not-found error. *)
Lemma handle_bug_not_found_witness :
  exists w' posted,
    handle (ext:=ext) (gc:=github noneMerged noUsers)
           (bc:=tracker (fun _ => (None, Some notFound)) links None)
           (R:=unit) (ev false false) openOnly [] =
    (w',
     [GetBugCall 1234 (None, Some notFound);
      CreateCommentCall "org" "repo" 7
        (formatResponse "Bug 1234: fix flake" "https://github.com/org/repo/pull/7" "author"
           ("No Bugzilla bug with ID 1234 exists in the tracker at https://bugzilla.example.com." ++
            nl ++
            "Once a valid bug is referenced in the title of this pull request, request a bug refresh with <code>/bugzilla refresh</code>."))
        posted],
     Val posted).
Proof.
  apply (handle_bug_not_found (ext:=ext) (gc:=github noneMerged noUsers)
           (bc:=tracker (fun _ => (None, Some notFound)) links None)
           unit (ev false false) openOnly [] None (Some notFound)).
  - reflexivity.
  - reflexivity.
  - reflexivity.
  - left. reflexivity.
Defined.

(** X26, on a review host that is unavailable. *)
Lemma handleGenericComment_fetch_fails_witness :
  handleGenericComment (ext:=ext) (gc:=github fetchFails noUsers)
    (bc:=tracker found links None) (R:=unit) policy
    (commented GenericCommentActionCreated "/bugzilla refresh" true) [] =
  ([], [GetPullRequestCall "org" "repo" 7 (None, Some unavailable)], Val (Some unavailable)).
Proof.
  apply (handleGenericComment_fetch_fails (ext:=ext) (gc:=github fetchFails noUsers)
           (bc:=tracker found links None) policy unit
           (commented GenericCommentActionCreated "/bugzilla refresh" true) []
           None (Some unavailable)).
  - reflexivity.
  - reflexivity.
  - left. apply commandMatch_spec. reflexivity.
  - reflexivity.
  - left. discriminate.
Defined.

End Examples.
